(** * CSME Huffman unpacker: a shallow embedding of [decoder/csme_unpack.py]

    The development follows the Python module top to bottom:
    the Huffman table loader, the page lookup table (LUT) reader and the
    page decoder.  Python integers are [Z]; byte strings are [list byte];
    bit arrays of the [bitstring] package are [list bool], first bit first,
    and what the package makes of a code string that is not binary digits
    is a parameter ([bitstring_package]);
    the global Huffman table is a [gmap] keyed by bit patterns; LUT entry
    objects live in a heap so that in-place updates are visible to every
    holder of the reference. *)

From Stdlib Require Import ZArith List String Ascii Lia Bool.
From Stdlib.Strings Require Import Byte.
From stdpp Require Import gmap strings list.

Local Open Scope Z_scope.

(** ** Exceptions and results *)

Inductive exn : Type :=
| IndexError      (* sequence index out of range *)
| ValueError      (* bad argument value *)
| OverflowError   (* int too big to convert / negative int to unsigned *)
| OSError         (* invalid seek position *)
| CreationError.  (* bitstring: the initialiser is refused *)

(** The result of running a piece of Python code: a value, a raised
    exception, or exhaustion of the iteration budget of a [while] loop. *)
Inductive result (A : Type) : Type :=
| Ok (a : A)
| Raise (e : exn)
| OutOfFuel.
Arguments Ok {A} a.
Arguments Raise {A} e.
Arguments OutOfFuel {A}.

Definition bind {A B} (r : result A) (k : A -> result B) : result B :=
  match r with
  | Ok a => k a
  | Raise e => Raise e
  | OutOfFuel => OutOfFuel
  end.

Notation "'do' x <- r ; k" := (bind r (fun x => k))
  (at level 10, x name, r at level 100, k at level 200).

(** ** Bytes *)

Definition byte_val (b : byte) : Z := Z.of_N (Byte.to_N b).

(** ** Binary input files

    A file opened with [open(name, "rb")]: its contents and the current
    position.  The position may lie past the end; a read there returns
    the empty byte string. *)

Record file : Type := File { f_data : list byte; f_pos : Z }.

(** [f.read(n)] for a non-negative count. *)
Definition file_read_n (n : nat) (f : file) : list byte * file :=
  let got := take n (drop (Z.to_nat (f_pos f)) (f_data f)) in
  (got, File (f_data f) (f_pos f + Z.of_nat (length got))).

(** [f.read(n)]: [-1] reads to the end of the file, other negative counts
    raise [ValueError] (buffered readers). *)
Definition file_read (n : Z) (f : file) : result (list byte) * file :=
  if n <? -1 then (Raise ValueError, f)
  else if n =? -1 then
    let '(got, f') := file_read_n (length (f_data f)) f in (Ok got, f')
  else
    let '(got, f') := file_read_n (Z.to_nat n) f in (Ok got, f').

(** [f.seek(off, os.SEEK_SET)] and [f.seek(off, os.SEEK_CUR)]; a negative
    target position raises. *)
Definition file_seek_set (off : Z) (f : file) : result unit * file :=
  if off <? 0 then (Raise OSError, f) else (Ok tt, File (f_data f) off).

Definition file_seek_cur (off : Z) (f : file) : result unit * file :=
  if f_pos f + off <? 0 then (Raise OSError, f)
  else (Ok tt, File (f_data f) (f_pos f + off)).

(** [rawdata[i]] on a byte string, for a constant non-negative index. *)
Definition getitem (rawdata : list byte) (i : nat) : result Z :=
  match rawdata !! i with
  | Some b => Ok (byte_val b)
  | None => Raise IndexError
  end.

(** ** LUT entries *)

Definition HUFFMAN_PAGE_DECODED_SIZE_MAX : Z := 4096.

(** [class LUTentry]: the fields [offset], [dictionary_selector], [size]. *)
Record LUTentry : Type := MkLUTentry {
  lut_offset : Z;
  lut_dictionary_selector : Z;
  lut_size : Z
}.

(** [LUTentry.__init__]: the size starts at 0. *)
Definition LUTentry_init (offset dictionary_selector : Z) : LUTentry :=
  MkLUTentry offset dictionary_selector 0.

Definition set_lut_size (sz : Z) (e : LUTentry) : LUTentry :=
  MkLUTentry (lut_offset e) (lut_dictionary_selector e) sz.

(** ** [read_lut] *)

(** The body of the [while] loop of [read_lut] after the four bytes have
    been read: [None] is the [continue] on invalid selector bits,
    [Some (offset, huffman_selector)] the arguments of the new entry. *)
Definition read_lut_word (reverse_byte_ordering : bool) (rawdata : list byte)
  : result (option (Z * Z)) :=
  let ix (a b : nat) := if reverse_byte_ordering then a else b in
  do s <- getitem rawdata (ix 3 0)%nat;
  let huffman_selector := Z.land s 0xC0 in
  if negb (huffman_selector =? 0xC0) && negb (huffman_selector =? 0x40)
  then Ok None
  else
    let huffman_selector := if huffman_selector =? 0xC0 then 1 else 0 in
    do b3 <- getitem rawdata (ix 3 0)%nat;
    do b2 <- getitem rawdata (ix 2 1)%nat;
    do b1 <- getitem rawdata (ix 1 2)%nat;
    do b0 <- getitem rawdata (ix 0 3)%nat;
    let offset :=
      Z.lor (Z.lor (Z.lor
        (Z.shiftl (Z.land (Z.land b3 0x3F) 0xFF) 24)
        (Z.shiftl (Z.land b2 0xFF) 16))
        (Z.shiftl (Z.land b1 0xFF) 8))
        (Z.land b0 0xFF) in
    Ok (Some (offset, huffman_selector)).

(** [local_lut_return_value[entry_index - 1].size = ...] followed by
    [local_lut_return_value.append(new_lut_entry)]. *)
Definition lut_append (entry_index : Z) (new_lut_entry : LUTentry)
    (lut : list LUTentry) : result (list LUTentry) :=
  if 0 <? entry_index then
    let i := Z.to_nat (entry_index - 1) in
    match lut !! i with
    | Some prev =>
        Ok (<[i := set_lut_size (lut_offset new_lut_entry - lut_offset prev) prev]> lut
              ++ [new_lut_entry])
    | None => Raise IndexError
    end
  else Ok (lut ++ [new_lut_entry]).

Fixpoint read_lut_loop (fuel : nat) (reverse_byte_ordering : bool)
    (bytes_of_lut_to_read position entry_index : Z)
    (local_lut_return_value : list LUTentry) (from_opened_input_file : file)
  : result (list LUTentry) * file :=
  if position <? bytes_of_lut_to_read then
    match fuel with
    | O => (OutOfFuel, from_opened_input_file)
    | S fuel' =>
        let '(rawdata, f1) := file_read_n 4 from_opened_input_file in
        let position := position + 4 in
        match read_lut_word reverse_byte_ordering rawdata with
        | Ok None =>
            read_lut_loop fuel' reverse_byte_ordering bytes_of_lut_to_read
              position entry_index local_lut_return_value f1
        | Ok (Some (offset, huffman_selector)) =>
            match lut_append entry_index (LUTentry_init offset huffman_selector)
                    local_lut_return_value with
            | Ok lut' =>
                read_lut_loop fuel' reverse_byte_ordering bytes_of_lut_to_read
                  position (entry_index + 1) lut' f1
            | Raise e => (Raise e, f1)
            | OutOfFuel => (OutOfFuel, f1)
            end
        | Raise e => (Raise e, f1)
        | OutOfFuel => (OutOfFuel, f1)
        end
    end
  else (Ok local_lut_return_value, from_opened_input_file).

(** The loop adds 4 to [position] each round, so [bytes_of_lut_to_read]
    rounds always suffice (see [read_lut_loop_fuel]). *)
Definition read_lut (from_opened_input_file : file) (bytes_of_lut_to_read : Z)
    (reverse_byte_ordering : bool) : result (list LUTentry) * file :=
  read_lut_loop (Z.to_nat bytes_of_lut_to_read) reverse_byte_ordering
    bytes_of_lut_to_read 0 0 [] from_opened_input_file.

(** ** Code objects and [read_lut_of_code_object] *)

Record CodePartitionDescriptor : Type := MkCodePartitionDescriptor {
  offset_of_cdt_header : Z;
  cpd_size : Z;
  cpd_name : string
}.

Record CodeObjectEntry : Type := MkCodeObjectEntry {
  in_partition : CodePartitionDescriptor;
  rel_offset_of_data_in_partition : Z;
  coe_size : Z;
  coe_name : string;
  is_huffman_compressed : bool
}.

(** Returns [None] for a code object that is not Huffman compressed,
    before touching the file; otherwise seeks to the object and reads
    [int(size / 4096)] LUT words in reversed byte order. *)
Definition read_lut_of_code_object (from_opened_input_file : file)
    (target_code_object_entry : CodeObjectEntry)
  : result (option (list LUTentry)) * file :=
  if negb (is_huffman_compressed target_code_object_entry) then
    (Ok None, from_opened_input_file)
  else
    match file_seek_set
            (offset_of_cdt_header (in_partition target_code_object_entry)
             + rel_offset_of_data_in_partition target_code_object_entry)
            from_opened_input_file with
    | (Ok _, f1) =>
        let num_of_huffman_code_pages :=
          Z.quot (coe_size target_code_object_entry) HUFFMAN_PAGE_DECODED_SIZE_MAX in
        match read_lut f1 (num_of_huffman_code_pages * 4) true with
        | (Ok lut, f2) => (Ok (Some lut), f2)
        | (Raise e, f2) => (Raise e, f2)
        | (OutOfFuel, f2) => (OutOfFuel, f2)
        end
    | (Raise e, f1) => (Raise e, f1)
    | (OutOfFuel, f1) => (OutOfFuel, f1)
    end.

(** ** Python string and integer primitives used by the table loader *)

(** Whitespace of [str.split()] within ASCII: tab, line feed, vertical
    tab, form feed, carriage return, the four separators 0x1c-0x1f, and
    the space. *)
Definition py_isspace (c : ascii) : bool :=
  let n := nat_of_ascii c in
  ((9 <=? n) && (n <=? 13) || (28 <=? n) && (n <=? 32))%nat.

Definition string_is_empty (s : string) : bool :=
  match s with EmptyString => true | _ => false end.

(** [line.split()]: maximal runs of non-whitespace characters. *)
Fixpoint split_go (cur : string) (s : string) : list string :=
  match s with
  | EmptyString => if string_is_empty cur then [] else [cur]
  | String c s' =>
      if py_isspace c then
        if string_is_empty cur then split_go EmptyString s'
        else cur :: split_go EmptyString s'
      else split_go (cur ++ String c EmptyString)%string s'
  end.

Definition py_split (line : string) : list string := split_go EmptyString line.

(** Value of a character as a digit: [0-9], [a-z] and [A-Z] as 10..35. *)
Definition digit_value (c : ascii) : option Z :=
  let n := Z.of_nat (nat_of_ascii c) in
  if (48 <=? n) && (n <=? 57) then Some (n - 48)
  else if (97 <=? n) && (n <=? 122) then Some (n - 97 + 10)
  else if (65 <=? n) && (n <=? 90) then Some (n - 65 + 10)
  else None.

Definition is_underscore (c : ascii) : bool := (nat_of_ascii c =? 95)%nat.

(** Digits of an integer literal: single underscores may separate digits,
    and the literal may not end with one. *)
Fixpoint parse_digits (base : Z) (prev_underscore : bool) (acc : Z) (s : string)
  : option Z :=
  match s with
  | EmptyString => if prev_underscore then None else Some acc
  | String c s' =>
      if is_underscore c then
        if prev_underscore then None else parse_digits base true acc s'
      else
        match digit_value c with
        | Some d =>
            if d <? base then parse_digits base false (acc * base + d) s'
            else None
        | None => None
        end
  end.

Definition strip_sign (s : string) : Z * string :=
  match s with
  | String c s' =>
      if (nat_of_ascii c =? 43)%nat then (1, s')
      else if (nat_of_ascii c =? 45)%nat then (-1, s')
      else (1, s)
  | EmptyString => (1, s)
  end.

(** The [0x] / [0X] prefix accepted in base 16, with the one underscore
    allowed right after it. *)
Definition strip_hex_prefix (s : string) : string :=
  match s with
  | String c0 (String c1 s') =>
      if (nat_of_ascii c0 =? 48)%nat
         && ((nat_of_ascii c1 =? 120) || (nat_of_ascii c1 =? 88))%nat
      then match s' with
           | String c2 s'' => if is_underscore c2 then s'' else s'
           | EmptyString => s'
           end
      else s
  | _ => s
  end.

(** [int(s, base)] for [base] 10 or 16 on a token without whitespace. *)
Definition py_int (s : string) (base : Z) : result Z :=
  let '(sign, s1) := strip_sign s in
  let s2 := if base =? 16 then strip_hex_prefix s1 else s1 in
  match s2 with
  | EmptyString => Raise ValueError
  | String c _ =>
      if is_underscore c then Raise ValueError
      else match parse_digits base false 0 s2 with
           | Some v => Ok (sign * v)
           | None => Raise ValueError
           end
  end.

Definition byte_of_N (n : N) : byte :=
  match Byte.of_N n with Some b => b | None => x00 end.

(** The [len] low-order base-256 digits of [n], most significant first. *)
Fixpoint be_bytes (len : nat) (n : N) : list byte :=
  match len with
  | O => []
  | S k => be_bytes k (n / 256)%N ++ [byte_of_N (n mod 256)%N]
  end.

Definition sys_maxsize : Z := 2 ^ 63 - 1.

(** [n.to_bytes(length, "big")].  The length is first converted to a C
    [Py_ssize_t], which raises [OverflowError] outside
    [-maxsize - 1 .. maxsize]; within that range a byte string of any
    length can be built (memory is not a limit here). *)
Definition int_to_bytes_big (n : Z) (length : Z) : result (list byte) :=
  if (length <? - sys_maxsize - 1) || (sys_maxsize <? length)
  then Raise OverflowError
  else if length <? 0 then Raise ValueError
  else if n <? 0 then Raise OverflowError
  else if 256 ^ length <=? n then Raise OverflowError
  else Ok (be_bytes (Z.to_nat length) (Z.to_N n)).

(** ** The [bitstring] package

    The package is outside the repository.  Of its string initialiser one
    fact is used: [0b] followed by binary digits is the bit array of those
    digits, first digit first.  The initialiser takes much more than that
    (several tokens separated by commas, other bases and formats), and the
    table loader hands it whatever the seventh token of a line is.  So a
    code string that is not a non-empty run of the digits [0] and [1] is
    passed to the package as it stands, and what comes back -- a bit
    array or an exception -- is a parameter of the development: the
    statements about the loader hold whatever the package does with such
    strings. *)
Class bitstring_package : Type := {
  other_initialiser : string -> exn + list bool
}.

(** The bits of a run of the digits [0] and [1]; [None] for a string with
    any other character. *)
Fixpoint binary_digits (code : string) : option (list bool) :=
  match code with
  | EmptyString => Some []
  | String c s' =>
      if (nat_of_ascii c =? 48)%nat then cons false <$> binary_digits s'
      else if (nat_of_ascii c =? 49)%nat then cons true <$> binary_digits s'
      else None
  end.

(** [bitstring.ConstBitArray("0b" + code)]. *)
Definition ConstBitArray_bin {pkg : bitstring_package} (code : string)
  : result (list bool) :=
  match code, binary_digits code with
  | String _ _, Some bits => Ok bits
  | _, _ =>
      match other_initialiser code with
      | inl e => Raise e
      | inr bits => Ok bits
      end
  end.

(** A package that takes binary digits and nothing else.  It stands for
    the package where an example needs a particular one; the code strings
    of the examples are binary digits, for which every package gives the
    same bits. *)
Definition digits_only : bitstring_package :=
  {| other_initialiser := fun _ => inl CreationError |}.

(** A package that also takes a list of tokens separated by commas, of
    which only the case of one token and a closing comma is spelled out:
    [0b0000000,] is seven bits. *)
Definition closing_comma : bitstring_package :=
  {| other_initialiser := fun code =>
       let n := (String.length code - 1)%nat in
       match binary_digits (String.substring 0 n code) with
       | Some (b :: bits) =>
           if String.eqb (String.substring n 1 code) ","
           then inr (b :: bits) else inl CreationError
       | _ => inl CreationError
       end |}.

(** ** The Huffman table *)

Record HuffmanTableEntry : Type := MkHuffmanTableEntry {
  dict1_value : list byte;
  dict2_value : list byte;
  dictionary_data_length : Z;
  huffman_code_rank : Z;
  huffman_code : string;
  huffman_code_bits : list bool
}.

(** [HuffmanTableEntry.__init__]. *)
Definition HuffmanTableEntry_init {pkg : bitstring_package}
    (dict1 dict2 dict_data_length_in_bytes rank : Z) (code : string)
  : result HuffmanTableEntry :=
  do d1 <- int_to_bytes_big dict1 dict_data_length_in_bytes;
  do d2 <- int_to_bytes_big dict2 dict_data_length_in_bytes;
  do bits <- ConstBitArray_bin code;
  Ok (MkHuffmanTableEntry d1 d2 dict_data_length_in_bytes rank code bits).

(** The module globals [huffman_table], [longest_huffman_code_in_bits]
    and [shortest_huffman_code_in_bits]. *)
Record huffman_globals : Type := MkGlobals {
  huffman_table : gmap (list bool) HuffmanTableEntry;
  longest_huffman_code_in_bits : Z;
  shortest_huffman_code_in_bits : Z
}.

Definition clear_huffman_table_data : huffman_globals :=
  MkGlobals ∅ 0 sys_maxsize.

Definition token (tokens : list string) (i : nat) : result string :=
  match tokens !! i with
  | Some t => Ok t
  | None => Raise IndexError
  end.

(** The body of the [try] block: the five fields, then the two counter
    updates.  Every statement that can raise comes before the first
    update, so a raised exception leaves the globals as they were. *)
Definition parse_table_line (tokens : list string) (g : huffman_globals)
  : result (Z * Z * Z * Z * string * huffman_globals) :=
  do t0 <- token tokens 0;
  do dict1 <- py_int t0 16;
  do t2 <- token tokens 2;
  do dict2 <- py_int t2 16;
  do t4 <- token tokens 4;
  do dlen <- py_int t4 10;
  do t5 <- token tokens 5;
  do rank <- py_int t5 10;
  do code <- token tokens 6;
  let longest :=
    if longest_huffman_code_in_bits g <? rank then rank
    else longest_huffman_code_in_bits g in
  let shortest :=
    if rank <? shortest_huffman_code_in_bits g then rank
    else shortest_huffman_code_in_bits g in
  Ok (dict1, dict2, dlen, rank, code,
      MkGlobals (huffman_table g) longest shortest).

(** [process_huffman_table_file_line]: the bare [except] returns; the
    entry constructor runs after the [try] statement, so what it raises
    reaches the caller, with the counters already updated. *)
Definition process_huffman_table_file_line {pkg : bitstring_package}
    (line : string) (g : huffman_globals) : result unit * huffman_globals :=
  let tokens := py_split line in
  match parse_table_line tokens g with
  | Ok (dict1, dict2, dlen, rank, code, g1) =>
      match HuffmanTableEntry_init dict1 dict2 dlen rank code with
      | Ok table_entry =>
          (Ok tt,
           MkGlobals (<[huffman_code_bits table_entry := table_entry]> (huffman_table g1))
                     (longest_huffman_code_in_bits g1)
                     (shortest_huffman_code_in_bits g1))
      | Raise e => (Raise e, g1)
      | OutOfFuel => (OutOfFuel, g1)
      end
  | Raise _ => (Ok tt, g)
  | OutOfFuel => (OutOfFuel, g)
  end.

(** [read_ascii_huffman_table_from_file], on the lines of the file. *)
Fixpoint read_ascii_huffman_table {pkg : bitstring_package}
    (lines : list string) (g : huffman_globals) : result unit * huffman_globals :=
  match lines with
  | [] => (Ok tt, g)
  | line :: rest =>
      match process_huffman_table_file_line line g with
      | (Ok _, g1) => read_ascii_huffman_table rest g1
      | (Raise e, g1) => (Raise e, g1)
      | (OutOfFuel, g1) => (OutOfFuel, g1)
      end
  end.

(** ** Bit arrays *)

(** The bits of a byte, most significant first, as
    [bitstring.BitArray(bytes=...)] lays them out. *)
Definition bits_of_byte (b : byte) : list bool :=
  map (N.testbit (Byte.to_N b)) [7; 6; 5; 4; 3; 2; 1; 0]%N.

Definition bits_of_bytes (bs : list byte) : list bool :=
  flat_map bits_of_byte bs.

(** The stop index of the slice [0:k] on a sequence of [len] items:
    a negative [k] counts from the end, and the result is clipped to
    [0..len]. *)
Definition slice_stop (k : Z) (len : nat) : nat :=
  if k <? 0 then Z.to_nat (Z.max 0 (k + Z.of_nat len))
  else Z.to_nat (Z.min k (Z.of_nat len)).

(** [bitbuffer[0:k]] and [del bitbuffer[0:k]]. *)
Definition bits_prefix (k : Z) (bb : list bool) : list bool :=
  take (slice_stop k (length bb)) bb.

Definition bits_del_prefix (k : Z) (bb : list bool) : list bool :=
  drop (slice_stop k (length bb)) bb.

(** The matching [for] loop: candidates of [nbits_of_hcode],
    [nbits_of_hcode - 1], ... bits, [count] of them; the first one found
    in the table wins.  Returns the final value of the loop variable
    ([last] when the range is empty) and what was found. *)
Fixpoint match_loop (table : gmap (list bool) HuffmanTableEntry)
    (bitbuffer : list bool) (nbits_of_hcode : Z) (count : nat) (last : Z)
  : Z * option HuffmanTableEntry :=
  match count with
  | O => (last, None)
  | S count' =>
      match table !! bits_prefix nbits_of_hcode bitbuffer with
      | Some found => (nbits_of_hcode, Some found)
      | None => match_loop table bitbuffer (nbits_of_hcode - 1) count' nbits_of_hcode
      end
  end.

(** [for nbits_of_hcode in range(longest_code_possible,
    shortest_huffman_code_in_bits - 1, -1)], with [nbits_of_hcode = 0]
    before it. *)
Definition match_code (g : huffman_globals) (bitbuffer : list bool)
    (longest_code_possible : Z) : Z * option HuffmanTableEntry :=
  match_loop (huffman_table g) bitbuffer longest_code_possible
    (Z.to_nat (longest_code_possible - (shortest_huffman_code_in_bits g - 1))) 0.

(** ** The page decoder *)

(** An output stream: the position set by [seek] and the bytes handed to
    [write] since, in order. *)
Record out_file : Type := OutFile { o_seek : Z; o_written : list byte }.

Definition out_seek (off : Z) (o : out_file) : result unit * out_file :=
  if off <? 0 then (Raise OSError, o) else (Ok tt, OutFile off (o_written o)).

Definition out_write (bs : list byte) (o : out_file) : out_file :=
  OutFile (o_seek o) (o_written o ++ bs).

(** What the decoder reports besides its return value: the error line
    printed when no code matches in the main loop, and the point where
    the closing loop gives up on the remaining bits and clears them. *)
Inductive event : Type :=
| NoMatchingCode
| TailCleared.

(** The local variables of [decode_page_from_input_file_i] together with
    the two streams. *)
Record dstate : Type := MkD {
  inp : file;
  outp : out_file;
  read_position : Z;
  write_position : Z;
  in_data : list byte;
  bitbuffer : list bool;
  valid_bits_in_bitbuffer : Z;
  log : list event
}.

(** How a loop is left. *)
Inductive flow : Type :=
| Next (st : dstate)              (* go round again / fall out of the loop *)
| Return (v : Z) (st : dstate)    (* a [return] statement *)
| Throw (e : exn) (st : dstate)   (* an exception *)
| Stuck (st : dstate).            (* iteration budget used up *)

Definition bitbuffer_topoff_level (g : huffman_globals) : Z :=
  longest_huffman_code_in_bits g * 10.

(** One round of the main [while] loop, entered with
    [read_position < end_page_position]. *)
Definition main_body (g : huffman_globals) (dictionary_selector end_page_position : Z)
    (st : dstate) : flow :=
  let new_data_size_in_bits := 8 * Z.of_nat (length (in_data st)) in
  let bb := bits_del_prefix
              (Z.of_nat (length (bitbuffer st)) - valid_bits_in_bitbuffer st)
              (bitbuffer st) in
  let '(bb, in_data1) :=
    if (0 <? length (in_data st))%nat
    then (bb ++ bits_of_bytes (in_data st), [])
    else (bb, in_data st) in
  let valid := valid_bits_in_bitbuffer st + new_data_size_in_bits in
  let longest_code_possible := Z.min (longest_huffman_code_in_bits g) valid in
  match match_code g bb longest_code_possible with
  | (_, None) =>
      Return (-1)
        (MkD (inp st) (outp st) (read_position st) (write_position st)
             in_data1 bb valid (log st ++ [NoMatchingCode]))
  | (nbits_of_hcode, Some found) =>
      let dcode_to_write :=
        if dictionary_selector =? 1 then dict2_value found else dict1_value found in
      let outp1 := out_write dcode_to_write (outp st) in
      let wp := write_position st + Z.of_nat (length dcode_to_write) in
      if HUFFMAN_PAGE_DECODED_SIZE_MAX <=? wp then
        Return wp (MkD (inp st) outp1 (read_position st) wp in_data1 bb valid (log st))
      else
        let valid := valid - nbits_of_hcode in
        if valid <? longest_huffman_code_in_bits g then
          let bytes_to_read_next :=
            Z.quot (bitbuffer_topoff_level g) 8
            + (if 0 <? bitbuffer_topoff_level g mod 8 then 1 else 0) in
          let bytes_to_read_next :=
            Z.min bytes_to_read_next (end_page_position - read_position st) in
          match file_read bytes_to_read_next (inp st) with
          | (Ok data, inp1) =>
              Next (MkD inp1 outp1 (read_position st + Z.of_nat (length data)) wp
                        data bb valid (log st))
          | (Raise e, inp1) =>
              Throw e (MkD inp1 outp1 (read_position st) wp in_data1 bb valid (log st))
          | (OutOfFuel, inp1) =>
              Stuck (MkD inp1 outp1 (read_position st) wp in_data1 bb valid (log st))
          end
        else
          Next (MkD (inp st) outp1 (read_position st) wp [] bb valid (log st))
  end.

(** [while read_position < end_page_position: ...] *)
Fixpoint main_loop (fuel : nat) (g : huffman_globals)
    (dictionary_selector end_page_position : Z) (st : dstate) : flow :=
  if read_position st <? end_page_position then
    match fuel with
    | O => Stuck st
    | S fuel' =>
        match main_body g dictionary_selector end_page_position st with
        | Next st' => main_loop fuel' g dictionary_selector end_page_position st'
        | other => other
        end
    end
  else Next st.

(** One round of the closing loop, entered with
    [len(bitbuffer) >= shortest_huffman_code_in_bits]. *)
Definition tail_body (g : huffman_globals) (dictionary_selector : Z) (st : dstate)
  : flow :=
  let bb := bits_del_prefix
              (Z.of_nat (length (bitbuffer st)) - valid_bits_in_bitbuffer st)
              (bitbuffer st) in
  let valid := valid_bits_in_bitbuffer st in
  let longest_code_possible := Z.min (longest_huffman_code_in_bits g) valid in
  match match_code g bb longest_code_possible with
  | (nbits_of_hcode, Some found) =>
      let dcode_to_write :=
        if dictionary_selector =? 1 then dict2_value found else dict1_value found in
      let outp1 := out_write dcode_to_write (outp st) in
      let wp := write_position st + Z.of_nat (length dcode_to_write) in
      if HUFFMAN_PAGE_DECODED_SIZE_MAX <=? wp then
        Return wp (MkD (inp st) outp1 (read_position st) wp (in_data st) bb valid (log st))
      else
        Next (MkD (inp st) outp1 (read_position st) wp (in_data st) bb
                  (valid - nbits_of_hcode) (log st))
  | (_, None) =>
      Next (MkD (inp st) (outp st) (read_position st) (write_position st)
                (in_data st) [] 0 (log st ++ [TailCleared]))
  end.

(** [while len(bitbuffer) >= shortest_huffman_code_in_bits: ...] followed
    by the final [return write_position]. *)
Fixpoint tail_loop (fuel : nat) (g : huffman_globals) (dictionary_selector : Z)
    (st : dstate) : flow :=
  if shortest_huffman_code_in_bits g <=? Z.of_nat (length (bitbuffer st)) then
    match fuel with
    | O => Stuck st
    | S fuel' =>
        match tail_body g dictionary_selector st with
        | Next st' => tail_loop fuel' g dictionary_selector st'
        | other => other
        end
    end
  else Return (write_position st) st.

(** [del bitbuffer[0:len(bitbuffer) - valid_bits_in_bitbuffer]] between
    the two loops. *)
Definition prune_bitbuffer (st : dstate) : dstate :=
  MkD (inp st) (outp st) (read_position st) (write_position st) (in_data st)
      (bits_del_prefix
         (Z.of_nat (length (bitbuffer st)) - valid_bits_in_bitbuffer st)
         (bitbuffer st))
      (valid_bits_in_bitbuffer st) (log st).

(** The main loop, the pruning, and the closing loop with the final
    [return]. *)
Definition decode_loops (fuel : nat) (g : huffman_globals)
    (dictionary_selector end_page_position : Z) (st : dstate) : flow :=
  match main_loop fuel g dictionary_selector end_page_position st with
  | Next st' => tail_loop fuel g dictionary_selector (prune_bitbuffer st')
  | other => other
  end.

(** The outcome of a call: the returned value (or exception), the final
    locals and streams, and the heap of LUT entries. *)
Record run : Type := MkRun {
  run_result : result Z;
  run_state : dstate;
  run_heap : gmap nat LUTentry
}.

Definition run_of_flow (fl : flow) (h : gmap nat LUTentry) : run :=
  match fl with
  | Next st => MkRun (Ok (write_position st)) st h
  | Return v st => MkRun (Ok v) st h
  | Throw e st => MkRun (Raise e) st h
  | Stuck st => MkRun OutOfFuel st h
  end.

(** [decode_page_from_input_file_i].  The LUT entry is passed by
    reference: [lut_entry_for_page] is its address in the heap [h], and
    the assignment to its [size] field updates the heap.  (An address
    that the heap does not bind has no counterpart in Python; the model
    answers with an exception.) *)
Definition decode_page_from_input_file_i (fuel : nat) (g : huffman_globals)
    (inp0 : file) (lut_entry_for_page : nat) (outp0 : out_file)
    (offset_into_output : Z) (use_relative_seek : bool)
    (h : gmap nat LUTentry) : run :=
  let st0 := MkD inp0 outp0 0 0 [] [] 0 [] in
  match h !! lut_entry_for_page with
  | None => MkRun (Raise ValueError) st0 h
  | Some e0 =>
      match out_seek offset_into_output outp0 with
      | (Ok _, outp1) =>
          let e1 :=
            if lut_size e0 =? 0 then set_lut_size HUFFMAN_PAGE_DECODED_SIZE_MAX e0
            else e0 in
          let h1 :=
            if lut_size e0 =? 0 then <[lut_entry_for_page := e1]> h else h in
          match (if use_relative_seek then file_seek_cur (lut_offset e1) inp0
                 else file_seek_set (lut_offset e1) inp0) with
          | (Ok _, inp1) =>
              let end_page_position := lut_offset e1 + lut_size e1 in
              let bytes_for_longest_code :=
                Z.quot (longest_huffman_code_in_bits g) 8
                + (if 0 <? longest_huffman_code_in_bits g mod 8 then 1 else 0) in
              let bytes_to_read_next :=
                Z.min bytes_for_longest_code (end_page_position - 0) in
              match file_read bytes_to_read_next inp1 with
              | (Ok data, inp2) =>
                  let st := MkD inp2 outp1 (0 + Z.of_nat (length data)) 0 data [] 0 [] in
                  run_of_flow
                    (decode_loops fuel g (lut_dictionary_selector e1)
                       end_page_position st) h1
              | (Raise e, inp2) =>
                  MkRun (Raise e) (MkD inp2 outp1 0 0 [] [] 0 []) h1
              | (OutOfFuel, inp2) =>
                  MkRun OutOfFuel (MkD inp2 outp1 0 0 [] [] 0 []) h1
              end
          | (Raise e, inp1) => MkRun (Raise e) (MkD inp1 outp1 0 0 [] [] 0 []) h1
          | (OutOfFuel, inp1) => MkRun OutOfFuel (MkD inp1 outp1 0 0 [] [] 0 []) h1
          end
      | (Raise e, outp1) => MkRun (Raise e) st0 h
      | (OutOfFuel, outp1) => MkRun OutOfFuel st0 h
      end
  end.

(** * Definitions used in the statements *)

(** The list of entries that appending the given (offset, selector)
    pairs one after the other produces: every entry but the last has had
    its size patched when its successor arrived. *)
Fixpoint lut_of (ps : list (Z * Z)) : list LUTentry :=
  match ps with
  | [] => []
  | (o, s) :: rest =>
      MkLUTentry o s (match rest with [] => 0 | (o', _) :: _ => o' - o end)
        :: lut_of rest
  end.

(** A 4-byte LUT word [r[0..3]]. *)
Definition word : Type := byte * byte * byte * byte.

Definition word_bytes (w : word) : list byte :=
  let '(r0, r1, r2, r3) := w in [r0; r1; r2; r3].

(** The rule as the specification words it: the top two bits of the
    selector byte choose the dictionary ([0b11] gives 1, [0b01] gives 0,
    anything else skips the word), and the 30-bit offset is assembled
    from the low six bits of the selector byte and the other three
    bytes. *)
Definition spec_lut_entry (reverse_byte_ordering : bool) (w : word)
  : option (Z * Z) :=
  let '(r0, r1, r2, r3) := w in
  let sel_byte := if reverse_byte_ordering then r3 else r0 in
  let top_two_bits := Z.shiftr (byte_val sel_byte) 6 in
  let offset :=
    if reverse_byte_ordering then
      Z.lor (Z.lor (Z.lor (Z.shiftl (Z.land (byte_val r3) 0x3F) 24)
                          (Z.shiftl (byte_val r2) 16))
                   (Z.shiftl (byte_val r1) 8))
            (byte_val r0)
    else
      Z.lor (Z.lor (Z.lor (Z.shiftl (Z.land (byte_val r0) 0x3F) 24)
                          (Z.shiftl (byte_val r1) 16))
                   (Z.shiftl (byte_val r2) 8))
            (byte_val r3) in
  if top_two_bits =? 3 then Some (offset, 1)
  else if top_two_bits =? 1 then Some (offset, 0)
  else None.

(** Every entry but the last has the distance to its successor as its
    size; the last one keeps the size 0 of the constructor. *)
Definition sizes_patched (lut : list LUTentry) : Prop :=
  (forall (i : nat) e e',
      lut !! i = Some e -> lut !! S i = Some e' ->
      lut_size e = lut_offset e' - lut_offset e) /\
  (forall e, last lut = Some e -> lut_size e = 0).

(** Each number is smaller than the one after it. *)
Definition strictly_ascending (l : list Z) : Prop :=
  forall (i : nat) a b, l !! i = Some a -> l !! S i = Some b -> a < b.

(** The line adds or overwrites exactly one entry of the table. *)
Definition adds_one_entry {pkg : bitstring_package}
    (line : string) (g : huffman_globals) : Prop :=
  exists k e g',
    process_huffman_table_file_line line g = (Ok tt, g') /\
    huffman_table g' = <[k := e]> (huffman_table g).

(** The line is skipped silently: normal return, globals untouched. *)
Definition skips {pkg : bitstring_package}
    (line : string) (g : huffman_globals) : Prop :=
  process_huffman_table_file_line line g = (Ok tt, g).

(** The [try] block raises: a token is missing or a number is
    malformed. *)
Definition fails_to_parse (line : string) (g : huffman_globals) : Prop :=
  exists e, parse_table_line (py_split line) g = Raise e.

(** The fields parse, but building the entry raises: the exception
    leaves the function, the table is unchanged. *)
Definition raises_building_entry {pkg : bitstring_package}
    (line : string) (g : huffman_globals) : Prop :=
  exists e g',
    process_huffman_table_file_line line g = (Raise e, g') /\
    huffman_table g' = huffman_table g /\
    ~ fails_to_parse line g.

(** The [try] block gets through, with these five fields. *)
Definition line_fields (line : string) (g : huffman_globals)
    (dict1 dict2 dlen rank : Z) (code : string) : Prop :=
  exists g1,
    parse_table_line (py_split line) g = Ok (dict1, dict2, dlen, rank, code, g1).

(** The globals once both counters have taken in [rank]. *)
Definition counters_updated (g : huffman_globals) (rank : Z) : huffman_globals :=
  MkGlobals (huffman_table g)
            (Z.max (longest_huffman_code_in_bits g) rank)
            (Z.min (shortest_huffman_code_in_bits g) rank).

(** [n] can be written in [len] bytes. *)
Definition fits_in_bytes (n len : Z) : Prop := 0 <= n < 256 ^ len.

(** [n] is in the range of a C [Py_ssize_t]. *)
Definition is_ssize_t (n : Z) : Prop := - sys_maxsize - 1 <= n <= sys_maxsize.

(** The ways the entry constructor raises [e]: a length outside the
    range of [Py_ssize_t]; a negative length; a dictionary value that is
    negative or too large for the length; a code string the package
    refuses. *)
Definition building_raises {pkg : bitstring_package}
    (dict1 dict2 dlen : Z) (code : string) (e : exn) : Prop :=
  (~ is_ssize_t dlen /\ e = OverflowError) \/
  (is_ssize_t dlen /\ dlen < 0 /\ e = ValueError) \/
  (is_ssize_t dlen /\ 0 <= dlen /\
   ~ (fits_in_bytes dict1 dlen /\ fits_in_bytes dict2 dlen) /\
   e = OverflowError) \/
  (is_ssize_t dlen /\ 0 <= dlen /\
   fits_in_bytes dict1 dlen /\ fits_in_bytes dict2 dlen /\
   ConstBitArray_bin code = Raise e).

(** The line stores the entry built from its five fields, under the bits
    of its code, and both counters take in the rank. *)
Definition stores_entry {pkg : bitstring_package} (line : string)
    (g : huffman_globals) (dict1 dict2 dlen rank : Z) (code : string) : Prop :=
  exists bits,
    ConstBitArray_bin code = Ok bits /\
    process_huffman_table_file_line line g
    = (Ok tt,
       MkGlobals
         (<[bits := MkHuffmanTableEntry
                      (be_bytes (Z.to_nat dlen) (Z.to_N dict1))
                      (be_bytes (Z.to_nat dlen) (Z.to_N dict2))
                      dlen rank code bits]> (huffman_table g))
         (Z.max (longest_huffman_code_in_bits g) rank)
         (Z.min (shortest_huffman_code_in_bits g) rank)).

(** What the claim says of every stored entry. *)
Definition entry_as_claimed (k : list bool) (e : HuffmanTableEntry) : Prop :=
  Z.of_nat (length k) = huffman_code_rank e /\
  Z.of_nat (length (dict1_value e)) = dictionary_data_length e /\
  Z.of_nat (length (dict2_value e)) = dictionary_data_length e.

(** What the constructor guarantees of every stored entry: the key is
    the bit array the package makes of the code string, and both
    dictionary values have the declared length. *)
Definition entry_as_built {pkg : bitstring_package}
    (k : list bool) (e : HuffmanTableEntry) : Prop :=
  k = huffman_code_bits e /\
  ConstBitArray_bin (huffman_code e) = Ok k /\
  Z.of_nat (length (dict1_value e)) = dictionary_data_length e /\
  Z.of_nat (length (dict2_value e)) = dictionary_data_length e.

Definition table_as_built {pkg : bitstring_package} (g : huffman_globals) : Prop :=
  forall k e, huffman_table g !! k = Some e -> entry_as_built k e.

(** Bytes handed to [outp.write] so far. *)
Definition written (st : dstate) : Z := Z.of_nat (length (o_written (outp st))).

(** Bits still to be consumed by the main loop: those in the buffer,
    those read but not yet appended, and those of the page not yet
    read. *)
Definition main_measure (end_page_position : Z) (st : dstate) : Z :=
  valid_bits_in_bitbuffer st
  + 8 * Z.of_nat (length (in_data st))
  + 8 * (end_page_position - read_position st).

(** Rounds the closing loop can still make. *)
Definition tail_measure (st : dstate) : Z :=
  match bitbuffer st with
  | [] => 0
  | _ :: _ => Z.max 0 (valid_bits_in_bitbuffer st) + 1
  end.

(** No code of any candidate length -- from the longest possible one
    down to the shortest of the table -- is a prefix of the bit
    buffer. *)
Definition no_code_matches (g : huffman_globals) (st : dstate) : Prop :=
  forall j,
    shortest_huffman_code_in_bits g <= j
    <= Z.min (longest_huffman_code_in_bits g) (valid_bits_in_bitbuffer st) ->
    huffman_table g !! bits_prefix j (bitbuffer st) = None.

Definition is_stuck (fl : flow) : bool :=
  match fl with Stuck _ => true | _ => false end.

Definition only_tail_cleared (l : list event) : Prop :=
  Forall (fun ev => ev = TailCleared) l.

(** Tables used in the examples below, loaded from text lines.  Their
    code strings are binary digits, so the tables are the same under every
    package. *)
Definition table_of_lines (lines : list string) : huffman_globals :=
  (read_ascii_huffman_table (pkg := digits_only) lines
     clear_huffman_table_data).2.

(** One 7-bit code [0000000] decoding to one byte. *)
Definition one_byte_table : huffman_globals :=
  table_of_lines ["01 0 02 0 1 7 0000000"].

(** One 7-bit code decoding to three bytes. *)
Definition three_byte_table : huffman_globals :=
  table_of_lines ["010203 0 040506 0 3 7 0000000"].

(** A 7-bit code [0000000] and a 9-bit code [111111111], one byte
    each. *)
Definition two_length_table : huffman_globals :=
  table_of_lines ["01 0 02 0 1 7 0000000"; "03 0 04 0 1 9 111111111"].

(** One 7-bit code decoding to 5000 bytes. *)
Definition long_entry_table : huffman_globals :=
  table_of_lines ["00 0 00 0 5000 7 0000000"].

(** [read_lut_file]: the file is opened, its length taken with a seek to
    the end, and the whole of it read as a LUT from position 0. *)
Definition read_lut_file (data : list byte) (reverse_byte_ordering : bool)
  : result (list LUTentry) * file :=
  read_lut (File data 0) (Z.of_nat (length data)) reverse_byte_ordering.

(** The top two bits of a selector byte are [0b01] or [0b11]. *)
Definition selector_valid (b : byte) : bool :=
  (Z.shiftr (byte_val b) 6 =? 3) || (Z.shiftr (byte_val b) 6 =? 1).

(** An (offset, selector) pair as [read_lut] can produce it. *)
Definition lut_pair_in_range (p : Z * Z) : Prop :=
  0 <= p.1 < 2 ^ 30 /\ (p.2 = 0 \/ p.2 = 1).

(** The number a byte string denotes when read most significant byte
    first, as [int.from_bytes(bs, "big")] reads it. *)
Definition be_value (bs : list byte) : Z :=
  fold_left (fun acc b => acc * 256 + byte_val b) bs 0.

(** The two code-length counters enclose the rank of every stored
    entry. *)
Definition ranks_within_counters (g : huffman_globals) : Prop :=
  forall k e,
    huffman_table g !! k = Some e ->
    shortest_huffman_code_in_bits g <= huffman_code_rank e
    <= longest_huffman_code_in_bits g.

(** From [g] to [g'] the counters only widen and no key is lost. *)
Definition table_grows (g g' : huffman_globals) : Prop :=
  longest_huffman_code_in_bits g <= longest_huffman_code_in_bits g' /\
  shortest_huffman_code_in_bits g' <= shortest_huffman_code_in_bits g /\
  forall k, is_Some (huffman_table g !! k) -> is_Some (huffman_table g' !! k).

(** The state a loop was left in, however it was left. *)
Definition flow_state (fl : flow) : dstate :=
  match fl with
  | Next st | Return _ st | Throw _ st | Stuck st => st
  end.

(** The dictionary value a page with the given selector emits for a
    table entry: [dict2_value] for selector 1, [dict1_value] for any
    other selector. *)
Definition selected_value (dictionary_selector : Z) (e : HuffmanTableEntry)
  : list byte :=
  if dictionary_selector =? 1 then dict2_value e else dict1_value e.

Definition emitted_by (g : huffman_globals) (dictionary_selector : Z)
    (v : list byte) : Prop :=
  exists k e, huffman_table g !! k = Some e /\
              v = selected_value dictionary_selector e.

(** No dictionary value of the table is longer than [L] bytes. *)
Definition values_within (g : huffman_globals) (L : Z) : Prop :=
  forall k e,
    huffman_table g !! k = Some e ->
    Z.of_nat (length (dict1_value e)) <= L /\
    Z.of_nat (length (dict2_value e)) <= L.

(** The page length the decoder works with: 4096 in place of the
    sentinel 0. *)
Definition effective_size (e : LUTentry) : Z :=
  if lut_size e =? 0 then HUFFMAN_PAGE_DECODED_SIZE_MAX else lut_size e.

(** Where the input seek of the decoder lands. *)
Definition page_start (use_relative_seek : bool) (inp0 : file) (e : LUTentry) : Z :=
  if use_relative_seek then f_pos inp0 + lut_offset e else lut_offset e.

(** Bytes of the initial read: enough for the longest code. *)
Definition bytes_for_longest_code (g : huffman_globals) : Z :=
  Z.quot (longest_huffman_code_in_bits g) 8
  + (if 0 <? longest_huffman_code_in_bits g mod 8 then 1 else 0).

(** Everything written since the call began is a run of dictionary
    values of the table, chosen by the selector, and the write position
    counts their bytes. *)
Definition page_output (g : huffman_globals) (dictionary_selector : Z)
    (written0 : list byte) (st : dstate) : Prop :=
  exists vs,
    Forall (emitted_by g dictionary_selector) vs /\
    o_written (outp st) = written0 ++ concat vs /\
    write_position st = Z.of_nat (length (concat vs)).

(** The input file holds the same bytes, and its position is the start
    of the page plus the read position, which stays within the page
    end. *)
Definition page_input (data0 : list byte) (start end_page_position : Z)
    (st : dstate) : Prop :=
  f_data (inp st) = data0 /\
  f_pos (inp st) = start + read_position st /\
  0 <= read_position st <= end_page_position.

(** * File tables and code partitions

    The functions of [fpt_and_cdt_utilities.py] that read the file
    partition table and the code partition directories from the opened
    input file. *)

(** ** Exceptions and results *)

(** What these functions raise: [struct.error] from
    [struct.unpack_from] on a buffer that is too short,
    [UnicodeDecodeError] from [bytes.decode], and whatever the file
    object raises. *)
Inductive util_exn : Type :=
| StructError
| UnicodeDecodeError
| StreamError (e : exn).

Inductive outcome (A : Type) : Type :=
| Done (a : A)
| Failed (e : util_exn)
| Exhausted.                      (* iteration budget used up *)

Arguments Done {A} a.
Arguments Failed {A} e.
Arguments Exhausted {A}.

(** A computation on the opened file. *)
Definition io (A : Type) : Type := file -> outcome A * file.

Definition io_ret {A : Type} (a : A) : io A := fun f => (Done a, f).

Definition io_bind {A B : Type} (m : io A) (k : A -> io B) : io B :=
  fun f =>
    match m f with
    | (Done a, f') => k a f'
    | (Failed e, f') => (Failed e, f')
    | (Exhausted, f') => (Exhausted, f')
    end.

(** A step that does not touch the file. *)
Definition io_pure {A : Type} (o : outcome A) : io A := fun f => (o, f).

(** A method of the file object. *)
Definition io_file {A : Type} (op : file -> result A * file) : io A :=
  fun f =>
    match op f with
    | (Ok a, f') => (Done a, f')
    | (Raise e, f') => (Failed (StreamError e), f')
    | (OutOfFuel, f') => (Exhausted, f')
    end.

Notation "'exec' x <- m ; k" := (io_bind m (fun x => k))
  (at level 10, x name, m at level 100, k at level 200).

(** ** [struct.unpack_from] *)

(** The [size] bytes a format of that size unpacks from [buffer] at
    [offset]; [struct.error] when the buffer does not hold them. *)
Definition unpack_from_bytes (size : nat) (buffer : list byte) (offset : nat)
  : outcome (list byte) :=
  if (offset + size <=? length buffer)%nat
  then Done (take size (drop offset buffer))
  else Failed StructError.

(** The number a byte string denotes when read least significant byte
    first. *)
Definition le_value (bs : list byte) : Z :=
  fold_right (fun b acc => byte_val b + 256 * acc) 0 bs.

(** [struct.unpack_from('<I', buffer, offset)[0]]. *)
Definition unpack_u32le (buffer : list byte) (offset : nat) : outcome Z :=
  match unpack_from_bytes 4 buffer offset with
  | Done bs => Done (le_value bs)
  | Failed e => Failed e
  | Exhausted => Exhausted
  end.

(** [struct.unpack_from('B', buffer, offset)[0]]. *)
Definition unpack_u8 (buffer : list byte) (offset : nat) : outcome Z :=
  match unpack_from_bytes 1 buffer offset with
  | Done bs => Done (le_value bs)
  | Failed e => Failed e
  | Exhausted => Exhausted
  end.

(** [struct.unpack_from(str(n) + 's', buffer, offset)]: a tuple of one
    byte string. *)
Definition unpack_from_s (n : nat) (buffer : list byte) (offset : nat)
  : outcome (list (list byte)) :=
  match unpack_from_bytes n buffer offset with
  | Done bs => Done [bs]
  | Failed e => Failed e
  | Exhausted => Exhausted
  end.

(** ** Python strings

    A [str] is a sequence of code points; each one is kept together with
    the bytes it was decoded from, which are its UTF-8 encoding. *)

Record uchar : Type := UChar { code_point : Z; utf8_bytes : list byte }.

Definition pystr : Type := list uchar.

Definition is_continuation (b : byte) : bool :=
  (0x80 <=? byte_val b) && (byte_val b <=? 0xBF).

Definition continuation_bits (b : byte) : Z := Z.land (byte_val b) 0x3F.

(** [bs.decode("UTF-8")] with the default strict error handling: [None]
    stands for [UnicodeDecodeError].  Lead bytes [C0], [C1] and [F5..FF],
    overlong forms, surrogates and code points above [10FFFF] are
    rejected, as is a sequence cut short. *)
Fixpoint utf8_decode (bs : list byte) : option pystr :=
  match bs with
  | [] => Some []
  | b0 :: r0 =>
      let v0 := byte_val b0 in
      if v0 <? 0x80 then
        option_map (cons (UChar v0 [b0])) (utf8_decode r0)
      else if (0xC2 <=? v0) && (v0 <=? 0xDF) then
        match r0 with
        | b1 :: r1 =>
            if is_continuation b1 then
              option_map
                (cons (UChar (Z.lor (Z.shiftl (Z.land v0 0x1F) 6)
                                    (continuation_bits b1))
                             [b0; b1]))
                (utf8_decode r1)
            else None
        | _ => None
        end
      else if (0xE0 <=? v0) && (v0 <=? 0xEF) then
        match r0 with
        | b1 :: b2 :: r2 =>
            if is_continuation b1 && is_continuation b2
               && (negb (v0 =? 0xE0) || (0xA0 <=? byte_val b1))
               && (negb (v0 =? 0xED) || (byte_val b1 <=? 0x9F)) then
              option_map
                (cons (UChar (Z.lor (Z.lor (Z.shiftl (Z.land v0 0x0F) 12)
                                           (Z.shiftl (continuation_bits b1) 6))
                                    (continuation_bits b2))
                             [b0; b1; b2]))
                (utf8_decode r2)
            else None
        | _ => None
        end
      else if (0xF0 <=? v0) && (v0 <=? 0xF4) then
        match r0 with
        | b1 :: b2 :: b3 :: r3 =>
            if is_continuation b1 && is_continuation b2 && is_continuation b3
               && (negb (v0 =? 0xF0) || (0x90 <=? byte_val b1))
               && (negb (v0 =? 0xF4) || (byte_val b1 <=? 0x8F)) then
              option_map
                (cons (UChar (Z.lor (Z.lor (Z.lor (Z.shiftl (Z.land v0 0x07) 18)
                                                  (Z.shiftl (continuation_bits b1) 12))
                                           (Z.shiftl (continuation_bits b2) 6))
                                    (continuation_bits b3))
                             [b0; b1; b2; b3]))
                (utf8_decode r3)
            else None
        | _ => None
        end
      else None
  end.

Definition code_points (s : pystr) : list Z := map code_point s.

(** The UTF-8 bytes of a [str], as a string of bytes. *)
Definition str_encode (s : pystr) : string :=
  string_of_list_byte (concat (map utf8_bytes s)).

(** [s == t] for a literal [t] given by its code points. *)
Fixpoint code_points_eqb (l1 l2 : list Z) : bool :=
  match l1, l2 with
  | [], [] => true
  | a :: l1', b :: l2' => (a =? b) && code_points_eqb l1' l2'
  | _, _ => false
  end.

(** The characters [str.isspace] accepts, which are those [str.strip()]
    removes. *)
Definition unicode_isspace (c : Z) : bool :=
  (0x09 <=? c) && (c <=? 0x0D) || (0x1C <=? c) && (c <=? 0x20)
  || (c =? 0x85) || (c =? 0xA0) || (c =? 0x1680)
  || (0x2000 <=? c) && (c <=? 0x200A)
  || (c =? 0x2028) || (c =? 0x2029) || (c =? 0x202F) || (c =? 0x205F)
  || (c =? 0x3000).

Fixpoint lstrip_chars (p : Z -> bool) (s : pystr) : pystr :=
  match s with
  | [] => []
  | c :: s' => if p (code_point c) then lstrip_chars p s' else s
  end.

Definition rstrip_chars (p : Z -> bool) (s : pystr) : pystr :=
  rev (lstrip_chars p (rev s)).

Definition strip_chars (p : Z -> bool) (s : pystr) : pystr :=
  rstrip_chars p (lstrip_chars p s).

(** [s.strip()] and [s.strip('\0')]. *)
Definition str_strip (s : pystr) : pystr := strip_chars unicode_isspace s.

Definition str_strip_nul (s : pystr) : pystr := strip_chars (Z.eqb 0) s.

(** ** [string_from_buffer] *)

Definition string_from_buffer (buffer : list byte) (string_size offset : nat)
  : outcome (option pystr) :=
  match unpack_from_s string_size buffer offset with
  | Done strbytes =>
      match strbytes with
      | [strbytes0] =>
          match utf8_decode strbytes0 with
          | Some s => Done (Some s)
          | None => Failed UnicodeDecodeError
          end
      | _ => Done None
      end
  | Failed e => Failed e
  | Exhausted => Exhausted
  end.

(** What both readers do with a name: [""] for [None], otherwise
    [name.strip()] followed by [name.strip('\0')]. *)
Definition cleaned_name (name : option pystr) : string :=
  match name with
  | None => EmptyString
  | Some s => str_encode (str_strip_nul (str_strip s))
  end.

(** ** [get_all_cdt] *)

(** ['$FPT'] *)
Definition FPT_marker : list Z := [0x24; 0x46; 0x50; 0x54].

Definition is_FPT_marker (header_check : option pystr) : bool :=
  match header_check with
  | Some s => code_points_eqb (code_points s) FPT_marker
  | None => false
  end.

(** [for entry_index in range(0, num_of_entries)], with
    [code_partitions] as built so far. *)
Fixpoint get_all_cdt_loop (num_of_entries : nat)
    (code_partitions : list CodePartitionDescriptor)
  : io (list CodePartitionDescriptor) :=
  match num_of_entries with
  | O => io_ret code_partitions
  | S rest =>
      exec fpte_buffer <- io_file (file_read 32);
      exec raw_u32 <- io_pure (unpack_u32le fpte_buffer 28);
      let ptype := Z.land raw_u32 0x7F in
      if negb (ptype =? 0) then get_all_cdt_loop rest code_partitions
      else
        let is_invalid := Z.land (Z.shiftr raw_u32 24) 0xFF in
        if is_invalid =? 0xFF then get_all_cdt_loop rest code_partitions
        else
          exec cdt_offset <- io_pure (unpack_u32le fpte_buffer 8);
          exec cdt_size <- io_pure (unpack_u32le fpte_buffer 12);
          exec cdt_name <- io_pure (string_from_buffer fpte_buffer 4 0);
          let cdt_name := cleaned_name cdt_name in
          get_all_cdt_loop rest
            (code_partitions
             ++ [MkCodePartitionDescriptor cdt_offset cdt_size cdt_name])
  end.

Definition get_all_cdt (offset_of_fpt : Z)
  : io (option (list CodePartitionDescriptor)) :=
  exec _ <- io_file (file_seek_set offset_of_fpt);
  exec fpt_buffer <- io_file (file_read 32);
  exec header_check <- io_pure (string_from_buffer fpt_buffer 4 0);
  if negb (is_FPT_marker header_check) then io_ret None
  else
    exec num_of_entries <- io_pure (unpack_u32le fpt_buffer 4);
    exec code_partitions <- get_all_cdt_loop (Z.to_nat num_of_entries) [];
    io_ret (if (length code_partitions =? 0)%nat then None
            else Some code_partitions).

(** ** [get_code_objects_in_code_partition] *)

Fixpoint get_code_objects_loop (num_code_objects : nat)
    (code_partition_desc : CodePartitionDescriptor)
    (code_objects : list CodeObjectEntry) : io (list CodeObjectEntry) :=
  match num_code_objects with
  | O => io_ret code_objects
  | S rest =>
      exec entry_bytes <- io_file (file_read 24);
      exec code_obj_name <- io_pure (string_from_buffer entry_bytes 12 0);
      let code_obj_name := cleaned_name code_obj_name in
      exec raw_u32 <- io_pure (unpack_u32le entry_bytes 12);
      let rel_offset_of_code_object := Z.land raw_u32 0x1FFFFFF in
      let is_huffman_compressed := negb (Z.land raw_u32 0x2000000 =? 0) in
      exec code_obj_size <- io_pure (unpack_u32le entry_bytes 16);
      get_code_objects_loop rest code_partition_desc
        (code_objects
         ++ [MkCodeObjectEntry code_partition_desc rel_offset_of_code_object
               code_obj_size code_obj_name is_huffman_compressed])
  end.

Definition get_code_objects_in_code_partition
    (code_partition_desc : CodePartitionDescriptor)
  : io (option (list CodeObjectEntry)) :=
  exec _ <- io_file (file_seek_set (offset_of_cdt_header code_partition_desc));
  exec cpd_header <- io_file (file_read 11);
  exec header_length <- io_pure (unpack_u8 cpd_header 10);
  exec rest_of_header <- io_file (file_read (header_length - 11));
  let cpd_header := cpd_header ++ rest_of_header in
  exec num_code_objects <- io_pure (unpack_u32le cpd_header 4);
  exec code_objects <-
    get_code_objects_loop (Z.to_nat num_code_objects) code_partition_desc [];
  io_ret (if (length code_objects =? 0)%nat then None else Some code_objects).

(** ** [get_huffman_compressed_code_objects_in_code_partition] *)

(** [while index < len(code_objects): ...], deleting in place the
    entries that are not Huffman compressed. *)
Fixpoint huffman_filter_loop (fuel : nat) (code_objects : list CodeObjectEntry)
    (index : nat) : outcome (list CodeObjectEntry) :=
  if (index <? length code_objects)%nat then
    match fuel with
    | O => Exhausted
    | S fuel' =>
        match code_objects !! index with
        | Some code_object =>
            if negb (is_huffman_compressed code_object)
            then huffman_filter_loop fuel' (delete index code_objects) index
            else huffman_filter_loop fuel' code_objects (S index)
        | None => Failed (StreamError IndexError)
        end
    end
  else Done code_objects.

Definition get_huffman_compressed_code_objects_in_code_partition (fuel : nat)
    (code_partition_desc : CodePartitionDescriptor)
  : io (option (list CodeObjectEntry)) :=
  exec code_objects <- get_code_objects_in_code_partition code_partition_desc;
  match code_objects with
  | None => io_ret None
  | Some code_objects =>
      exec code_objects <- io_pure (huffman_filter_loop fuel code_objects 0);
      io_ret (Some code_objects)
  end.

(** ** Definitions used in the statements on the file tables *)

(** Offset and size of a descriptor are unsigned 32-bit numbers. *)
Definition cdt_in_range (c : CodePartitionDescriptor) : Prop :=
  0 <= offset_of_cdt_header c < 2 ^ 32 /\ 0 <= cpd_size c < 2 ^ 32.

(** The bytes [f.read(n)] returns at position [pos] of a file holding
    [data], for a non-negative [n]. *)
Definition bytes_at (data : list byte) (pos : Z) (n : nat) : list byte :=
  take n (drop (Z.to_nat pos) data).

(** ['$FPT'] as bytes. *)
Definition FPT_marker_bytes : list byte := [x24; x46; x50; x54].

(** A character below 128 was decoded from the one byte of that
    value. *)
Definition one_byte_if_ascii (c : uchar) : Prop :=
  code_point c < 128 ->
  exists b, utf8_bytes c = [b] /\ byte_val b = code_point c.

(** A file table at offset 2 with two entries: the code partition
    [FTPR] at 4096 of 8192 bytes, and an entry of another type. *)
Definition fpt_image_example : list byte :=
  [x00; x00]
  ++ [x24; x46; x50; x54; x02; x00; x00; x00] ++ repeat x00 24
  ++ [x46; x54; x50; x52] ++ repeat x00 4 ++ [x00; x10; x00; x00]
     ++ [x00; x20; x00; x00] ++ repeat x00 12 ++ [x00; x00; x00; x00]
  ++ [x20; x41; x00; x00] ++ repeat x00 4 ++ [x01; x00; x00; x00]
     ++ [x02; x00; x00; x00] ++ repeat x00 12 ++ [x01; x00; x00; x00].

(** The [len] low-order base-256 digits of [n], least significant
    first. *)
Fixpoint le_bytes (len : nat) (n : N) : list byte :=
  match len with
  | O => []
  | S k => byte_of_N (n mod 256)%N :: le_bytes k (n / 256)%N
  end.

(** The four bytes [struct.pack('<I', n)] lays down. *)
Definition pack_u32le (n : Z) : list byte := le_bytes 4 (Z.to_N n).

Definition is_u32 (n : Z) : Prop := 0 <= n < 2 ^ 32.

(** An entry of the file partition table as the image lays it out in 32
    bytes: name (4 bytes), owner (4), offset and length (32 bits each,
    little endian), three reserved words, flags (32 bits). *)
Record fpt_entry : Type := MkFptEntry {
  fe_name : list byte;
  fe_owner : list byte;
  fe_offset : Z;
  fe_length : Z;
  fe_reserved : list byte;
  fe_flags : Z
}.

Definition fpt_entry_bytes (e : fpt_entry) : list byte :=
  fe_name e ++ fe_owner e ++ pack_u32le (fe_offset e)
  ++ pack_u32le (fe_length e) ++ fe_reserved e ++ pack_u32le (fe_flags e).

(** Type 0 in the low seven bits of the flags, and not [FF] in the top
    byte. *)
Definition is_code_partition_entry (e : fpt_entry) : bool :=
  (Z.land (fe_flags e) 0x7F =? 0)
  && negb (Z.land (Z.shiftr (fe_flags e) 24) 0xFF =? 0xFF).

Definition fpt_entry_wf (e : fpt_entry) : Prop :=
  length (fe_name e) = 4%nat /\ length (fe_owner e) = 4%nat /\
  length (fe_reserved e) = 12%nat /\
  is_u32 (fe_offset e) /\ is_u32 (fe_length e) /\ is_u32 (fe_flags e).

(** A file partition table: marker, number of entries, the remaining 24
    bytes of the header, and the entries. *)
Definition fpt_bytes (num_of_entries : Z) (header_rest : list byte)
    (entries : list fpt_entry) : list byte :=
  FPT_marker_bytes ++ pack_u32le num_of_entries ++ header_rest
  ++ concat (map fpt_entry_bytes entries).

Definition descriptor_of (e : fpt_entry) : CodePartitionDescriptor :=
  MkCodePartitionDescriptor (fe_offset e) (fe_length e)
    (cleaned_name (utf8_decode (fe_name e))).

Definition fpt_entries_example : list fpt_entry :=
  [MkFptEntry [x46; x54; x50; x52] (repeat x00 4) 4096 8192 (repeat x00 12) 0;
   MkFptEntry [x20; x41; x00; x00] (repeat x00 4) 1 2 (repeat x00 12) 1].

(** The same table with a name that is not valid UTF-8 in its first
    entry: [46 ff 50 52]. *)
Definition fpt_entries_bad_name : list fpt_entry :=
  [MkFptEntry [x46; xff; x50; x52] (repeat x00 4) 4096 8192 (repeat x00 12) 0;
   MkFptEntry [x20; x41; x00; x00] (repeat x00 4) 1 2 (repeat x00 12) 1].

Definition fpt_image_bad_name : list byte :=
  [x00; x00] ++ fpt_bytes 2 (repeat x00 24) fpt_entries_bad_name.

(** The partition, the 25-bit offset and the 32-bit size of a code
    object entry as the reader builds it. *)
Definition code_object_in_range (code_partition_desc : CodePartitionDescriptor)
    (c : CodeObjectEntry) : Prop :=
  in_partition c = code_partition_desc /\
  0 <= rel_offset_of_data_in_partition c < 2 ^ 25 /\
  is_u32 (coe_size c).

(** An entry of a code partition directory as the image lays it out in
    24 bytes: name (12 bytes), a packed word (offset in bits 0-24, the
    Huffman flag in bit 25, six reserved bits), the size (32 bits), and
    four more bytes. *)
Record cpd_entry : Type := MkCpdEntry {
  ce_name : list byte;
  ce_offset : Z;
  ce_huffman : bool;
  ce_reserved : Z;
  ce_size : Z;
  ce_tail : list byte
}.

Definition cpd_entry_word (e : cpd_entry) : Z :=
  ce_offset e + 2 ^ 25 * (if ce_huffman e then 1 else 0) + 2 ^ 26 * ce_reserved e.

Definition cpd_entry_bytes (e : cpd_entry) : list byte :=
  ce_name e ++ pack_u32le (cpd_entry_word e) ++ pack_u32le (ce_size e)
  ++ ce_tail e.

Definition cpd_entry_wf (e : cpd_entry) : Prop :=
  length (ce_name e) = 12%nat /\ length (ce_tail e) = 4%nat /\
  0 <= ce_offset e < 2 ^ 25 /\ 0 <= ce_reserved e < 2 ^ 6 /\
  is_u32 (ce_size e).

(** A code partition directory: four marker bytes, the number of
    entries, two version bytes, the header length in byte 10, the rest
    of the header, and the entries. *)
Definition cpd_bytes (marker : list byte) (num_code_objects : Z)
    (versions : list byte) (header_length : Z) (header_rest : list byte)
    (entries : list cpd_entry) : list byte :=
  marker ++ pack_u32le num_code_objects ++ versions
  ++ [byte_of_N (Z.to_N header_length)] ++ header_rest
  ++ concat (map cpd_entry_bytes entries).

Definition code_object_of (code_partition_desc : CodePartitionDescriptor)
    (e : cpd_entry) : CodeObjectEntry :=
  MkCodeObjectEntry code_partition_desc (ce_offset e) (ce_size e)
    (cleaned_name (utf8_decode (ce_name e))) (ce_huffman e).

(** A directory with a 16-byte header and two entries: [kernel],
    Huffman compressed, at offset 256 with size 8192; and [rbe], not
    compressed, at offset 512 with size 100. *)
Definition cpd_entries_example : list cpd_entry :=
  [MkCpdEntry ([x6b; x65; x72; x6e; x65; x6c] ++ repeat x00 6) 256 true 0 8192
     (repeat x00 4);
   MkCpdEntry ([x72; x62; x65] ++ repeat x00 9) 512 false 0 100 (repeat x00 4)].

Definition cpd_image_example : list byte :=
  [x00]
  ++ cpd_bytes [x24; x43; x50; x44] 2 [x01; x01] 16 (repeat x00 5)
       cpd_entries_example.

(** The same directory with a name that is not valid UTF-8 in its
    second entry: [72 c3 28]. *)
Definition cpd_entries_bad_name : list cpd_entry :=
  [MkCpdEntry ([x6b; x65; x72; x6e; x65; x6c] ++ repeat x00 6) 256 true 0 8192
     (repeat x00 4);
   MkCpdEntry ([x72; xc3; x28] ++ repeat x00 9) 512 false 0 100 (repeat x00 4)].

Definition cpd_image_bad_name : list byte :=
  [x00]
  ++ cpd_bytes [x24; x43; x50; x44] 2 [x01; x01] 16 (repeat x00 5)
       cpd_entries_bad_name.

Definition partition_example : CodePartitionDescriptor :=
  MkCodePartitionDescriptor 1 4096 "FTPR".

(** A name of printable ASCII characters. *)
Definition printable (s : list byte) : Prop :=
  Forall (fun b => 0x21 <= byte_val b <= 0x7E) s.

(** The character a byte below 128 decodes to. *)
Definition ascii_char (b : byte) : uchar := UChar (byte_val b) [b].

(** * The pages of one code object

    The loop of [main_run_for_packaged_compressed_file_input] that
    decodes the pages of a code object into one output stream:

    [[
    decode_result = 0
    for index, lut_entry in enumerate(code_object_lut):
        file_input.seek(code_object_position_start, os.SEEK_SET)
        decode_result = decode_page_from_input_file_i(
            file_input, lut_entry, outp, output_write_position)
        if decode_result < 0:
            break
        output_write_position += decode_result
    ]]

    The LUT is a list of entry objects, here their addresses in the
    heap. *)

Record pages_state : Type := MkPages {
  file_input : file;
  pages_outp : out_file;
  output_write_position : Z;
  decode_result : Z;
  pages_heap : gmap nat LUTentry
}.

Fixpoint decode_pages (fuel : nat) (g : huffman_globals)
    (code_object_lut : list nat) (code_object_position_start : Z)
    (s : pages_state) : result unit * pages_state :=
  match code_object_lut with
  | [] => (Ok tt, s)
  | lut_entry :: rest =>
      match file_seek_set code_object_position_start (file_input s) with
      | (Ok _, inp1) =>
          let r := decode_page_from_input_file_i fuel g inp1 lut_entry
                     (pages_outp s) (output_write_position s) true
                     (pages_heap s) in
          let inp2 := inp (run_state r) in
          let outp2 := outp (run_state r) in
          match run_result r with
          | Ok v =>
              if v <? 0 then
                (Ok tt, MkPages inp2 outp2 (output_write_position s) v (run_heap r))
              else
                decode_pages fuel g rest code_object_position_start
                  (MkPages inp2 outp2 (output_write_position s + v) v (run_heap r))
          | Raise e =>
              (Raise e,
               MkPages inp2 outp2 (output_write_position s) (decode_result s)
                       (run_heap r))
          | OutOfFuel =>
              (OutOfFuel,
               MkPages inp2 outp2 (output_write_position s) (decode_result s)
                       (run_heap r))
          end
      | (Raise e, inp1) =>
          (Raise e,
           MkPages inp1 (pages_outp s) (output_write_position s) (decode_result s)
                   (pages_heap s))
      | (OutOfFuel, inp1) =>
          (OutOfFuel,
           MkPages inp1 (pages_outp s) (output_write_position s) (decode_result s)
                   (pages_heap s))
      end
  end.

(** Bytes handed to the output stream of the page loop so far. *)
Definition pages_written (s : pages_state) : Z :=
  Z.of_nat (length (o_written (pages_outp s))).

(** Two LUT entries for pages that start one byte into the code object,
    in a file of four zero bytes and two [FF] bytes. *)
Definition pages_example : pages_state :=
  MkPages (File [x00; x00; x00; x00; xff; xff] 9) (OutFile 0 []) 0 0
    {[ 0%nat := MkLUTentry 1 0 1; 1%nat := MkLUTentry 1 1 4 ]}.

(** * Basic facts *)

Lemma byte_val_range b : 0 <= byte_val b < 256.
Proof.
  unfold byte_val. pose proof (Byte.to_N_bounded b) as H. lia.
Qed.

Example table_line_example {pkg : bitstring_package} :
  process_huffman_table_file_line "01 0 02 0 1 7 0000000" clear_huffman_table_data
  = (Ok tt,
     MkGlobals
       {[ [false;false;false;false;false;false;false] :=
            MkHuffmanTableEntry [x01] [x02] 1 7 "0000000"
              [false;false;false;false;false;false;false] ]}
       7 7).
Proof. vm_compute. reflexivity. Qed.

(** * Properties of the LUT reader *)

Module LutReader.

#[local] Arguments file_read_n : simpl never.
#[local] Arguments read_lut_word : simpl never.
#[local] Arguments lut_append : simpl never.

Lemma lut_of_length ps : length (lut_of ps) = length ps.
Proof. induction ps as [|[o s] rest IH]; simpl; auto. Qed.

(** Patching the last entry of [lut_of ps] and appending the new one
    gives [lut_of] of the extended list. *)
Lemma lut_of_snoc p ps o s :
  exists prev,
    lut_of (p :: ps) !! length ps = Some prev /\
    <[length ps := set_lut_size (o - lut_offset prev) prev]> (lut_of (p :: ps))
      ++ [LUTentry_init o s]
    = lut_of ((p :: ps) ++ [(o, s)]).
Proof.
  revert p. induction ps as [|q rest IH]; intros [o1 s1].
  - eexists. split; reflexivity.
  - destruct (IH q) as (prev & Hprev & Heq). destruct q as [o2 s2].
    exists prev. split; [exact Hprev|].
    cbn [lut_of app length] in *.
    rewrite <- Heq. reflexivity.
Qed.

Lemma lut_append_lut_of ps o s :
  lut_append (Z.of_nat (length ps)) (LUTentry_init o s) (lut_of ps)
  = Ok (lut_of (ps ++ [(o, s)])).
Proof.
  destruct ps as [|p rest]; [reflexivity|].
  unfold lut_append.
  replace (0 <? Z.of_nat (length (p :: rest))) with true
    by (symmetry; apply Z.ltb_lt; simpl; lia).
  replace (Z.to_nat (Z.of_nat (length (p :: rest)) - 1))
    with (length rest) by (simpl; lia).
  destruct (lut_of_snoc p rest o s) as (prev & -> & <-).
  reflexivity.
Qed.

(** Neither the word decoder nor the append can use up a budget. *)
Lemma read_lut_word_fuel rev rawdata : read_lut_word rev rawdata <> OutOfFuel.
Proof.
  unfold read_lut_word, getitem.
  repeat (match goal with
          | |- context [match ?l !! ?i with _ => _ end] => destruct (l !! i)
          | |- context [if ?b then _ else _] => destruct b
          end; simpl; try discriminate).
Qed.

Lemma lut_append_fuel i e lut : lut_append i e lut <> OutOfFuel.
Proof.
  unfold lut_append. destruct (0 <? i); [|discriminate].
  destruct (lut !! _); discriminate.
Qed.

(** [read_lut] never exhausts the budget it gives to its loop. *)
Lemma read_lut_loop_fuel fuel rev n pos idx lut f :
  n - pos <= Z.of_nat fuel ->
  (read_lut_loop fuel rev n pos idx lut f).1 <> OutOfFuel.
Proof.
  revert pos idx lut f.
  induction fuel as [|fuel IH]; intros pos idx lut f Hfuel; cbn [read_lut_loop].
  - destruct (pos <? n) eqn:Hlt; [apply Z.ltb_lt in Hlt; lia | discriminate].
  - destruct (pos <? n) eqn:Hlt; [|discriminate].
    destruct (file_read_n 4 f) as [rawdata f1].
    pose proof (read_lut_word_fuel rev rawdata) as Hw.
    destruct (read_lut_word rev rawdata) as [[[o s]|]|e|];
      [ | apply IH; lia | discriminate | congruence].
    pose proof (lut_append_fuel idx (LUTentry_init o s) lut) as Ha.
    destruct (lut_append idx (LUTentry_init o s) lut) as [lut'|e|];
      [apply IH; lia | discriminate | congruence].
Qed.

Lemma read_lut_fuel f n rev : (read_lut f n rev).1 <> OutOfFuel.
Proof. unfold read_lut. apply read_lut_loop_fuel. lia. Qed.

(** Whatever the input, a list returned by the loop is [lut_of] of the
    accepted (offset, selector) pairs. *)
Lemma read_lut_loop_lut_of fuel rev n : forall pos ps f lut f',
  read_lut_loop fuel rev n pos (Z.of_nat (length ps)) (lut_of ps) f = (Ok lut, f') ->
  exists ps', lut = lut_of (ps ++ ps').
Proof.
  induction fuel as [|fuel IH]; intros pos ps f lut f'; cbn [read_lut_loop].
  - destruct (pos <? n); [discriminate|].
    intros [= <- <-]. exists []. by rewrite app_nil_r.
  - destruct (pos <? n).
    2:{ intros [= <- <-]. exists []. by rewrite app_nil_r. }
    destruct (file_read_n 4 f) as [rawdata f1].
    destruct (read_lut_word rev rawdata) as [[[o s]|]|e|]; try discriminate.
    + rewrite lut_append_lut_of.
      replace (Z.of_nat (length ps) + 1) with (Z.of_nat (length (ps ++ [(o, s)])))
        by (rewrite length_app; simpl; lia).
      intros H. apply IH in H as [ps' ->].
      exists ((o, s) :: ps'). by rewrite <- app_assoc.
    + apply IH.
Qed.

Lemma read_lut_lut_of f n rev lut f' :
  read_lut f n rev = (Ok lut, f') -> exists ps, lut = lut_of ps.
Proof.
  unfold read_lut. intros H.
  apply (read_lut_loop_lut_of _ _ _ 0 []) in H as [ps ->]. by exists ps.
Qed.

(** *** The per-word rule *)

Lemma selector_mask_top_bits b :
  (Z.land (byte_val b) 0xC0 =? 0xC0) = (Z.shiftr (byte_val b) 6 =? 3) /\
  (Z.land (byte_val b) 0xC0 =? 0x40) = (Z.shiftr (byte_val b) 6 =? 1).
Proof. destruct b; split; reflexivity. Qed.

Lemma byte_val_land_ff b : Z.land (byte_val b) 0xFF = byte_val b.
Proof. destruct b; reflexivity. Qed.

Lemma byte_val_land_3f_ff b :
  Z.land (Z.land (byte_val b) 0x3F) 0xFF = Z.land (byte_val b) 0x3F.
Proof. destruct b; reflexivity. Qed.

Lemma read_lut_word_spec rev w :
  read_lut_word rev (word_bytes w) = Ok (spec_lut_entry rev w).
Proof.
  destruct w as [[[r0 r1] r2] r3].
  unfold read_lut_word, spec_lut_entry, word_bytes, getitem.
  destruct rev; cbn [lookup list_lookup bind];
    rewrite !byte_val_land_ff, byte_val_land_3f_ff;
    [destruct (selector_mask_top_bits r3) as [-> ->]
    |destruct (selector_mask_top_bits r0) as [-> ->]];
    match goal with
    | |- context [Z.shiftr ?x 6 =? 3] =>
        destruct (Z.shiftr x 6 =? 3); [reflexivity|];
        destruct (Z.shiftr x 6 =? 1); reflexivity
    end.
Qed.

Lemma file_read_n_app pre mid post :
  file_read_n (length mid) (File (pre ++ mid ++ post) (Z.of_nat (length pre)))
  = (mid, File (pre ++ mid ++ post)
               (Z.of_nat (length pre) + Z.of_nat (length mid))).
Proof.
  unfold file_read_n. cbn [f_pos f_data].
  rewrite Nat2Z.id, drop_app_length, take_app_length. reflexivity.
Qed.

Lemma read_lut_loop_exit fuel rev n pos idx lut f :
  (pos <? n) = false -> read_lut_loop fuel rev n pos idx lut f = (Ok lut, f).
Proof. intros H. destruct fuel; cbn [read_lut_loop]; rewrite H; reflexivity. Qed.

Lemma lut_of_keys ps :
  map (fun e => (lut_offset e, lut_dictionary_selector e)) (lut_of ps) = ps.
Proof. induction ps as [|[o s] rest IH]; [reflexivity|]. cbn. by rewrite IH. Qed.

Lemma lut_of_offsets ps : map lut_offset (lut_of ps) = map fst ps.
Proof. induction ps as [|[o s] rest IH]; [reflexivity|]. cbn. by rewrite IH. Qed.

(** Over a file that holds the words [ws] at the current position, the
    loop consumes all of them and returns [lut_of] of the accepted
    ones. *)
Lemma read_lut_loop_words rev post : forall ws fuel pre ps pos,
  (length ws <= fuel)%nat ->
  read_lut_loop fuel rev (pos + 4 * Z.of_nat (length ws)) pos
    (Z.of_nat (length ps)) (lut_of ps)
    (File (pre ++ flat_map word_bytes ws ++ post) (Z.of_nat (length pre)))
  = (Ok (lut_of (ps ++ omap (spec_lut_entry rev) ws)),
     File (pre ++ flat_map word_bytes ws ++ post)
          (Z.of_nat (length pre) + 4 * Z.of_nat (length ws))).
Proof.
  induction ws as [|w ws IH]; intros fuel pre ps pos Hfuel.
  - rewrite read_lut_loop_exit by (apply Z.ltb_ge; simpl; lia).
    cbn [omap list_omap length]. rewrite app_nil_r.
    repeat f_equal. simpl. lia.
  - destruct fuel as [|fuel]; [simpl in Hfuel; lia|].
    cbn [read_lut_loop].
    replace (pos <? pos + 4 * Z.of_nat (length (w :: ws))) with true
      by (symmetry; apply Z.ltb_lt; simpl; lia).
    cbn [flat_map]. rewrite <- (app_assoc (word_bytes w)).
    assert (Hlen : length (word_bytes w) = 4%nat)
      by (destruct w as [[[? ?] ?] ?]; reflexivity).
    rewrite <- Hlen at 1.
    rewrite file_read_n_app, read_lut_word_spec.
    rewrite (app_assoc pre).
    replace (Z.of_nat (length pre) + Z.of_nat (length (word_bytes w)))
      with (Z.of_nat (length (pre ++ word_bytes w)))
      by (rewrite length_app; lia).
    replace (pos + 4 * Z.of_nat (length (w :: ws)))
      with ((pos + 4) + 4 * Z.of_nat (length ws)) by (simpl; lia).
    cbn [omap list_omap].
    destruct (spec_lut_entry rev w) as [[o s]|].
    + rewrite lut_append_lut_of.
      replace (Z.of_nat (length ps) + 1) with (Z.of_nat (length (ps ++ [(o, s)])))
        by (rewrite length_app; simpl; lia).
      rewrite IH by (simpl in Hfuel; lia).
      rewrite <- (app_assoc ps). cbn [app].
      do 2 f_equal. rewrite length_app, Hlen. cbn [length]. lia.
    + rewrite IH by (simpl in Hfuel; lia).
      do 2 f_equal. rewrite length_app, Hlen. cbn [length]. lia.
Qed.

(** *** Sizes *)

Lemma lut_of_sizes ps : sizes_patched (lut_of ps).
Proof.
  induction ps as [|[o s] rest [IHi IHl]]; split.
  - intros i e e' H. destruct i; discriminate.
  - intros e H. discriminate.
  - intros [|i] e e' He He'.
    + cbn in He. injection He as <-. destruct rest as [|[o' s'] rest'].
      * discriminate.
      * cbn in He'. injection He' as <-. reflexivity.
    + exact (IHi i e e' He He').
  - intros e He. destruct rest as [|[o' s'] rest'].
    + cbn in He. injection He as <-. reflexivity.
    + apply IHl. exact He.
Qed.

(** *** Results *)

(** C4. For every 4-byte word that [read_lut] processes: top selector
    bits [0b11] give dictionary selector 1, [0b01] give 0, any other
    value produces no entry and reading goes on with the next word; an
    accepted word yields the offset assembled from the low six bits of
    the selector byte and the three other bytes, in the byte order the
    flag asks for.  Stated over a file that holds the words [ws] at the
    current position: the (offset, selector) pairs of the returned
    entries are exactly the rule's results on the accepted words, in
    order, and the file is left right after the last word. *)
Theorem read_lut_word_rule (rev : bool) (ws : list word) (pre post : list byte) :
  exists lut,
    read_lut (File (pre ++ flat_map word_bytes ws ++ post) (Z.of_nat (length pre)))
             (4 * Z.of_nat (length ws)) rev
    = (Ok lut,
       File (pre ++ flat_map word_bytes ws ++ post)
            (Z.of_nat (length pre) + 4 * Z.of_nat (length ws)))
    /\ map (fun e => (lut_offset e, lut_dictionary_selector e)) lut
       = omap (spec_lut_entry rev) ws.
Proof.
  exists (lut_of (omap (spec_lut_entry rev) ws)). split.
  - unfold read_lut.
    apply (read_lut_loop_words rev post ws
             (Z.to_nat (4 * Z.of_nat (length ws))) pre [] 0).
    lia.
  - apply lut_of_keys.
Qed.

(** C5. [read_lut] keeps the entries in the order of the words in the
    file and never compares offsets, although its docstring promises
    ascending offsets.  On the two words [40 00 00 05] and [40 00 00 03]
    it returns the offsets 5 and 3 (the first entry with the negative
    size -2): consecutive entries do not satisfy
    [next.offset > this.offset]. *)
Lemma read_lut_not_ascending :
  exists lut f',
    read_lut (File [x40; x00; x00; x05; x40; x00; x00; x03] 0) 8 false
    = (Ok lut, f') /\
    map lut_offset lut = [5; 3] /\
    ~ strictly_ascending (map lut_offset lut).
Proof.
  exists [MkLUTentry 5 0 (-2); MkLUTentry 3 0 0],
         (File [x40; x00; x00; x05; x40; x00; x00; x03] 8).
  split; [vm_compute; reflexivity|]. split; [reflexivity|].
  intros H. specialize (H 0%nat 5 3 eq_refl eq_refl). lia.
Qed.

(** What [read_lut] does guarantee about the order: the entries are
    listed in the order of their words in the input, their offsets being
    the offsets of the accepted words.  Consecutive entries therefore
    satisfy [next.offset > this.offset] exactly when the accepted words
    of the input carry ascending offsets; nothing is sorted or
    checked. *)
Theorem read_lut_file_order (rev : bool) (ws : list word) (pre post : list byte) :
  exists lut,
    read_lut (File (pre ++ flat_map word_bytes ws ++ post) (Z.of_nat (length pre)))
             (4 * Z.of_nat (length ws)) rev
    = (Ok lut,
       File (pre ++ flat_map word_bytes ws ++ post)
            (Z.of_nat (length pre) + 4 * Z.of_nat (length ws)))
    /\ map lut_offset lut = map fst (omap (spec_lut_entry rev) ws)
    /\ (strictly_ascending (map lut_offset lut) <->
        strictly_ascending (map fst (omap (spec_lut_entry rev) ws))).
Proof.
  exists (lut_of (omap (spec_lut_entry rev) ws)).
  assert (Ho : map lut_offset (lut_of (omap (spec_lut_entry rev) ws))
               = map fst (omap (spec_lut_entry rev) ws))
    by apply lut_of_offsets.
  split; [|split; [exact Ho|rewrite Ho; reflexivity]].
  unfold read_lut.
  apply (read_lut_loop_words rev post ws
           (Z.to_nat (4 * Z.of_nat (length ws))) pre [] 0).
  lia.
Qed.

(** C6. In every list that [read_lut] returns, each entry except the
    last has as size the offset of the next entry minus its own offset,
    and the last entry has size 0. *)
Theorem read_lut_sizes (f : file) (n : Z) (rev : bool)
    (lut : list LUTentry) (f' : file) :
  read_lut f n rev = (Ok lut, f') -> sizes_patched lut.
Proof.
  intros H. apply read_lut_lut_of in H as [ps ->]. apply lut_of_sizes.
Qed.

Lemma read_lut_sizes_witness :
  sizes_patched [MkLUTentry 5 0 4; MkLUTentry 9 1 16; MkLUTentry 25 0 0].
Proof.
  apply (read_lut_sizes
           (File [x40; x00; x00; x05; x00; x01; x02; x03;
                  xc0; x00; x00; x09; x40; x00; x00; x19] 0)
           16 false _
           (File [x40; x00; x00; x05; x00; x01; x02; x03;
                  xc0; x00; x00; x09; x40; x00; x00; x19] 16)).
  vm_compute. reflexivity.
Defined.

(** C10. For a code object whose [is_huffman_compressed] flag is false,
    [read_lut_of_code_object] returns [None] and the input file --
    contents and position -- is what it was: nothing was sought or
    read. *)
Theorem read_lut_of_code_object_not_huffman (f : file) (e : CodeObjectEntry) :
  is_huffman_compressed e = false ->
  read_lut_of_code_object f e = (Ok None, f).
Proof. intros H. unfold read_lut_of_code_object. rewrite H. reflexivity. Qed.

Lemma read_lut_of_code_object_not_huffman_witness :
  read_lut_of_code_object
    (File [x40; x00; x00; x05] 3)
    (MkCodeObjectEntry (MkCodePartitionDescriptor 0 4 "FTPR") 0 4096 "kernel" false)
  = (Ok None, File [x40; x00; x00; x05] 3).
Proof.
  apply (read_lut_of_code_object_not_huffman
           (File [x40; x00; x00; x05] 3)
           (MkCodeObjectEntry (MkCodePartitionDescriptor 0 4 "FTPR") 0 4096
              "kernel" false)).
  reflexivity.
Defined.

End LutReader.

(** * Properties of the Huffman table loader *)

Module TableLoader.

#[local] Arguments py_split : simpl never.
#[local] Arguments py_int : simpl never.
#[local] Arguments int_to_bytes_big : simpl never.

Ltac bind_cases :=
  repeat match goal with
         | |- context [bind ?r _] => destruct r eqn:?; cbn [bind]
         end.

Lemma be_bytes_length len n : length (be_bytes len n) = len.
Proof.
  revert n. induction len as [|len IH]; intros n; cbn [be_bytes]; [reflexivity|].
  rewrite length_app, IH. simpl. lia.
Qed.

Lemma int_to_bytes_big_length n len bs :
  int_to_bytes_big n len = Ok bs -> Z.of_nat (length bs) = len.
Proof.
  unfold int_to_bytes_big.
  destruct (_ || _); [discriminate|].
  destruct (len <? 0) eqn:Hlen; [discriminate|].
  destruct (n <? 0); [discriminate|].
  destruct (256 ^ len <=? n); [discriminate|].
  intros [= <-]. rewrite be_bytes_length. apply Z.ltb_ge in Hlen. lia.
Qed.

Lemma int_to_bytes_big_fuel n len : int_to_bytes_big n len <> OutOfFuel.
Proof.
  unfold int_to_bytes_big.
  repeat match goal with |- context [if ?b then _ else _] => destruct b end;
    discriminate.
Qed.

Lemma py_int_fuel s base : py_int s base <> OutOfFuel.
Proof.
  unfold py_int. destruct (strip_sign s) as [sign s1].
  destruct (if base =? 16 then strip_hex_prefix s1 else s1); [discriminate|].
  destruct (is_underscore _); [discriminate|].
  destruct (parse_digits _ _ _ _); discriminate.
Qed.

Lemma token_fuel tokens i : token tokens i <> OutOfFuel.
Proof. unfold token. destruct (tokens !! i); discriminate. Qed.

(** The [try] block changes the two counters only. *)
Lemma parse_table_line_table tokens g d1 d2 dlen rank code g1 :
  parse_table_line tokens g = Ok (d1, d2, dlen, rank, code, g1) ->
  huffman_table g1 = huffman_table g.
Proof.
  unfold parse_table_line. bind_cases; try discriminate.
  intros [= <- <- <- <- <- <-]. reflexivity.
Qed.

Lemma parse_table_line_fuel tokens g : parse_table_line tokens g <> OutOfFuel.
Proof.
  unfold parse_table_line.
  repeat match goal with
         | |- context [bind (token ?t ?i) _] =>
             pose proof (token_fuel t i);
             destruct (token t i); cbn [bind]; try congruence
         | |- context [bind (py_int ?s ?b) _] =>
             pose proof (py_int_fuel s b);
             destruct (py_int s b); cbn [bind]; try congruence
         end.
Qed.

Lemma parse_table_line_counters tokens g d1 d2 dlen rank code g1 :
  parse_table_line tokens g = Ok (d1, d2, dlen, rank, code, g1) ->
  longest_huffman_code_in_bits g1 = Z.max (longest_huffman_code_in_bits g) rank /\
  shortest_huffman_code_in_bits g1 = Z.min (shortest_huffman_code_in_bits g) rank /\
  huffman_table g1 = huffman_table g.
Proof.
  unfold parse_table_line. bind_cases; try discriminate.
  intros [= <- <- <- <- <- <-]. cbn.
  repeat split.
  - destruct (_ <? _) eqn:H; [apply Z.ltb_lt in H|apply Z.ltb_ge in H]; lia.
  - destruct (_ <? _) eqn:H; [apply Z.ltb_lt in H|apply Z.ltb_ge in H]; lia.
Qed.

Lemma ssize_t_test len :
  (len <? - sys_maxsize - 1) || (sys_maxsize <? len) = false <-> is_ssize_t len.
Proof.
  unfold is_ssize_t. rewrite orb_false_iff, Z.ltb_ge, Z.ltb_ge. tauto.
Qed.

Lemma int_to_bytes_big_ok n len bs :
  int_to_bytes_big n len = Ok bs <->
  is_ssize_t len /\ 0 <= len /\ fits_in_bytes n len /\
  bs = be_bytes (Z.to_nat len) (Z.to_N n).
Proof.
  unfold int_to_bytes_big, fits_in_bytes.
  pose proof (ssize_t_test len) as Hs.
  destruct (_ || _).
  { split; [discriminate|]. intros (Hr & _). apply Hs in Hr. discriminate. }
  assert (Hr : is_ssize_t len) by (by apply Hs). clear Hs.
  destruct (len <? 0) eqn:Hlen; [apply Z.ltb_lt in Hlen|apply Z.ltb_ge in Hlen].
  { split; [discriminate|lia]. }
  destruct (n <? 0) eqn:Hneg; [apply Z.ltb_lt in Hneg|apply Z.ltb_ge in Hneg].
  { split; [discriminate|lia]. }
  destruct (256 ^ len <=? n) eqn:Hbig; [apply Z.leb_le in Hbig|apply Z.leb_gt in Hbig].
  { split; [discriminate|lia]. }
  split.
  - intros [= <-]. auto.
  - intros (_ & _ & _ & ->). reflexivity.
Qed.

Lemma int_to_bytes_big_raises n len e :
  int_to_bytes_big n len = Raise e <->
  (~ is_ssize_t len /\ e = OverflowError) \/
  (is_ssize_t len /\ len < 0 /\ e = ValueError) \/
  (is_ssize_t len /\ 0 <= len /\ ~ fits_in_bytes n len /\ e = OverflowError).
Proof.
  unfold int_to_bytes_big, fits_in_bytes.
  pose proof (ssize_t_test len) as Hs.
  destruct (_ || _).
  { assert (Hr : ~ is_ssize_t len) by (intros Hr; apply Hs in Hr; discriminate).
    split; [intros [= <-]; left; auto|].
    intros [[_ ->]|[(? & _)|(? & _)]]; [reflexivity|tauto|tauto]. }
  assert (Hr : is_ssize_t len) by (by apply Hs). clear Hs.
  destruct (len <? 0) eqn:Hlen; [apply Z.ltb_lt in Hlen|apply Z.ltb_ge in Hlen].
  { split; [intros [= <-]; right; left; auto|].
    intros [[? _]|[(_ & _ & ->)|(_ & ? & _)]]; [tauto|reflexivity|lia]. }
  destruct (n <? 0) eqn:Hneg; [apply Z.ltb_lt in Hneg|apply Z.ltb_ge in Hneg].
  { split; [intros [= <-]; right; right;
            split; [exact Hr|]; split; [exact Hlen|]; split; [lia|reflexivity]|].
    intros [[? _]|[(_ & ? & _)|(_ & _ & _ & ->)]]; [tauto|lia|reflexivity]. }
  destruct (256 ^ len <=? n) eqn:Hbig; [apply Z.leb_le in Hbig|apply Z.leb_gt in Hbig].
  { split; [intros [= <-]; right; right;
            split; [exact Hr|]; split; [exact Hlen|]; split; [lia|reflexivity]|].
    intros [[? _]|[(_ & ? & _)|(_ & _ & _ & ->)]]; [tauto|lia|reflexivity]. }
  split; [discriminate|].
  intros [[? _]|[(_ & ? & _)|(_ & _ & Hn & _)]]; [tauto|lia|]. exfalso. apply Hn. lia.
Qed.

Lemma binary_digits_length code : forall bits,
  binary_digits code = Some bits -> length bits = String.length code.
Proof.
  induction code as [|c code IH]; intros bits; cbn [binary_digits].
  - intros [= <-]. reflexivity.
  - destruct (nat_of_ascii c =? 48)%nat; [|destruct (nat_of_ascii c =? 49)%nat];
      [| |discriminate];
      destruct (binary_digits code) as [bs|]; cbn; try discriminate;
      intros [= <-]; cbn; f_equal; by apply IH.
Qed.

(** ** Whatever the package does with other strings *)

Section AnyPackage.

Context {pkg : bitstring_package}.

(** Binary digits never reach the parameter. *)
Lemma ConstBitArray_bin_binary code bits :
  code <> EmptyString -> binary_digits code = Some bits ->
  ConstBitArray_bin code = Ok bits.
Proof.
  intros Hne Hb. unfold ConstBitArray_bin.
  destruct code; [congruence|]. rewrite Hb. reflexivity.
Qed.

Lemma ConstBitArray_bin_fuel code : ConstBitArray_bin code <> OutOfFuel.
Proof.
  unfold ConstBitArray_bin.
  destruct code; [|destruct (binary_digits _)]; try discriminate;
    destruct (other_initialiser _); discriminate.
Qed.

Lemma HuffmanTableEntry_init_ok d1 d2 dlen rank code e :
  HuffmanTableEntry_init d1 d2 dlen rank code = Ok e <->
  exists bits,
    is_ssize_t dlen /\ 0 <= dlen /\
    fits_in_bytes d1 dlen /\ fits_in_bytes d2 dlen /\
    ConstBitArray_bin code = Ok bits /\
    e = MkHuffmanTableEntry (be_bytes (Z.to_nat dlen) (Z.to_N d1))
          (be_bytes (Z.to_nat dlen) (Z.to_N d2)) dlen rank code bits.
Proof.
  unfold HuffmanTableEntry_init. split.
  - destruct (int_to_bytes_big d1 dlen) as [b1| |] eqn:H1; cbn [bind]; try discriminate.
    destruct (int_to_bytes_big d2 dlen) as [b2| |] eqn:H2; cbn [bind]; try discriminate.
    destruct (ConstBitArray_bin code) as [bits| |] eqn:H3; cbn [bind]; try discriminate.
    intros [= <-]. exists bits.
    apply int_to_bytes_big_ok in H1 as (Hr & Hl & Hf1 & ->).
    apply int_to_bytes_big_ok in H2 as (_ & _ & Hf2 & ->). auto 6.
  - intros (bits & Hr & Hl & Hf1 & Hf2 & Hb & ->).
    rewrite (proj2 (int_to_bytes_big_ok d1 dlen _)) by auto. cbn [bind].
    rewrite (proj2 (int_to_bytes_big_ok d2 dlen _)) by auto. cbn [bind].
    rewrite Hb. reflexivity.
Qed.

Lemma HuffmanTableEntry_init_raises d1 d2 dlen rank code e :
  HuffmanTableEntry_init d1 d2 dlen rank code = Raise e <->
  building_raises d1 d2 dlen code e.
Proof.
  unfold HuffmanTableEntry_init, building_raises.
  pose proof (int_to_bytes_big_fuel d1 dlen) as F1.
  pose proof (int_to_bytes_big_fuel d2 dlen) as F2.
  destruct (int_to_bytes_big d1 dlen) as [b1|e1|] eqn:H1; cbn [bind]; [| |congruence].
  - apply int_to_bytes_big_ok in H1 as (Hr & Hl & Hf1 & _).
    destruct (int_to_bytes_big d2 dlen) as [b2|e2|] eqn:H2; cbn [bind]; [| |congruence].
    + apply int_to_bytes_big_ok in H2 as (_ & _ & Hf2 & _).
      destruct (ConstBitArray_bin code) as [bits|e3|]; cbn [bind].
      * split; [discriminate|].
        intros [[? _]|[(_ & ? & _)|[(_ & _ & Hn & _)|(_ & _ & _ & _ & ?)]]];
          [tauto|lia|tauto|discriminate].
      * split; [intros [= <-]; right; right; right; auto 6|].
        intros [[? _]|[(_ & ? & _)|[(_ & _ & Hn & _)|(_ & _ & _ & _ & ?)]]];
          [tauto|lia|tauto|congruence].
      * split; [discriminate|].
        intros [[? _]|[(_ & ? & _)|[(_ & _ & Hn & _)|(_ & _ & _ & _ & ?)]]];
          [tauto|lia|tauto|discriminate].
    + apply int_to_bytes_big_raises in H2
        as [[? _]|[(_ & ? & _)|(_ & _ & Hn2 & ->)]]; [tauto|lia|].
      split; [intros [= <-]; right; right; left; tauto|].
      intros [[? _]|[(_ & ? & _)|[(_ & _ & _ & ->)|(_ & _ & _ & ? & _)]]];
        [tauto|lia|reflexivity|tauto].
  - apply int_to_bytes_big_raises in H1
      as [[Hr ->]|[(Hr & Hl & ->)|(Hr & Hl & Hn1 & ->)]].
    + split; [intros [= <-]; left; auto|].
      intros [[_ ->]|[(? & _)|[(? & _)|(? & _)]]]; [reflexivity|tauto..].
    + split; [intros [= <-]; right; left; auto|].
      intros [[? _]|[(_ & _ & ->)|[(_ & ? & _)|(_ & ? & _)]]];
        [tauto|reflexivity|lia|lia].
    + split; [intros [= <-]; right; right; left; tauto|].
      intros [[? _]|[(_ & ? & _)|[(_ & _ & _ & ->)|(_ & _ & ? & _)]]];
        [tauto|lia|reflexivity|tauto].
Qed.

Lemma HuffmanTableEntry_init_built d1 d2 dlen rank code e :
  HuffmanTableEntry_init d1 d2 dlen rank code = Ok e ->
  entry_as_built (huffman_code_bits e) e /\
  huffman_code_rank e = rank /\ huffman_code e = code /\
  dictionary_data_length e = dlen.
Proof.
  intros (bits & _ & Hl & Hf1 & Hf2 & Hb & ->)%HuffmanTableEntry_init_ok.
  unfold entry_as_built; cbn. rewrite !be_bytes_length.
  repeat split; auto; lia.
Qed.

Lemma HuffmanTableEntry_init_fuel d1 d2 dlen rank code :
  HuffmanTableEntry_init d1 d2 dlen rank code <> OutOfFuel.
Proof.
  unfold HuffmanTableEntry_init.
  pose proof (int_to_bytes_big_fuel d1 dlen).
  pose proof (int_to_bytes_big_fuel d2 dlen).
  pose proof (ConstBitArray_bin_fuel code).
  destruct (int_to_bytes_big d1 dlen); cbn [bind]; try congruence.
  destruct (int_to_bytes_big d2 dlen); cbn [bind]; try congruence.
  destruct (ConstBitArray_bin code); cbn [bind]; congruence.
Qed.

Lemma process_line_cases line g :
  (exists d1 d2 dlen rank code g1 te,
      parse_table_line (py_split line) g = Ok (d1, d2, dlen, rank, code, g1) /\
      HuffmanTableEntry_init d1 d2 dlen rank code = Ok te /\
      process_huffman_table_file_line line g
      = (Ok tt, MkGlobals (<[huffman_code_bits te := te]> (huffman_table g))
                          (longest_huffman_code_in_bits g1)
                          (shortest_huffman_code_in_bits g1))) \/
  (exists d1 d2 dlen rank code g1 e,
      parse_table_line (py_split line) g = Ok (d1, d2, dlen, rank, code, g1) /\
      HuffmanTableEntry_init d1 d2 dlen rank code = Raise e /\
      process_huffman_table_file_line line g = (Raise e, g1)) \/
  ((exists e, parse_table_line (py_split line) g = Raise e) /\
   process_huffman_table_file_line line g = (Ok tt, g)).
Proof.
  unfold process_huffman_table_file_line.
  pose proof (parse_table_line_fuel (py_split line) g) as Hp.
  destruct (parse_table_line (py_split line) g)
    as [[[[[[d1 d2] dlen] rank] code] g1]|e|] eqn:Hparse; [| |congruence].
  - pose proof (HuffmanTableEntry_init_fuel d1 d2 dlen rank code) as Hi.
    pose proof (parse_table_line_table _ _ _ _ _ _ _ _ Hparse) as Ht.
    destruct (HuffmanTableEntry_init d1 d2 dlen rank code) as [te|e|] eqn:Hinit;
      [| |congruence].
    + left. exists d1, d2, dlen, rank, code, g1, te. rewrite Ht. auto.
    + right; left. exists d1, d2, dlen, rank, code, g1, e. auto.
  - right; right. eauto.
Qed.

(** Loading keeps every stored entry as the constructor built it. *)
Lemma process_line_as_built line g :
  table_as_built g -> table_as_built (process_huffman_table_file_line line g).2.
Proof.
  intros Hg.
  destruct (process_line_cases line g)
    as [(d1 & d2 & dlen & rank & code & g1 & te & Hp & Hi & ->)
       |[(d1 & d2 & dlen & rank & code & g1 & e & Hp & _ & ->)
        |[_ ->]]]; cbn [snd].
  - intros k e. cbn [huffman_table]. rewrite lookup_insert.
    destruct (decide (huffman_code_bits te = k)) as [<-|Hne].
    + intros [= <-]. by apply HuffmanTableEntry_init_built in Hi as [? _].
    + apply Hg.
  - intros k e'. rewrite (parse_table_line_table _ _ _ _ _ _ _ _ Hp). apply Hg.
  - exact Hg.
Qed.

Lemma read_ascii_huffman_table_as_built lines : forall g,
  table_as_built g -> table_as_built (read_ascii_huffman_table lines g).2.
Proof.
  induction lines as [|line rest IH]; intros g Hg; cbn [read_ascii_huffman_table].
  - exact Hg.
  - pose proof (process_line_as_built line g Hg) as H1.
    destruct (process_huffman_table_file_line line g) as [[[]|e|] g1];
      cbn [snd] in *; auto.
Qed.

(** A line that gets through the [try] block goes the way of the
    constructor. *)
Lemma process_line_parsed line g d1 d2 dlen rank code :
  line_fields line g d1 d2 dlen rank code ->
  process_huffman_table_file_line line g
  = match HuffmanTableEntry_init d1 d2 dlen rank code with
    | Ok te =>
        (Ok tt,
         MkGlobals (<[huffman_code_bits te := te]> (huffman_table g))
                   (Z.max (longest_huffman_code_in_bits g) rank)
                   (Z.min (shortest_huffman_code_in_bits g) rank))
    | Raise e => (Raise e, counters_updated g rank)
    | OutOfFuel => (OutOfFuel, counters_updated g rank)
    end.
Proof.
  intros [g1 Hp]. unfold process_huffman_table_file_line. rewrite Hp.
  apply parse_table_line_counters in Hp as (Hl & Hs & Ht).
  unfold counters_updated.
  destruct g1 as [t1 l1 s1]; cbn in Hl, Hs, Ht; subst.
  destruct (HuffmanTableEntry_init d1 d2 dlen rank code); reflexivity.
Qed.

End AnyPackage.

(** The example tables do not depend on the package. *)
Lemma example_tables_any_package {pkg : bitstring_package} :
  (read_ascii_huffman_table ["01 0 02 0 1 7 0000000"] clear_huffman_table_data).2
  = one_byte_table /\
  (read_ascii_huffman_table ["010203 0 040506 0 3 7 0000000"]
     clear_huffman_table_data).2
  = three_byte_table /\
  (read_ascii_huffman_table ["01 0 02 0 1 7 0000000"; "03 0 04 0 1 9 111111111"]
     clear_huffman_table_data).2
  = two_length_table /\
  (read_ascii_huffman_table ["00 0 00 0 5000 7 0000000"]
     clear_huffman_table_data).2
  = long_entry_table.
Proof. repeat split; vm_compute; reflexivity. Qed.

(** With a package that reads [0b0000000,] as seven bits the line is
    stored; with one that takes digits only the same line raises. *)
Example line_with_closing_comma :
  process_huffman_table_file_line (pkg := closing_comma)
    "01 0 02 0 1 7 0000000," clear_huffman_table_data
  = (Ok tt,
     MkGlobals
       {[ [false;false;false;false;false;false;false] :=
            MkHuffmanTableEntry [x01] [x02] 1 7 "0000000,"
              [false;false;false;false;false;false;false] ]}
       7 7) /\
  process_huffman_table_file_line (pkg := digits_only)
    "01 0 02 0 1 7 0000000," clear_huffman_table_data
  = (Raise CreationError, MkGlobals ∅ 7 7).
Proof. split; vm_compute; reflexivity. Qed.

(** *** Results *)

(** The line [100 0 02 0 1 7 0000000] raises under every package: the
    exception comes from [to_bytes], before the package is called. *)
Lemma overflow_line_any_package {pkg : bitstring_package} :
  process_huffman_table_file_line
    "100 0 02 0 1 7 0000000" clear_huffman_table_data
  = (Raise OverflowError, MkGlobals ∅ 7 7).
Proof. vm_compute. reflexivity. Qed.

(** C7, as stated, fails: the line [100 0 02 0 1 7 0000000] parses, but
    its first dictionary value does not fit in one byte, so the entry
    constructor -- which runs after the [try] statement -- raises
    [OverflowError] before the package is called; the line is neither
    added nor skipped, and the code-length counters have already moved
    from (0, maxsize) to (7, 7). *)
Lemma process_line_raises :
  process_huffman_table_file_line (pkg := digits_only)
    "100 0 02 0 1 7 0000000" clear_huffman_table_data
  = (Raise OverflowError, MkGlobals ∅ 7 7) /\
  ~ (adds_one_entry (pkg := digits_only)
       "100 0 02 0 1 7 0000000" clear_huffman_table_data \/
     skips (pkg := digits_only)
       "100 0 02 0 1 7 0000000" clear_huffman_table_data).
Proof.
  assert (H : process_huffman_table_file_line (pkg := digits_only)
                "100 0 02 0 1 7 0000000" clear_huffman_table_data
              = (Raise OverflowError, MkGlobals ∅ 7 7))
    by (vm_compute; reflexivity).
  split; [exact H|].
  unfold adds_one_entry, skips. rewrite H.
  intros [(k & e & g' & Hk & _)|Hs]; discriminate.
Qed.

(** C7, amended. For every input line, [process_huffman_table_file_line]
    goes one of three ways: it adds or overwrites exactly one codebook
    entry, or silently skips the line, or raises.

    - A line that fails to parse (the [try] block raises: a token is
      missing or a number is malformed) is skipped: no error, and the
      table and both code-length counters are unchanged.
    - Every other line gives five fields.  The call raises [e] exactly
      when the entry constructor does, that is when the length is outside
      the range of [Py_ssize_t] ([OverflowError]) or negative
      ([ValueError]), or else a dictionary value is negative or does not
      fit in [length] bytes ([OverflowError]), or else the package
      refuses the code string; the table is then unchanged and the
      counters have already taken in the depth.
    - When none of these holds the line stores the entry built from its
      fields under the bit array of its code, and the counters take in the
      depth.
    - The package never refuses a non-empty string of binary digits; what
      it makes of any other code string is left open. *)
Theorem process_line_outcomes {pkg : bitstring_package}
    (line : string) (g : huffman_globals) :
  (adds_one_entry line g \/ skips line g \/ raises_building_entry line g) /\
  (fails_to_parse line g \/
   exists dict1 dict2 dlen rank code, line_fields line g dict1 dict2 dlen rank code) /\
  (fails_to_parse line g -> skips line g) /\
  (forall e g',
      process_huffman_table_file_line line g = (Raise e, g') <->
      exists dict1 dict2 dlen rank code,
        line_fields line g dict1 dict2 dlen rank code /\
        building_raises dict1 dict2 dlen code e /\
        g' = counters_updated g rank) /\
  (forall dict1 dict2 dlen rank code,
      line_fields line g dict1 dict2 dlen rank code ->
      (forall e, ~ building_raises dict1 dict2 dlen code e) ->
      stores_entry line g dict1 dict2 dlen rank code) /\
  (forall code bits,
      code <> EmptyString -> binary_digits code = Some bits ->
      ConstBitArray_bin code = Ok bits).
Proof.
  split; [|split; [|split; [|split; [|split]]]].
  - unfold adds_one_entry, skips, raises_building_entry, fails_to_parse.
    destruct (process_line_cases line g)
      as [(d1 & d2 & dlen & rank & code & g1 & te & Hp & Hi & Hr)
         |[(d1 & d2 & dlen & rank & code & g1 & e & Hp & _ & Hr)
          |[[e Hp] Hr]]]; rewrite Hr, Hp.
    + left. eexists _, _, _. split; reflexivity.
    + right; right. exists e, g1. split; [reflexivity|].
      split; [exact (parse_table_line_table _ _ _ _ _ _ _ _ Hp)|].
      intros [e' He]; discriminate.
    + right; left. reflexivity.
  - unfold fails_to_parse, line_fields.
    pose proof (parse_table_line_fuel (py_split line) g) as Hf.
    destruct (parse_table_line (py_split line) g)
      as [[[[[[d1 d2] dlen] rank] code] g1]|e|]; [| |congruence].
    + right. exists d1, d2, dlen, rank, code, g1. reflexivity.
    + left. exists e. reflexivity.
  - unfold skips, fails_to_parse, process_huffman_table_file_line.
    intros [e ->]. reflexivity.
  - intros e g'. split.
    + intros Hr.
      destruct (process_line_cases line g)
        as [(d1 & d2 & dlen & rank & code & g1 & te & Hp & Hi & Hr')
           |[(d1 & d2 & dlen & rank & code & g1 & e' & Hp & Hi & Hr')
            |[_ Hr']]]; rewrite Hr' in Hr; try discriminate.
      injection Hr as -> ->.
      assert (Hf : line_fields line g d1 d2 dlen rank code) by (exists g'; exact Hp).
      exists d1, d2, dlen, rank, code.
      split; [exact Hf|]. split; [exact (proj1 (HuffmanTableEntry_init_raises _ _ _ _ _ _) Hi)|].
      pose proof (process_line_parsed line g _ _ _ _ _ Hf) as Hq.
      rewrite Hi, Hr' in Hq. congruence.
    + intros (d1 & d2 & dlen & rank & code & Hf & Hb & ->).
      rewrite (process_line_parsed line g _ _ _ _ _ Hf).
      apply (proj2 (HuffmanTableEntry_init_raises d1 d2 dlen rank code e)) in Hb.
      rewrite Hb. reflexivity.
  - intros d1 d2 dlen rank code Hf Hnone. unfold stores_entry.
    rewrite (process_line_parsed line g _ _ _ _ _ Hf).
    pose proof (HuffmanTableEntry_init_fuel d1 d2 dlen rank code) as Hfuel.
    destruct (HuffmanTableEntry_init d1 d2 dlen rank code) as [te|e|] eqn:Hi;
      [| |congruence].
    + apply HuffmanTableEntry_init_ok in Hi as (bits & _ & _ & _ & _ & Hb & ->).
      exists bits. split; [exact Hb|reflexivity].
    + apply HuffmanTableEntry_init_raises in Hi. destruct (Hnone e Hi).
  - intros code bits. apply ConstBitArray_bin_binary.
Qed.

Lemma process_line_outcomes_witness :
  skips (pkg := digits_only) "# Huffman table v12" (MkGlobals ∅ 17 7) /\
  stores_entry (pkg := closing_comma) "01 0 02 0 1 7 0000000,"
    clear_huffman_table_data 1 2 1 7 "0000000,".
Proof.
  split.
  - apply (proj1 (proj2 (proj2 (process_line_outcomes (pkg := digits_only)
                                  "# Huffman table v12" (MkGlobals ∅ 17 7))))).
    exists ValueError. vm_compute. reflexivity.
  - apply (proj1 (proj2 (proj2 (proj2 (proj2
             (process_line_outcomes (pkg := closing_comma)
                "01 0 02 0 1 7 0000000," clear_huffman_table_data)))))).
    + eexists. vm_compute. reflexivity.
    + intros e [[Hr _]|[(_ & Hl & _)|[(_ & _ & Hn & _)|(_ & _ & _ & _ & Hb)]]].
      * apply Hr. unfold is_ssize_t, sys_maxsize. simpl. lia.
      * lia.
      * apply Hn. unfold fits_in_bytes. simpl. lia.
      * vm_compute in Hb. discriminate.
Defined.

(** C8. Nothing compares the depth column with the code string,
    although the class documents the rank as the length in bits of the
    code.  After loading the single line [01 0 02 0 1 9 0000000] the
    table holds an entry under a 7-bit key whose rank field is 9: the
    bit length of the key is not the depth. *)
Lemma loaded_rank_mismatch {pkg : bitstring_package} :
  exists g k e,
    read_ascii_huffman_table ["01 0 02 0 1 9 0000000"] clear_huffman_table_data
    = (Ok tt, g) /\
    huffman_table g !! k = Some e /\
    ~ entry_as_claimed k e.
Proof.
  eexists _, [false; false; false; false; false; false; false], _.
  split; [vm_compute; reflexivity|].
  split; [vm_compute; reflexivity|].
  intros [H _]. vm_compute in H. discriminate.
Qed.

(** What loading does guarantee of every stored entry: the lengths of
    its two dictionary values are equal to each other and to its
    decoded-length field, and its key is the bit array the package makes
    of its code string.  For a code string of binary digits that is one
    bit per character; the key length then equals the depth field exactly
    when the line gave a depth equal to the length of its code string. *)
Theorem loaded_table_entries {pkg : bitstring_package} (lines : list string)
    (k : list bool) (e : HuffmanTableEntry) :
  huffman_table (read_ascii_huffman_table lines clear_huffman_table_data).2 !! k
  = Some e ->
  Z.of_nat (length (dict1_value e)) = dictionary_data_length e /\
  Z.of_nat (length (dict2_value e)) = dictionary_data_length e /\
  ConstBitArray_bin (huffman_code e) = Ok k /\
  (forall bits,
      huffman_code e <> EmptyString ->
      binary_digits (huffman_code e) = Some bits ->
      k = bits /\
      length k = String.length (huffman_code e) /\
      (Z.of_nat (length k) = huffman_code_rank e <->
       huffman_code_rank e = Z.of_nat (String.length (huffman_code e)))).
Proof.
  intros H.
  assert (Hb : table_as_built
                 (read_ascii_huffman_table lines clear_huffman_table_data).2).
  { apply read_ascii_huffman_table_as_built. intros k' e' Hk.
    cbn in Hk. by rewrite lookup_empty in Hk. }
  destruct (Hb k e H) as (_ & Hk & H1 & H2).
  split; [exact H1|]. split; [exact H2|]. split; [exact Hk|].
  intros bits Hne Hbits.
  rewrite (ConstBitArray_bin_binary _ _ Hne Hbits) in Hk. injection Hk as <-.
  pose proof (binary_digits_length _ _ Hbits) as Hlen.
  split; [reflexivity|]. split; [exact Hlen|]. rewrite Hlen. split; auto.
Qed.

Lemma loaded_table_entries_witness :
  Z.of_nat (length [x01]) = 1 /\
  Z.of_nat (length [x02]) = 1 /\
  ConstBitArray_bin (pkg := digits_only) "0000000"
  = Ok [false; false; false; false; false; false; false].
Proof.
  destruct (loaded_table_entries (pkg := digits_only)
           ["# dict1 ref1 dict2 ref2 length depth code"; "01 0 02 0 1 7 0000000"]
           [false; false; false; false; false; false; false]
           (MkHuffmanTableEntry [x01] [x02] 1 7 "0000000"
              [false; false; false; false; false; false; false]))
    as (H1 & H2 & H3 & _); [vm_compute; reflexivity|].
  exact (conj H1 (conj H2 H3)).
Defined.

End TableLoader.

(** * Properties of the page decoder *)

Module PageDecoder.

#[local] Arguments file_read : simpl never.
#[local] Arguments match_code : simpl never.
#[local] Arguments bits_del_prefix : simpl never.
#[local] Arguments bits_of_bytes : simpl never.
#[local] Arguments out_write : simpl never.

(** ** The matching loop *)

Lemma match_loop_found table bb : forall count k last n e,
  match_loop table bb k count last = (n, Some e) ->
  k - Z.of_nat count < n <= k /\ table !! bits_prefix n bb = Some e.
Proof.
  induction count as [|count IH]; intros k last n e; cbn [match_loop].
  - discriminate.
  - destruct (table !! bits_prefix k bb) as [found|] eqn:Hk.
    + intros [= <- <-]. split; [lia|exact Hk].
    + intros H. apply IH in H as [Hn He]. split; [lia|exact He].
Qed.

Lemma match_loop_miss table bb : forall count k last n,
  match_loop table bb k count last = (n, None) ->
  forall j, k - Z.of_nat count < j <= k -> table !! bits_prefix j bb = None.
Proof.
  induction count as [|count IH]; intros k last n; cbn [match_loop].
  - intros _ j Hj. lia.
  - destruct (table !! bits_prefix k bb) as [found|] eqn:Hk; [discriminate|].
    intros H j Hj. destruct (decide (j = k)) as [->|Hne]; [exact Hk|].
    apply (IH _ _ _ H). lia.
Qed.

(** A hit has a length within the candidate range. *)
Lemma match_code_found g bb lcp n e :
  match_code g bb lcp = (n, Some e) ->
  shortest_huffman_code_in_bits g <= n <= lcp /\
  huffman_table g !! bits_prefix n bb = Some e.
Proof.
  unfold match_code. intros H. apply match_loop_found in H as [Hn He].
  split; [lia|exact He].
Qed.

(** A miss is a miss for every candidate length of the range. *)
Lemma match_code_miss g bb lcp n :
  match_code g bb lcp = (n, None) ->
  forall j, shortest_huffman_code_in_bits g <= j <= lcp ->
            huffman_table g !! bits_prefix j bb = None.
Proof.
  unfold match_code. intros H j Hj. apply (match_loop_miss _ _ _ _ _ _ H). lia.
Qed.

(** ** Reads *)

Lemma file_read_n_length n f :
  (length (file_read_n n f).1 <= n)%nat.
Proof. unfold file_read_n. cbn [fst]. rewrite length_take. lia. Qed.

Lemma file_read_cases n f :
  (n < -1 /\ file_read n f = (Raise ValueError, f)) \/
  (-1 <= n /\ exists data f', file_read n f = (Ok data, f') /\
              (0 <= n -> Z.of_nat (length data) <= n)).
Proof.
  unfold file_read.
  destruct (n <? -1) eqn:H1; [left; split; [lia|reflexivity]|].
  right. split; [lia|].
  destruct (n =? -1) eqn:H2.
  - destruct (file_read_n _ f) as [got f']. exists got, f'. split; [reflexivity|lia].
  - pose proof (file_read_n_length (Z.to_nat n) f) as Hl.
    destruct (file_read_n _ f) as [got f']. exists got, f'.
    split; [reflexivity|]. cbn [fst] in Hl. lia.
Qed.

(** ** One round of the main loop *)

Lemma main_body_next g sel endp st st' :
  1 <= shortest_huffman_code_in_bits g ->
  main_body g sel endp st = Next st' ->
  0 <= valid_bits_in_bitbuffer st' /\
  main_measure endp st' <= main_measure endp st - 1 /\
  log st' = log st /\
  written st' - write_position st' = written st - write_position st /\
  write_position st <= write_position st'.
Proof.
  intros Hs. unfold main_body, main_measure, written.
  destruct (if (0 <? length (in_data st))%nat then _ else _) as [bb in_data1].
  destruct (match_code _ _ _) as [n [found|]] eqn:Hm; [|discriminate].
  apply match_code_found in Hm as [Hn _].
  destruct (HUFFMAN_PAGE_DECODED_SIZE_MAX <=? _); [discriminate|].
  destruct (_ <? longest_huffman_code_in_bits g).
  - destruct (file_read_cases
                (Z.min (Z.quot (bitbuffer_topoff_level g) 8
                        + (if 0 <? bitbuffer_topoff_level g mod 8 then 1 else 0))
                       (endp - read_position st)) (inp st))
      as [[_ ->]|[_ (data & f' & -> & _)]]; [discriminate|].
    intros [= <-]. cbn. unfold out_write. cbn. rewrite length_app.
    repeat split; (reflexivity || lia).
  - intros [= <-]. cbn. unfold out_write. cbn. rewrite length_app.
    repeat split; (reflexivity || lia).
Qed.

Lemma main_body_next_frame g sel endp st st' :
  main_body g sel endp st = Next st' ->
  log st' = log st /\
  written st' - write_position st' = written st - write_position st /\
  write_position st <= write_position st'.
Proof.
  unfold main_body, written.
  destruct (if (0 <? length (in_data st))%nat then _ else _) as [bb in_data1].
  destruct (match_code _ _ _) as [n [found|]]; [|discriminate].
  destruct (HUFFMAN_PAGE_DECODED_SIZE_MAX <=? _); [discriminate|].
  destruct (_ <? longest_huffman_code_in_bits g).
  - destruct (file_read _ _) as [[data| |] f']; try discriminate.
    intros [= <-]. cbn. unfold out_write. cbn. rewrite length_app.
    repeat split; (reflexivity || lia).
  - intros [= <-]. cbn. unfold out_write. cbn. rewrite length_app.
    repeat split; (reflexivity || lia).
Qed.

Lemma main_body_return g sel endp st v st' :
  main_body g sel endp st = Return v st' ->
  (v = -1 /\ log st' = log st ++ [NoMatchingCode] /\
   read_position st' = read_position st /\ no_code_matches g st') \/
  (v = write_position st' /\ HUFFMAN_PAGE_DECODED_SIZE_MAX <= v /\
   log st' = log st /\
   written st' - write_position st' = written st - write_position st /\
   write_position st <= write_position st').
Proof.
  unfold main_body, written.
  destruct (if (0 <? length (in_data st))%nat then _ else _) as [bb in_data1].
  destruct (match_code _ _ _) as [n [found|]] eqn:Hm.
  - destruct (HUFFMAN_PAGE_DECODED_SIZE_MAX <=? _) eqn:Hcap.
    + intros [= <- <-]. right. cbn. unfold out_write. cbn. rewrite length_app.
      apply Z.leb_le in Hcap. repeat split; (reflexivity || lia).
    + destruct (_ <? longest_huffman_code_in_bits g); [|discriminate].
      destruct (file_read _ _) as [[data| |] f']; discriminate.
  - intros [= <- <-]. left. cbn. repeat split.
    exact (match_code_miss _ _ _ _ Hm).
Qed.

Lemma main_body_not_stuck g sel endp st st' :
  main_body g sel endp st <> Stuck st'.
Proof.
  unfold main_body.
  destruct (if (0 <? length (in_data st))%nat then _ else _) as [bb in_data1].
  destruct (match_code _ _ _) as [n [found|]]; [|discriminate].
  destruct (HUFFMAN_PAGE_DECODED_SIZE_MAX <=? _); [discriminate|].
  destruct (_ <? longest_huffman_code_in_bits g); [|discriminate].
  destruct (file_read_cases
              (Z.min (Z.quot (bitbuffer_topoff_level g) 8
                      + (if 0 <? bitbuffer_topoff_level g mod 8 then 1 else 0))
                     (endp - read_position st)) (inp st))
    as [[_ ->]|[_ (data & f' & -> & _)]]; discriminate.
Qed.

(** With a non-negative longest code length, the refill never asks for
    a negative number of bytes. *)
Lemma main_body_no_throw g sel endp st e st' :
  0 <= longest_huffman_code_in_bits g ->
  read_position st < endp ->
  main_body g sel endp st <> Throw e st'.
Proof.
  intros Hl Hrp. unfold main_body.
  destruct (if (0 <? length (in_data st))%nat then _ else _) as [bb in_data1].
  destruct (match_code _ _ _) as [n [found|]]; [|discriminate].
  destruct (HUFFMAN_PAGE_DECODED_SIZE_MAX <=? _); [discriminate|].
  destruct (_ <? longest_huffman_code_in_bits g); [|discriminate].
  assert (Hq : 0 <= Z.quot (bitbuffer_topoff_level g) 8).
  { apply Z.quot_pos; unfold bitbuffer_topoff_level; lia. }
  destruct (file_read_cases
              (Z.min (Z.quot (bitbuffer_topoff_level g) 8
                      + (if 0 <? bitbuffer_topoff_level g mod 8 then 1 else 0))
                     (endp - read_position st)) (inp st))
    as [[Hn _]|[_ (data & f' & -> & _)]]; [|discriminate].
  destruct (0 <? bitbuffer_topoff_level g mod 8); lia.
Qed.

(** ** One round of the closing loop *)

Lemma tail_body_cases g sel st :
  (exists st', tail_body g sel st = Next st' /\
     bitbuffer st' = [] /\ valid_bits_in_bitbuffer st' = 0 /\
     log st' = log st ++ [TailCleared] /\
     outp st' = outp st /\ write_position st' = write_position st) \/
  (exists n st', tail_body g sel st = Next st' /\
     shortest_huffman_code_in_bits g <= n <= valid_bits_in_bitbuffer st /\
     valid_bits_in_bitbuffer st' = valid_bits_in_bitbuffer st - n /\
     log st' = log st /\
     written st' - write_position st' = written st - write_position st /\
     write_position st <= write_position st') \/
  (exists st', tail_body g sel st = Return (write_position st') st' /\
     HUFFMAN_PAGE_DECODED_SIZE_MAX <= write_position st' /\
     log st' = log st /\
     written st' - write_position st' = written st - write_position st /\
     write_position st <= write_position st').
Proof.
  unfold tail_body, written.
  destruct (match_code _ _ _) as [n [found|]] eqn:Hm.
  - apply match_code_found in Hm as [Hn _].
    destruct (HUFFMAN_PAGE_DECODED_SIZE_MAX <=? _) eqn:Hcap.
    + right; right. eexists (MkD _ _ _ _ _ _ _ _). split; [reflexivity|].
      apply Z.leb_le in Hcap. cbn. unfold out_write. cbn. rewrite length_app.
      repeat split; (reflexivity || lia).
    + right; left. eexists n, _. split; [reflexivity|].
      cbn. unfold out_write. cbn. rewrite length_app.
      repeat split; (reflexivity || lia).
  - left. eexists. split; [reflexivity|]. cbn. auto.
Qed.

(** ** The loops *)

(** What the main loop can produce from a state with an empty log:
    it falls through with the log still empty, or returns -1 right after
    logging the miss, or returns the non-negative write position. *)
Lemma main_loop_outcome g sel endp : forall fuel st,
  log st = [] -> 0 <= write_position st ->
  match main_loop fuel g sel endp st with
  | Next st' =>
      log st' = [] /\ 0 <= write_position st' /\
      written st' - write_position st' = written st - write_position st
  | Return v st' =>
      (v = -1 /\ log st' = [NoMatchingCode] /\
       read_position st' < endp /\ no_code_matches g st') \/
      (0 <= v /\ log st' = [] /\
       v = written st' - (written st - write_position st))
  | _ => True
  end.
Proof.
  induction fuel as [|fuel IH]; intros st Hlog Hwp; cbn [main_loop].
  - destruct (read_position st <? endp); auto.
  - destruct (read_position st <? endp) eqn:Hrp; [|auto].
    apply Z.ltb_lt in Hrp.
    destruct (main_body g sel endp st) as [st'|v st'|e st'|st'] eqn:Hb; [| |exact I|exact I].
    + apply main_body_next_frame in Hb as (Hl & Hw & Hm).
      specialize (IH st' ltac:(congruence) ltac:(lia)).
      destruct (main_loop fuel g sel endp st') as [st2|v st2|e st2|st2]; auto.
      * destruct IH as (? & ? & ?). repeat split; auto; lia.
      * destruct IH as [?|(? & ? & ?)]; [left; auto|right].
        repeat split; auto; lia.
    + apply main_body_return in Hb
        as [(-> & Hl & Hr & Hno)|(-> & Hcap & Hl & Hw & Hm)].
      * left. rewrite Hl, Hlog, Hr. auto.
      * right. unfold HUFFMAN_PAGE_DECODED_SIZE_MAX in Hcap.
        repeat split; [lia|congruence|lia].
Qed.

(** The closing loop only ever returns, and what it returns is the
    write position, never negative. *)
Lemma tail_loop_outcome g sel : forall fuel st,
  only_tail_cleared (log st) -> 0 <= write_position st ->
  match tail_loop fuel g sel st with
  | Return v st' =>
      0 <= v /\ only_tail_cleared (log st') /\
      v = written st' - (written st - write_position st)
  | Stuck _ => True
  | _ => False
  end.
Proof.
  induction fuel as [|fuel IH]; intros st Hlog Hwp; cbn [tail_loop].
  - destruct (_ <=? _); [exact I|]. repeat split; auto; lia.
  - destruct (_ <=? _); [|repeat split; auto; lia].
    destruct (tail_body_cases g sel st)
      as [(st' & -> & _ & _ & Hl & Ho & Hw)
         |[(n & st' & -> & _ & _ & Hl & Hw & Hm)
          |(st' & -> & Hcap & Hl & Hw & Hm)]].
    + specialize (IH st').
      assert (Hlog' : only_tail_cleared (log st')).
      { rewrite Hl. apply Forall_app. split; [exact Hlog|]. by constructor. }
      specialize (IH Hlog' ltac:(lia)).
      destruct (tail_loop fuel g sel st') as [st2|v st2|e st2|st2]; auto.
      destruct IH as (? & ? & ->). repeat split; auto.
      unfold written. rewrite Ho, Hw. reflexivity.
    + specialize (IH st' ltac:(congruence) ltac:(lia)).
      destruct (tail_loop fuel g sel st') as [st2|v st2|e st2|st2]; auto.
      destruct IH as (? & ? & ->). repeat split; auto. lia.
    + unfold HUFFMAN_PAGE_DECODED_SIZE_MAX in Hcap.
      repeat split; [lia|congruence|lia].
Qed.

(** *** Termination *)

Lemma main_loop_fuel g sel endp :
  1 <= shortest_huffman_code_in_bits g ->
  forall fuel st,
    0 <= valid_bits_in_bitbuffer st ->
    main_measure endp st < Z.of_nat fuel ->
    is_stuck (main_loop fuel g sel endp st) = false.
Proof.
  intros Hs. induction fuel as [|fuel IH]; intros st Hv Hm; cbn [main_loop].
  - destruct (read_position st <? endp) eqn:Hrp; [|reflexivity].
    apply Z.ltb_lt in Hrp. unfold main_measure in Hm. lia.
  - destruct (read_position st <? endp); [|reflexivity].
    destruct (main_body g sel endp st) as [st'|v st'|e st'|st'] eqn:Hb;
      try reflexivity.
    + apply (main_body_next _ _ _ _ _ Hs) in Hb as (Hv' & Hm' & _).
      apply IH; lia.
    + by apply main_body_not_stuck in Hb.
Qed.

Lemma tail_loop_fuel g sel :
  1 <= shortest_huffman_code_in_bits g ->
  forall fuel st,
    tail_measure st < Z.of_nat fuel ->
    is_stuck (tail_loop fuel g sel st) = false.
Proof.
  intros Hs. induction fuel as [|fuel IH]; intros st Hm; cbn [tail_loop].
  - unfold tail_measure in Hm. destruct (bitbuffer st); lia.
  - destruct (_ <=? _) eqn:Hc; [|reflexivity].
    apply Z.leb_le in Hc.
    assert (Hst : tail_measure st = Z.max 0 (valid_bits_in_bitbuffer st) + 1).
    { unfold tail_measure. destruct (bitbuffer st); [simpl in Hc; lia|reflexivity]. }
    destruct (tail_body_cases g sel st)
      as [(st' & -> & Hbb & _)
         |[(n & st' & -> & Hn & Hv & _)
          |(st' & -> & _)]]; [| |reflexivity].
    + apply IH. unfold tail_measure. rewrite Hbb. lia.
    + apply IH. unfold tail_measure. destruct (bitbuffer st'); lia.
Qed.

(** A loop that finished within a budget finishes the same way within
    any larger one. *)
Lemma main_loop_mono g sel endp : forall fuel fuel' st,
  (fuel <= fuel')%nat ->
  is_stuck (main_loop fuel g sel endp st) = false ->
  main_loop fuel' g sel endp st = main_loop fuel g sel endp st.
Proof.
  induction fuel as [|fuel IH]; intros fuel' st Hle; cbn [main_loop].
  - destruct (read_position st <? endp) eqn:Hrp; [discriminate|].
    intros _. destruct fuel'; cbn [main_loop]; rewrite Hrp; reflexivity.
  - destruct fuel' as [|fuel']; [lia|]. cbn [main_loop].
    destruct (read_position st <? endp); [|reflexivity].
    destruct (main_body g sel endp st); try reflexivity.
    apply IH. lia.
Qed.

Lemma tail_loop_mono g sel : forall fuel fuel' st,
  (fuel <= fuel')%nat ->
  is_stuck (tail_loop fuel g sel st) = false ->
  tail_loop fuel' g sel st = tail_loop fuel g sel st.
Proof.
  induction fuel as [|fuel IH]; intros fuel' st Hle; cbn [tail_loop].
  - destruct (_ <=? _) eqn:Hc; [discriminate|].
    intros _. destruct fuel'; cbn [tail_loop]; rewrite Hc; reflexivity.
  - destruct fuel' as [|fuel']; [lia|]. cbn [tail_loop].
    destruct (_ <=? _); [|reflexivity].
    destruct (tail_body g sel st); try reflexivity.
    apply IH. lia.
Qed.

Lemma main_loop_no_throw g sel endp :
  0 <= longest_huffman_code_in_bits g ->
  forall fuel st e st', main_loop fuel g sel endp st <> Throw e st'.
Proof.
  intros Hl. induction fuel as [|fuel IH]; intros st e st'; cbn [main_loop].
  - destruct (read_position st <? endp); discriminate.
  - destruct (read_position st <? endp) eqn:Hrp; [|discriminate].
    apply Z.ltb_lt in Hrp.
    destruct (main_body g sel endp st) as [st1|v st1|e1 st1|st1] eqn:Hb;
      try discriminate.
    + apply IH.
    + by apply main_body_no_throw in Hb.
Qed.

(** The two loops together: every budget-independent outcome, and a
    budget that suffices. *)
Lemma decode_loops_outcome g sel endp fuel st :
  log st = [] -> 0 <= write_position st ->
  match decode_loops fuel g sel endp st with
  | Return v st' =>
      (v = -1 /\ log st' = [NoMatchingCode] /\
       read_position st' < endp /\ no_code_matches g st') \/
      (0 <= v /\ only_tail_cleared (log st') /\
       v = written st' - (written st - write_position st))
  | Next _ => False
  | _ => True
  end.
Proof.
  intros Hlog Hwp. unfold decode_loops.
  pose proof (main_loop_outcome g sel endp fuel st Hlog Hwp) as Hm.
  destruct (main_loop fuel g sel endp st) as [st1|v st1|e st1|st1]; auto.
  - destruct Hm as (Hl1 & Hw1 & Hc1).
    pose proof (tail_loop_outcome g sel fuel (prune_bitbuffer st1)) as Ht.
    cbn [prune_bitbuffer log write_position] in Ht.
    specialize (Ht ltac:(rewrite Hl1; constructor) Hw1).
    destruct (tail_loop fuel g sel (prune_bitbuffer st1)) as [st2|v st2|e st2|st2];
      auto.
    destruct Ht as (? & ? & ->). right. repeat split; auto.
    unfold written in *. cbn [prune_bitbuffer outp] in *. lia.
  - destruct Hm as [?|(? & Hl & ?)]; [left; auto|right].
    repeat split; auto. rewrite Hl. constructor.
Qed.

Lemma decode_loops_no_throw g sel endp fuel st e st' :
  0 <= longest_huffman_code_in_bits g ->
  log st = [] -> 0 <= write_position st ->
  decode_loops fuel g sel endp st <> Throw e st'.
Proof.
  intros Hl Hlog Hwp. unfold decode_loops.
  pose proof (main_loop_outcome g sel endp fuel st Hlog Hwp) as Hm.
  pose proof (main_loop_no_throw g sel endp Hl fuel st) as Hnt.
  destruct (main_loop fuel g sel endp st) as [st1|v st1|e1 st1|st1];
    try discriminate; [|apply Hnt].
  destruct Hm as (Hl1 & Hw1 & _).
  pose proof (tail_loop_outcome g sel fuel (prune_bitbuffer st1)) as Ht.
  cbn [prune_bitbuffer log write_position] in Ht.
  specialize (Ht ltac:(rewrite Hl1; constructor) Hw1).
  destruct (tail_loop fuel g sel (prune_bitbuffer st1)); try discriminate.
  contradiction.
Qed.

Lemma decode_loops_terminate g sel endp st :
  1 <= shortest_huffman_code_in_bits g ->
  0 <= valid_bits_in_bitbuffer st ->
  exists fuel, is_stuck (decode_loops fuel g sel endp st) = false.
Proof.
  intros Hs Hv.
  set (f1 := S (Z.to_nat (main_measure endp st))).
  assert (H1 : is_stuck (main_loop f1 g sel endp st) = false)
    by (apply main_loop_fuel; auto; lia).
  destruct (main_loop f1 g sel endp st) as [st1|v st1|e st1|st1] eqn:Hm.
  - set (f2 := S (Z.to_nat (tail_measure (prune_bitbuffer st1)))).
    exists (max f1 f2). unfold decode_loops.
    rewrite (main_loop_mono g sel endp f1 (max f1 f2) st ltac:(lia))
      by (rewrite Hm; reflexivity).
    rewrite Hm. apply tail_loop_fuel; auto. lia.
  - exists f1. unfold decode_loops. rewrite Hm. reflexivity.
  - exists f1. unfold decode_loops. rewrite Hm. reflexivity.
  - discriminate.
Qed.

(** ** The whole call *)

Lemma out_seek_written off o r o' :
  out_seek off o = (r, o') -> o_written o' = o_written o.
Proof. unfold out_seek. destruct (off <? 0); intros [= <- <-]; reflexivity. Qed.

(** Every value the call can return, with the log that goes with it:
    -1 after a miss in the main loop, with bytes of the page (as
    delimited by the entry now in the heap) still unread; or the
    non-negative number of bytes written. *)
Lemma decode_ok_cases fuel g inp0 l outp0 off rel h v :
  run_result (decode_page_from_input_file_i fuel g inp0 l outp0 off rel h) = Ok v ->
  let r := decode_page_from_input_file_i fuel g inp0 l outp0 off rel h in
  (v = -1 /\ log (run_state r) = [NoMatchingCode] /\
   no_code_matches g (run_state r) /\
   exists e1, run_heap r !! l = Some e1 /\
              read_position (run_state r) < lut_offset e1 + lut_size e1) \/
  (0 <= v /\ only_tail_cleared (log (run_state r)) /\
   v = written (run_state r) - Z.of_nat (length (o_written outp0))).
Proof.
  unfold decode_page_from_input_file_i.
  destruct (h !! l) as [e0|] eqn:Hl; [|discriminate].
  destruct (out_seek off outp0) as [[[]| |] outp1] eqn:Hseek; try discriminate.
  apply out_seek_written in Hseek.
  set (e1 := if lut_size e0 =? 0
             then set_lut_size HUFFMAN_PAGE_DECODED_SIZE_MAX e0 else e0).
  set (h1 := if lut_size e0 =? 0 then <[l := e1]> h else h).
  assert (Hh1 : h1 !! l = Some e1).
  { unfold h1, e1. destruct (lut_size e0 =? 0); [apply lookup_insert_eq|exact Hl]. }
  destruct (if rel then _ else _) as [[[]| |] inp1]; try discriminate.
  destruct (file_read _ inp1) as [[data| |] inp2]; try discriminate.
  match goal with
  | |- context [decode_loops fuel g ?sel ?endp ?st0] =>
      pose proof (decode_loops_outcome g sel endp fuel st0 eq_refl ltac:(cbn; lia)) as H;
      destruct (decode_loops fuel g sel endp st0) as [st1|v1 st1|ex st1|st1]
  end; cbn [run_of_flow run_result run_state run_heap]; try discriminate;
    [contradiction|].
  intros [= ->]. destruct H as [(-> & Hlog & Hrp & Hno)|H].
  - left. repeat split; auto. exists e1. split; [exact Hh1|exact Hrp].
  - right. unfold written in H. cbn [outp write_position] in H.
    rewrite Hseek, Z.sub_0_r in H. exact H.
Qed.

(** The heap after the call: untouched when the output seek fails or
    the size is not the sentinel, otherwise with the size of the entry
    set to 4096. *)
Lemma decode_heap fuel g inp0 l outp0 off rel h e :
  h !! l = Some e ->
  let r := decode_page_from_input_file_i fuel g inp0 l outp0 off rel h in
  (run_heap r = h /\ exists ex, run_result r = Raise ex) \/
  run_heap r
  = if lut_size e =? 0
    then <[l := set_lut_size HUFFMAN_PAGE_DECODED_SIZE_MAX e]> h else h.
Proof.
  intros Hl. unfold decode_page_from_input_file_i. rewrite Hl.
  unfold out_seek. destruct (off <? 0); [left; cbn; eauto|].
  right. destruct (lut_size e =? 0).
  all: destruct (if rel then _ else _) as [[[]| |] inp1]; try reflexivity.
  all: destruct (file_read _ inp1) as [[data| |] inp2]; try reflexivity.
  all: destruct (decode_loops _ _ _ _ _); reflexivity.
Qed.

(** With well-formed arguments the call returns. *)
Lemma decode_returns g inp0 l outp0 off rel h e :
  h !! l = Some e ->
  1 <= shortest_huffman_code_in_bits g ->
  0 <= longest_huffman_code_in_bits g ->
  0 <= off -> 0 <= f_pos inp0 -> 0 <= lut_offset e -> 0 <= lut_size e ->
  exists fuel v,
    run_result (decode_page_from_input_file_i fuel g inp0 l outp0 off rel h) = Ok v.
Proof.
  intros Hl Hs Hlong Hoff Hpos Heo Hes.
  set (e1 := if lut_size e =? 0 then set_lut_size HUFFMAN_PAGE_DECODED_SIZE_MAX e
             else e).
  assert (He1 : lut_offset e1 = lut_offset e /\ 0 <= lut_size e1).
  { unfold e1. destruct (lut_size e =? 0); cbn; [|lia].
    unfold HUFFMAN_PAGE_DECODED_SIZE_MAX. lia. }
  destruct He1 as [He1o He1s].
  set (inp1 := File (f_data inp0)
                    (if rel then f_pos inp0 + lut_offset e1 else lut_offset e1)).
  assert (Hseek : (if rel then file_seek_cur (lut_offset e1) inp0
                   else file_seek_set (lut_offset e1) inp0) = (Ok tt, inp1)).
  { unfold inp1, file_seek_cur, file_seek_set. destruct rel.
    - replace (f_pos inp0 + lut_offset e1 <? 0) with false
        by (symmetry; apply Z.ltb_ge; lia). reflexivity.
    - replace (lut_offset e1 <? 0) with false
        by (symmetry; apply Z.ltb_ge; lia). reflexivity. }
  set (n := Z.min (Z.quot (longest_huffman_code_in_bits g) 8
                   + (if 0 <? longest_huffman_code_in_bits g mod 8 then 1 else 0))
                  (lut_offset e1 + lut_size e1 - 0)).
  assert (Hn : 0 <= n).
  { unfold n. pose proof (Z.quot_pos (longest_huffman_code_in_bits g) 8 Hlong).
    destruct (0 <? longest_huffman_code_in_bits g mod 8); lia. }
  destruct (file_read_cases n inp1) as [[Hbad _]|[_ (data & inp2 & Hread & _)]];
    [lia|].
  set (st0 := MkD inp2 (OutFile off (o_written outp0))
                  (0 + Z.of_nat (length data)) 0 data [] 0 []).
  destruct (decode_loops_terminate g (lut_dictionary_selector e1)
              (lut_offset e1 + lut_size e1) st0 Hs ltac:(cbn; lia))
    as [fuel Hfuel].
  exists fuel.
  assert (Hrun : decode_page_from_input_file_i fuel g inp0 l outp0 off rel h
                 = run_of_flow
                     (decode_loops fuel g (lut_dictionary_selector e1)
                        (lut_offset e1 + lut_size e1) st0)
                     (if lut_size e =? 0 then <[l := e1]> h else h)).
  { unfold decode_page_from_input_file_i. rewrite Hl. unfold out_seek.
    replace (off <? 0) with false by (symmetry; apply Z.ltb_ge; lia).
    fold e1. rewrite Hseek. fold n. rewrite Hread. reflexivity. }
  rewrite Hrun.
  pose proof (decode_loops_outcome g (lut_dictionary_selector e1)
                (lut_offset e1 + lut_size e1) fuel st0 eq_refl ltac:(cbn; lia)) as Hout.
  pose proof (decode_loops_no_throw g (lut_dictionary_selector e1)
                (lut_offset e1 + lut_size e1) fuel st0) as Hnt.
  destruct (decode_loops fuel g (lut_dictionary_selector e1)
              (lut_offset e1 + lut_size e1) st0) as [st1|v st1|ex st1|st1].
  - contradiction.
  - exists v. reflexivity.
  - exfalso. eapply Hnt; [exact Hlong|reflexivity|cbn; lia|reflexivity].
  - discriminate.
Qed.

(** *** Two runs

    A miss while the page still has bytes to read: the call prints the
    error and returns -1, after one byte was written.  A miss once the
    page is exhausted: the remaining seven bits [1010101] match nothing,
    the buffer is cleared, and the call returns the one byte written. *)

Example main_loop_miss_run :
  let r := decode_page_from_input_file_i 8 one_byte_table
             (File [x00; x01; xff; xff] 0) 0%nat (OutFile 0 []) 0 true
             {[ 0%nat := MkLUTentry 0 0 20 ]} in
  run_result r = Ok (-1) /\ log (run_state r) = [NoMatchingCode] /\
  o_written (outp (run_state r)) = [x01; x01].
Proof. vm_compute. repeat split; reflexivity. Qed.

Example tail_miss_run :
  let r := decode_page_from_input_file_i 8 two_length_table
             (File [xff; xd5; x00] 0) 0%nat (OutFile 0 []) 0 true
             {[ 0%nat := MkLUTentry 0 0 3 ]} in
  run_result r = Ok 1 /\ log (run_state r) = [TailCleared] /\
  o_written (outp (run_state r)) = [x03].
Proof. vm_compute. repeat split; reflexivity. Qed.

(** *** Results *)

(** C1. The page cap is tested after the matched value has been written
    in full, and the write position is returned as it is.  With a table
    whose only code decodes to 5000 bytes, the first match makes the
    call return 5000; with a table whose only code decodes to 3 bytes, a
    page of zero bits returns 4098 (1366 codes) -- both above 4096. *)
Theorem page_cap_overshoot :
  run_result
    (decode_page_from_input_file_i 4 long_entry_table
       (File [x00; x00; x00] 0) 0%nat (OutFile 0 []) 0 true
       {[ 0%nat := MkLUTentry 0 0 3 ]})
  = Ok 5000 /\
  run_result
    (decode_page_from_input_file_i 1400 three_byte_table
       (File (repeat x00 1200) 0) 0%nat (OutFile 0 []) 0 true
       {[ 0%nat := MkLUTentry 0 0 0 ]})
  = Ok 4098.
Proof. split; vm_compute; reflexivity. Qed.

(** C2. The read budget of a page is [offset + size], counted from the
    start of the page, not [size].  For the entry with offset 1 and size
    1, in a file of four zero bytes read from position 0 with a relative
    seek, the page starts at position 1 and the call leaves the file at
    position 3: two bytes were read from a one-byte page. *)
Theorem reads_past_page_size :
  let r := decode_page_from_input_file_i 4 one_byte_table
             (File [x00; x00; x00; x00] 0) 0%nat (OutFile 0 []) 0 true
             {[ 0%nat := MkLUTentry 1 0 1 ]} in
  run_result r = Ok 1 /\
  run_heap r !! 0%nat = Some (MkLUTentry 1 0 1) /\
  f_pos (inp (run_state r)) = 3 /\
  read_position (run_state r) = 2.
Proof. vm_compute. repeat split; reflexivity. Qed.

(** C3. Whether a miss is an error is decided by the bound of the main
    loop, [read_position < offset + size] with [read_position] counted
    from the start of the page, and not by whether input of the page
    remains: for a page at a positive offset the main loop goes on after
    all [size] bytes of the page have been read.

    The one-byte page [00] holds the code [0000000] and one padding bit.
    Stored at offset 10 and followed by other data, it is decoded to the
    byte [01]; then, with the page used up, the main loop reads nine more
    bytes, finds no code in them and the call returns -1.  Stored at
    offset 10 as the last byte of the file, it is decoded to [01]; then
    the main loop, with one bit left and nothing to read, finds no code
    and the call returns -1.

    The two-byte page [00 ff] at offset 0 returns 1, the number of bytes
    written; the same page followed by the same bytes, at offset 10,
    returns -1 after the same byte was written. *)
Theorem miss_after_page_is_exhausted :
  let r1 := decode_page_from_input_file_i 8 one_byte_table
              (File (repeat xaa 10 ++ [x00] ++ repeat xff 12) 0) 0%nat
              (OutFile 0 []) 0 true {[ 0%nat := MkLUTentry 10 0 1 ]} in
  let r2 := decode_page_from_input_file_i 8 one_byte_table
              (File (repeat xaa 10 ++ [x00]) 0) 0%nat
              (OutFile 0 []) 0 true {[ 0%nat := MkLUTentry 10 0 1 ]} in
  let r3 := decode_page_from_input_file_i 8 one_byte_table
              (File ([x00; xff] ++ repeat xff 12) 0) 0%nat
              (OutFile 0 []) 0 true {[ 0%nat := MkLUTentry 0 0 2 ]} in
  let r4 := decode_page_from_input_file_i 8 one_byte_table
              (File (repeat xaa 10 ++ [x00; xff] ++ repeat xff 12) 0) 0%nat
              (OutFile 0 []) 0 true {[ 0%nat := MkLUTentry 10 0 2 ]} in
  (run_result r1 = Ok (-1) /\
   read_position (run_state r1) = 10 /\ f_pos (inp (run_state r1)) = 20 /\
   o_written (outp (run_state r1)) = [x01]) /\
  (run_result r2 = Ok (-1) /\
   read_position (run_state r2) = 1 /\ f_pos (inp (run_state r2)) = 11 /\
   o_written (outp (run_state r2)) = [x01]) /\
  (run_result r3 = Ok 1 /\
   read_position (run_state r3) = 2 /\ f_pos (inp (run_state r3)) = 2 /\
   o_written (outp (run_state r3)) = [x01]) /\
  (run_result r4 = Ok (-1) /\
   read_position (run_state r4) = 10 /\ f_pos (inp (run_state r4)) = 20 /\
   o_written (outp (run_state r4)) = [x01]).
Proof. vm_compute. repeat split; reflexivity. Qed.

(** C9. When the entry passed to the decoder has size 0, a call that
    returns has set the size of that very entry to 4096 in the heap, so
    the update outlives the call and a second call on the same entry
    finds 4096, not the sentinel, and changes nothing; when the size is
    not 0 the heap -- offset, size and selector of the entry -- is what
    it was. *)
Theorem sentinel_size_is_overwritten (fuel : nat) (g : huffman_globals)
    (inp0 : file) (l : nat) (outp0 : out_file) (off : Z) (rel : bool)
    (h : gmap nat LUTentry) (e : LUTentry) (v : Z) :
  h !! l = Some e ->
  run_result (decode_page_from_input_file_i fuel g inp0 l outp0 off rel h) = Ok v ->
  let h' := run_heap (decode_page_from_input_file_i fuel g inp0 l outp0 off rel h) in
  (lut_size e = 0 ->
   h' = <[l := MkLUTentry (lut_offset e) (lut_dictionary_selector e) 4096]> h /\
   forall fuel2 g2 inp2 outp2 off2 rel2,
     run_heap (decode_page_from_input_file_i fuel2 g2 inp2 l outp2 off2 rel2 h')
     = h') /\
  (lut_size e <> 0 -> h' = h).
Proof.
  intros Hl Hv.
  destruct (decode_heap fuel g inp0 l outp0 off rel h e Hl) as [[_ [ex Hex]]|Hh];
    [congruence|].
  cbn zeta. rewrite Hh. split.
  - intros Hz. rewrite Hz. cbn [Z.eqb]. split; [reflexivity|].
    intros fuel2 g2 inp2 outp2 off2 rel2.
    destruct (decode_heap fuel2 g2 inp2 l outp2 off2 rel2
                (<[l := set_lut_size HUFFMAN_PAGE_DECODED_SIZE_MAX e]> h)
                (set_lut_size HUFFMAN_PAGE_DECODED_SIZE_MAX e)
                (lookup_insert_eq h l _)) as [[Hsame _]|Hsame];
      rewrite Hsame; reflexivity.
  - intros Hnz. apply Z.eqb_neq in Hnz. rewrite Hnz. reflexivity.
Qed.

Lemma sentinel_size_is_overwritten_witness :
  run_heap
    (decode_page_from_input_file_i 8 one_byte_table
       (File [x00; x01; xff; xff] 0) 0%nat (OutFile 0 []) 0 true
       {[ 0%nat := MkLUTentry 0 1 0 ]})
  = <[ 0%nat := MkLUTentry 0 1 4096 ]> {[ 0%nat := MkLUTentry 0 1 0 ]} /\
  forall fuel2 g2 inp2 outp2 off2 rel2,
    run_heap
      (decode_page_from_input_file_i fuel2 g2 inp2 0%nat outp2 off2 rel2
         (run_heap
            (decode_page_from_input_file_i 8 one_byte_table
               (File [x00; x01; xff; xff] 0) 0%nat (OutFile 0 []) 0 true
               {[ 0%nat := MkLUTentry 0 1 0 ]})))
    = run_heap
        (decode_page_from_input_file_i 8 one_byte_table
           (File [x00; x01; xff; xff] 0) 0%nat (OutFile 0 []) 0 true
           {[ 0%nat := MkLUTentry 0 1 0 ]}).
Proof.
  refine (proj1 (sentinel_size_is_overwritten 8 one_byte_table
                   (File [x00; x01; xff; xff] 0) 0%nat (OutFile 0 []) 0 true
                   ({[ 0%nat := MkLUTentry 0 1 0 ]} : gmap nat LUTentry)
                   (MkLUTentry 0 1 0) (-1) _ _) _).
  - vm_compute. reflexivity.
  - vm_compute. reflexivity.
  - reflexivity.
Defined.

End PageDecoder.

(** * More on the LUT reader *)

Module LutReaderMore.

#[local] Arguments file_read_n : simpl never.
#[local] Arguments read_lut_word : simpl never.
#[local] Arguments lut_append : simpl never.

(** ** Ranges of the fields *)

Lemma lor_below a b n :
  0 <= a < 2 ^ n -> 0 <= b < 2 ^ n -> 0 <= Z.lor a b < 2 ^ n.
Proof.
  intros Ha Hb. split; [apply Z.lor_nonneg; lia|].
  destruct (Z.eq_dec (Z.lor a b) 0) as [->|Hne]; [lia|].
  assert (Hn : 0 < n).
  { destruct (Z_lt_le_dec 0 n) as [?|Hle]; [assumption|]. exfalso.
    assert (Hp : 2 ^ n <= 1).
    { destruct (Z.eq_dec n 0) as [->|?]; [simpl; lia|].
      rewrite Z.pow_neg_r by lia. lia. }
    assert (a = 0) by lia. assert (b = 0) by lia. subst. by apply Hne. }
  assert (Hpos : 0 <= Z.lor a b) by (apply Z.lor_nonneg; lia).
  apply Z.log2_lt_pow2; [lia|].
  rewrite Z.log2_lor by lia.
  apply Z.max_lub_lt.
  - destruct (Z.eq_dec a 0) as [->|?]; [simpl; lia|].
    apply Z.log2_lt_pow2; lia.
  - destruct (Z.eq_dec b 0) as [->|?]; [simpl; lia|].
    apply Z.log2_lt_pow2; lia.
Qed.

Lemma offset_high_byte_range x :
  0 <= Z.shiftl (Z.land (Z.land (byte_val x) 0x3F) 0xFF) 24 < 2 ^ 30.
Proof. destruct x; vm_compute; split; (discriminate || reflexivity). Qed.

Lemma offset_byte_range x k :
  0 <= k <= 16 ->
  0 <= Z.shiftl (Z.land (byte_val x) 0xFF) k < 2 ^ 30.
Proof.
  intros Hk. rewrite LutReader.byte_val_land_ff, Z.shiftl_mul_pow2 by lia.
  pose proof (byte_val_range x) as Hx.
  assert (Hp : 0 < 2 ^ k <= 2 ^ 16).
  { split; [apply Z.pow_pos_nonneg; lia|apply Z.pow_le_mono_r; lia]. }
  change (2 ^ 16) with 65536 in Hp. change (2 ^ 30) with 1073741824. nia.
Qed.

Lemma read_lut_word_in_range rev rawdata p :
  read_lut_word rev rawdata = Ok (Some p) -> lut_pair_in_range p.
Proof.
  unfold read_lut_word, getitem.
  destruct rev; cbn zeta.
  all: repeat match goal with
       | |- context [match ?l !! ?i with _ => _ end] =>
           destruct (l !! i) as [?x|]; cbn [bind]; try discriminate
       end.
  all: destruct (negb _ && negb _); try discriminate.
  all: intros [= <-]; split; cbn [fst snd];
    [|match goal with |- context [if ?c then _ else _] => destruct c end; auto].
  all: (apply lor_below;
        [apply lor_below;
         [apply lor_below;
          [apply offset_high_byte_range|apply (offset_byte_range _ 16); lia]
         |apply (offset_byte_range _ 8); lia]
        |rewrite LutReader.byte_val_land_ff;
         match goal with |- _ <= byte_val ?b < _ =>
           pose proof (byte_val_range b) end;
         change (2 ^ 30) with 1073741824; lia]).
Qed.

(** The loop with the range of every accepted pair recorded. *)
Lemma read_lut_loop_pairs fuel rev n : forall pos ps f lut f',
  read_lut_loop fuel rev n pos (Z.of_nat (length ps)) (lut_of ps) f = (Ok lut, f') ->
  exists ps', lut = lut_of (ps ++ ps') /\ Forall lut_pair_in_range ps'.
Proof.
  induction fuel as [|fuel IH]; intros pos ps f lut f'; cbn [read_lut_loop].
  - destruct (pos <? n); [discriminate|].
    intros [= <- <-]. exists []. by rewrite app_nil_r.
  - destruct (pos <? n).
    2:{ intros [= <- <-]. exists []. by rewrite app_nil_r. }
    destruct (file_read_n 4 f) as [rawdata f1].
    destruct (read_lut_word rev rawdata) as [[[o s]|]|e|] eqn:Hw; try discriminate.
    + apply read_lut_word_in_range in Hw.
      rewrite LutReader.lut_append_lut_of.
      replace (Z.of_nat (length ps) + 1) with (Z.of_nat (length (ps ++ [(o, s)])))
        by (rewrite length_app; simpl; lia).
      intros H. apply IH in H as (ps' & -> & Hps').
      exists ((o, s) :: ps'). split; [by rewrite <- app_assoc|].
      by constructor.
    + apply IH.
Qed.

(** X1. Whatever bytes [read_lut] is given, every entry it returns has
    an offset of at most 30 bits and a dictionary selector that is 0 or
    1. *)
Theorem read_lut_entry_ranges (f : file) (n : Z) (rev : bool)
    (lut : list LUTentry) (f' : file) (e : LUTentry) :
  read_lut f n rev = (Ok lut, f') ->
  e ∈ lut ->
  0 <= lut_offset e < 2 ^ 30 /\
  (lut_dictionary_selector e = 0 \/ lut_dictionary_selector e = 1).
Proof.
  unfold read_lut. intros H He.
  apply (read_lut_loop_pairs _ _ _ 0 []) in H as (ps & -> & Hps).
  cbn [app] in He.
  assert (Hin : (lut_offset e, lut_dictionary_selector e) ∈ ps).
  { rewrite <- (LutReader.lut_of_keys ps).
    apply (list_elem_of_fmap_2
             (fun e => (lut_offset e, lut_dictionary_selector e))). exact He. }
  rewrite Forall_forall in Hps. exact (Hps _ Hin).
Qed.

Lemma read_lut_entry_ranges_witness :
  0 <= 1073741823 < 2 ^ 30 /\ ((1 : Z) = 0 \/ (1 : Z) = 1).
Proof.
  refine (read_lut_entry_ranges
            (File [xff; xff; xff; xff; x00; x00; x00; x00] 0) 8 false
            [MkLUTentry 1073741823 1 0]
            (File [xff; xff; xff; xff; x00; x00; x00; x00] 8)
            (MkLUTentry 1073741823 1 0) _ _).
  - vm_compute. reflexivity.
  - apply list_elem_of_singleton. reflexivity.
Defined.

(** ** Words and the byte count *)

(** Running the loop over the words [ws] held by the file, when every
    one of them starts before [n]: the loop reaches the state after the
    last word with the budget that is left. *)
Lemma read_lut_loop_steps rev post : forall ws fuel pre ps pos n,
  (ws = [] \/ pos + 4 * (Z.of_nat (length ws) - 1) < n) ->
  read_lut_loop (length ws + fuel) rev n pos
    (Z.of_nat (length ps)) (lut_of ps)
    (File (pre ++ flat_map word_bytes ws ++ post) (Z.of_nat (length pre)))
  = read_lut_loop fuel rev n (pos + 4 * Z.of_nat (length ws))
      (Z.of_nat (length (ps ++ omap (spec_lut_entry rev) ws)))
      (lut_of (ps ++ omap (spec_lut_entry rev) ws))
      (File (pre ++ flat_map word_bytes ws ++ post)
            (Z.of_nat (length pre) + 4 * Z.of_nat (length ws))).
Proof.
  induction ws as [|w ws IH]; intros fuel pre ps pos n Hn.
  - cbn [omap list_omap length flat_map app Nat.add]. rewrite app_nil_r.
    f_equal; [lia|]. f_equal. lia.
  - destruct Hn as [?|Hn]; [discriminate|].
    cbn [length Nat.add read_lut_loop].
    replace (pos <? n) with true
      by (symmetry; apply Z.ltb_lt; cbn [length] in Hn; lia).
    cbn [flat_map]. rewrite <- (app_assoc (word_bytes w)).
    assert (Hlen : length (word_bytes w) = 4%nat)
      by (destruct w as [[[? ?] ?] ?]; reflexivity).
    rewrite <- Hlen at 1.
    rewrite LutReader.file_read_n_app, LutReader.read_lut_word_spec.
    rewrite (app_assoc pre).
    replace (Z.of_nat (length pre) + Z.of_nat (length (word_bytes w)))
      with (Z.of_nat (length (pre ++ word_bytes w)))
      by (rewrite length_app; lia).
    cbn [omap list_omap].
    assert (Hn' : ws = [] \/ pos + 4 + 4 * (Z.of_nat (length ws) - 1) < n).
    { destruct ws; [by left|right]. cbn [length] in *. lia. }
    destruct (spec_lut_entry rev w) as [[o s]|].
    + rewrite LutReader.lut_append_lut_of.
      replace (Z.of_nat (length ps) + 1) with (Z.of_nat (length (ps ++ [(o, s)])))
        by (rewrite length_app; simpl; lia).
      rewrite (IH fuel _ _ (pos + 4) n Hn').
      rewrite <- (app_assoc ps). cbn [app].
      f_equal; [lia|]. f_equal. rewrite length_app, Hlen. lia.
    + rewrite (IH fuel _ _ (pos + 4) n Hn').
      f_equal; [lia|]. f_equal. rewrite length_app, Hlen. lia.
Qed.

(** Reading exactly the words [ws]. *)
Lemma read_lut_exact_words (rev : bool) (ws : list word) (pre post : list byte) :
  read_lut (File (pre ++ flat_map word_bytes ws ++ post) (Z.of_nat (length pre)))
           (Z.of_nat (length ws) * 4) rev
  = (Ok (lut_of (omap (spec_lut_entry rev) ws)),
     File (pre ++ flat_map word_bytes ws ++ post)
          (Z.of_nat (length pre) + 4 * Z.of_nat (length ws))).
Proof.
  unfold read_lut.
  replace (Z.to_nat (Z.of_nat (length ws) * 4))
    with (length ws + (Z.to_nat (Z.of_nat (length ws) * 4) - length ws))%nat by lia.
  rewrite (read_lut_loop_steps rev post ws _ pre [] 0 (Z.of_nat (length ws) * 4))
    by (destruct ws; [by left|right; cbn [length]; lia]).
  cbn [app]. apply LutReader.read_lut_loop_exit. apply Z.ltb_ge. lia.
Qed.

(** X2. [bytes_of_lut_to_read] is rounded up to whole words: when the
    file holds the words [ws] and the count [n] reaches into the last of
    them, [read_lut] reads all of that word too -- [4 * length ws]
    bytes -- and returns the entries of the accepted words; a count of
    zero or less reads nothing. *)
Theorem read_lut_rounds_up (rev : bool) (ws : list word) (pre post : list byte)
    (n : Z) :
  4 * Z.of_nat (length ws) - 4 < n <= 4 * Z.of_nat (length ws) \/
  (ws = [] /\ n <= 0) ->
  read_lut (File (pre ++ flat_map word_bytes ws ++ post) (Z.of_nat (length pre)))
           n rev
  = (Ok (lut_of (omap (spec_lut_entry rev) ws)),
     File (pre ++ flat_map word_bytes ws ++ post)
          (Z.of_nat (length pre) + 4 * Z.of_nat (length ws))).
Proof.
  intros Hn. unfold read_lut.
  assert (Hfuel : (length ws <= Z.to_nat n)%nat) by (destruct Hn as [?|[-> ?]]; simpl; lia).
  replace (Z.to_nat n) with (length ws + (Z.to_nat n - length ws))%nat by lia.
  rewrite (read_lut_loop_steps rev post ws _ pre [] 0 n)
    by (destruct ws; [by left|right; destruct Hn as [?|[? ?]]; [lia|discriminate]]).
  cbn [app]. apply LutReader.read_lut_loop_exit. apply Z.ltb_ge.
  destruct Hn as [?|[-> ?]]; simpl; lia.
Qed.

Lemma read_lut_rounds_up_witness :
  read_lut (File [x40; x00; x00; x05; xc0; x00; x00; x09; xaa] 0) 5 false
  = (Ok [MkLUTentry 5 0 4; MkLUTentry 9 1 0],
     File [x40; x00; x00; x05; xc0; x00; x00; x09; xaa] 8).
Proof.
  refine (read_lut_rounds_up false
            [(x40, x00, x00, x05); (xc0, x00, x00, x09)] [] [xaa] 5 _).
  left. simpl. lia.
Defined.

(** ** The end of the file *)

Lemma file_read_n_at_end n f :
  (length (f_data f) <= Z.to_nat (f_pos f))%nat ->
  file_read_n n f = ([], f).
Proof.
  intros H. unfold file_read_n. rewrite drop_ge by lia. rewrite take_nil.
  destruct f as [d p]. cbn. by rewrite Z.add_0_r.
Qed.

(** X3. Asked for a positive number of bytes when the file has none left,
    [read_lut] raises [IndexError] -- the empty read has no selector
    byte -- in either byte order; it does not return an empty list. *)
Theorem read_lut_at_end_of_file (f : file) (n : Z) (rev : bool) :
  0 < n ->
  (length (f_data f) <= Z.to_nat (f_pos f))%nat ->
  read_lut f n rev = (Raise IndexError, f).
Proof.
  intros Hn Hend. unfold read_lut.
  destruct (Z.to_nat n) as [|fuel] eqn:Hf; [lia|].
  cbn [read_lut_loop].
  replace (0 <? n) with true by (symmetry; apply Z.ltb_lt; lia).
  rewrite file_read_n_at_end by exact Hend.
  destruct rev; reflexivity.
Qed.

Lemma read_lut_at_end_of_file_witness :
  read_lut (File [x40; x00; x00; x05] 4) 4 true
  = (Raise IndexError, File [x40; x00; x00; x05] 4).
Proof.
  refine (read_lut_at_end_of_file (File [x40; x00; x00; x05] 4) 4 true _ _).
  - lia.
  - simpl. lia.
Defined.

Lemma read_lut_word_short rev t tail :
  (length tail < 3)%nat ->
  read_lut_word rev (t :: tail)
  = if rev || selector_valid t then Raise IndexError else Ok None.
Proof.
  intros Hlen. unfold read_lut_word, getitem, selector_valid.
  destruct rev; cbn [orb].
  - assert (Hnone : (t :: tail) !! 3%nat = None)
      by (apply lookup_ge_None_2; simpl; lia).
    rewrite Hnone. reflexivity.
  - cbn [lookup list_lookup bind].
    destruct (LutReader.selector_mask_top_bits t) as [-> ->].
    destruct (Z.shiftr (byte_val t) 6 =? 3); cbn [negb andb orb].
    + destruct tail as [|t1 [|t2 [|t3 tail]]]; cbn [lookup list_lookup bind];
        try reflexivity. simpl in Hlen. lia.
    + destruct (Z.shiftr (byte_val t) 6 =? 1); cbn [negb andb orb]; [|reflexivity].
      destruct tail as [|t1 [|t2 [|t3 tail]]]; cbn [lookup list_lookup bind];
        try reflexivity. simpl in Hlen. lia.
Qed.

(** X4. A LUT file whose length is not a multiple of four: after the
    whole words, the one to three trailing bytes make [read_lut_file]
    raise [IndexError] in reversed byte order, and in normal byte order
    when the first of them has valid selector bits; otherwise they are
    dropped without notice and the entries of the whole words are
    returned. *)
Theorem read_lut_file_trailing_bytes (rev : bool) (ws : list word)
    (t : byte) (tail : list byte) :
  (length tail < 3)%nat ->
  (read_lut_file (flat_map word_bytes ws ++ t :: tail) rev).1
  = if rev || selector_valid t then Raise IndexError
    else Ok (lut_of (omap (spec_lut_entry rev) ws)).
Proof.
  intros Hlen. unfold read_lut_file, read_lut.
  assert (Hw : length (flat_map word_bytes ws) = (4 * length ws)%nat).
  { induction ws as [|[[[? ?] ?] ?] ws IH]; [reflexivity|].
    cbn [flat_map]. rewrite length_app, IH. simpl. lia. }
  set (n := Z.of_nat (length (flat_map word_bytes ws ++ t :: tail))).
  assert (Hn : 4 * Z.of_nat (length ws) < n <= 4 * Z.of_nat (length ws) + 3).
  { unfold n. rewrite length_app, Hw. cbn [length]. lia. }
  replace (Z.to_nat n) with (length ws + S (Z.to_nat n - length ws - 1))%nat by lia.
  pose proof (read_lut_loop_steps rev (t :: tail) ws
                (S (Z.to_nat n - length ws - 1)) [] [] 0 n) as Hs.
  cbn [app length lut_of] in Hs. change (Z.of_nat 0) with 0 in Hs.
  rewrite Hs by (destruct ws; [by left|right; cbn [length] in *; lia]).
  clear Hs.
  cbn [read_lut_loop].
  replace (0 + 4 * Z.of_nat (length ws) <? n) with true
    by (symmetry; apply Z.ltb_lt; lia).
  unfold file_read_n. cbn [f_pos f_data].
  replace (Z.to_nat (0 + 4 * Z.of_nat (length ws)))
    with (length (flat_map word_bytes ws)) by (rewrite Hw; lia).
  rewrite drop_app_length.
  replace (take 4 (t :: tail)) with (t :: tail) by (symmetry; apply take_ge; simpl; lia).
  rewrite (read_lut_word_short rev t tail Hlen).
  destruct (rev || selector_valid t); [reflexivity|].
  rewrite LutReader.read_lut_loop_exit; [reflexivity|].
  apply Z.ltb_ge. lia.
Qed.

Lemma read_lut_file_trailing_bytes_witness :
  (read_lut_file [x40; x00; x00; x05; x00; x01] false).1
  = Ok [MkLUTentry 5 0 0].
Proof.
  refine (read_lut_file_trailing_bytes false [(x40, x00, x00, x05)] x00 [x01] _).
  simpl. lia.
Defined.

(** ** Code objects *)

(** X5. For a Huffman-compressed code object whose LUT words [ws] --
    one per 4096 bytes of its size -- sit in the file at the header
    offset of its partition plus its relative offset,
    [read_lut_of_code_object] returns the entries of the accepted words
    in reversed byte order and leaves the file right after the LUT,
    the position the page offsets are relative to. *)
Theorem read_lut_of_code_object_huffman (e : CodeObjectEntry) (ws : list word)
    (pre post : list byte) (p : Z) :
  is_huffman_compressed e = true ->
  offset_of_cdt_header (in_partition e) + rel_offset_of_data_in_partition e
  = Z.of_nat (length pre) ->
  Z.quot (coe_size e) 4096 = Z.of_nat (length ws) ->
  read_lut_of_code_object (File (pre ++ flat_map word_bytes ws ++ post) p) e
  = (Ok (Some (lut_of (omap (spec_lut_entry true) ws))),
     File (pre ++ flat_map word_bytes ws ++ post)
          (Z.of_nat (length pre) + 4 * Z.of_nat (length ws))).
Proof.
  intros Hh Hoff Hsize. unfold read_lut_of_code_object, file_seek_set.
  rewrite Hh, Hoff. cbn [negb f_data].
  replace (Z.of_nat (length pre) <? 0) with false by (symmetry; apply Z.ltb_ge; lia).
  unfold HUFFMAN_PAGE_DECODED_SIZE_MAX. rewrite Hsize.
  rewrite (read_lut_exact_words true ws pre post). reflexivity.
Qed.

Lemma read_lut_of_code_object_huffman_witness :
  read_lut_of_code_object
    (File [xaa; xbb; x05; x00; x00; x40; xcc] 6)
    (MkCodeObjectEntry (MkCodePartitionDescriptor 1 64 "FTPR") 1 4096 "kernel" true)
  = (Ok (Some [MkLUTentry 5 0 0]), File [xaa; xbb; x05; x00; x00; x40; xcc] 6).
Proof.
  refine (read_lut_of_code_object_huffman
            (MkCodeObjectEntry (MkCodePartitionDescriptor 1 64 "FTPR") 1 4096
               "kernel" true)
            [(x05, x00, x00, x40)] [xaa; xbb] [xcc] 6 _ _ _); reflexivity.
Defined.

End LutReaderMore.

(** * More on the Huffman table loader *)

Module TableLoaderMore.

#[local] Arguments py_split : simpl never.
#[local] Arguments py_int : simpl never.
#[local] Arguments int_to_bytes_big : simpl never.

(** ** Big-endian dictionary values *)

Lemma byte_val_byte_of_N m : (m < 256)%N -> byte_val (byte_of_N m) = Z.of_N m.
Proof.
  intros Hm. unfold byte_of_N, byte_val.
  destruct (Byte.of_N m) as [b|] eqn:Hb.
  - apply Byte.to_of_N in Hb. by rewrite Hb.
  - apply Byte.of_N_None_iff in Hb. lia.
Qed.

Lemma be_value_snoc bs b : be_value (bs ++ [b]) = be_value bs * 256 + byte_val b.
Proof. unfold be_value. by rewrite fold_left_app. Qed.

Lemma be_value_be_bytes len n :
  be_value (be_bytes len n) = Z.of_N (n mod 256 ^ N.of_nat len).
Proof.
  revert n. induction len as [|len IH]; intros n; cbn [be_bytes].
  - cbn. by rewrite N.mod_1_r.
  - rewrite be_value_snoc, IH.
    rewrite byte_val_byte_of_N by (apply N.mod_lt; lia).
    rewrite Nat2N.inj_succ, N.pow_succ_r', N.Div0.mod_mul_r.
    rewrite N2Z.inj_add, N2Z.inj_mul. lia.
Qed.

Lemma int_to_bytes_big_value n len bs :
  int_to_bytes_big n len = Ok bs -> be_value bs = n.
Proof.
  unfold int_to_bytes_big.
  destruct (_ || _); [discriminate|].
  destruct (len <? 0) eqn:Hlen; [discriminate|].
  destruct (n <? 0) eqn:Hneg; [discriminate|].
  destruct (256 ^ len <=? n) eqn:Hbig; [discriminate|].
  intros [= <-]. rewrite be_value_be_bytes.
  apply Z.ltb_ge in Hlen, Hneg. apply Z.leb_gt in Hbig.
  rewrite N.mod_small; [lia|].
  apply N2Z.inj_lt. rewrite N2Z.inj_pow, Z2N.id by lia.
  rewrite nat_N_Z, Z2Nat.id by lia. exact Hbig.
Qed.

(** The numbers a built entry holds. *)
Lemma HuffmanTableEntry_init_be_values {pkg : bitstring_package}
    (dict1 dict2 dlen rank : Z) (code : string) (e : HuffmanTableEntry) :
  HuffmanTableEntry_init dict1 dict2 dlen rank code = Ok e ->
  be_value (dict1_value e) = dict1 /\ be_value (dict2_value e) = dict2.
Proof.
  unfold HuffmanTableEntry_init.
  destruct (int_to_bytes_big dict1 dlen) as [b1| |] eqn:H1; cbn [bind]; try discriminate.
  destruct (int_to_bytes_big dict2 dlen) as [b2| |] eqn:H2; cbn [bind]; try discriminate.
  destruct (ConstBitArray_bin code) as [bits| |]; cbn [bind]; try discriminate.
  intros [= <-]. cbn. split; eauto using int_to_bytes_big_value.
Qed.

(** X6. A table entry keeps its two dictionary columns exactly: the
    bytes of [dict1_value] and [dict2_value], read most significant byte
    first, are the two integers the constructor was given, and both have
    the declared number of bytes (shorter values are padded with zero
    bytes on the left). *)
Theorem entry_values_read_back {pkg : bitstring_package}
    (dict1 dict2 dlen rank : Z) (code : string) (e : HuffmanTableEntry) :
  HuffmanTableEntry_init dict1 dict2 dlen rank code = Ok e ->
  be_value (dict1_value e) = dict1 /\
  be_value (dict2_value e) = dict2 /\
  Z.of_nat (length (dict1_value e)) = dlen /\
  Z.of_nat (length (dict2_value e)) = dlen.
Proof.
  unfold HuffmanTableEntry_init.
  destruct (int_to_bytes_big dict1 dlen) as [b1| |] eqn:H1; cbn [bind]; try discriminate.
  destruct (int_to_bytes_big dict2 dlen) as [b2| |] eqn:H2; cbn [bind]; try discriminate.
  destruct (ConstBitArray_bin code) as [bits| |]; cbn [bind]; try discriminate.
  intros [= <-]. cbn.
  repeat split;
    eauto using int_to_bytes_big_value, TableLoader.int_to_bytes_big_length.
Qed.

Lemma entry_values_read_back_witness :
  be_value [x00; x00; x02] = 2 /\ be_value [x01; x02; x03] = 66051 /\
  Z.of_nat (length [x00; x00; x02]) = 3 /\ Z.of_nat (length [x01; x02; x03]) = 3.
Proof.
  refine (entry_values_read_back (pkg := digits_only) 2 66051 3 8 "00011001"
            (MkHuffmanTableEntry [x00; x00; x02] [x01; x02; x03] 3 8 "00011001"
               [false; false; false; true; true; false; false; true]) _).
  vm_compute. reflexivity.
Defined.

(** X7. The constructor refuses what does not fit: with a non-negative
    length, a first dictionary value that is negative or needs more than
    [length] bytes raises [OverflowError], and no entry is built. *)
Theorem entry_value_too_large {pkg : bitstring_package}
    (dict1 dict2 dlen rank : Z) (code : string) :
  0 <= dlen ->
  dict1 < 0 \/ 256 ^ dlen <= dict1 ->
  HuffmanTableEntry_init dict1 dict2 dlen rank code = Raise OverflowError.
Proof.
  intros Hlen Hbad. unfold HuffmanTableEntry_init, int_to_bytes_big.
  destruct (_ || _); [reflexivity|].
  replace (dlen <? 0) with false by (symmetry; apply Z.ltb_ge; lia).
  destruct (dict1 <? 0) eqn:Hneg; [reflexivity|].
  apply Z.ltb_ge in Hneg.
  replace (256 ^ dlen <=? dict1) with true by (symmetry; apply Z.leb_le; lia).
  reflexivity.
Qed.

Lemma entry_value_too_large_witness :
  HuffmanTableEntry_init (pkg := digits_only) 256 2 1 7 "0000000"
  = Raise OverflowError.
Proof.
  refine (entry_value_too_large (pkg := digits_only) 256 2 1 7 "0000000" _ _).
  - lia.
  - right. simpl. lia.
Defined.

(** ** Lines *)

Lemma parse_table_line_short tokens g :
  (length tokens < 7)%nat -> exists e, parse_table_line tokens g = Raise e.
Proof.
  intros Hlen. unfold parse_table_line.
  assert (H6 : token tokens 6 = Raise IndexError).
  { unfold token. rewrite lookup_ge_None_2 by lia. reflexivity. }
  repeat match goal with
         | |- context [bind (token tokens 6) _] =>
             rewrite H6; cbn [bind]
         | |- context [bind (token ?t ?i) _] =>
             pose proof (TableLoader.token_fuel t i);
             destruct (token t i); cbn [bind]; [| |congruence]
         | |- context [bind (py_int ?s ?b) _] =>
             pose proof (TableLoader.py_int_fuel s b);
             destruct (py_int s b); cbn [bind]; [| |congruence]
         end.
  all: eexists; reflexivity.
Qed.

(** X8. A line with fewer than seven whitespace-separated tokens -- an
    empty line, a blank line, a short comment -- is skipped: the call
    returns normally and the table and both counters are as before. *)
Theorem short_line_is_skipped {pkg : bitstring_package}
    (line : string) (g : huffman_globals) :
  (length (py_split line) < 7)%nat ->
  process_huffman_table_file_line line g = (Ok tt, g).
Proof.
  intros Hlen. unfold process_huffman_table_file_line.
  destruct (parse_table_line_short (py_split line) g Hlen) as [e ->].
  reflexivity.
Qed.

Lemma short_line_is_skipped_witness :
  process_huffman_table_file_line (pkg := digits_only)
    "01 0 02 0 1 7" (MkGlobals ∅ 17 7)
  = (Ok tt, MkGlobals ∅ 17 7).
Proof.
  refine (short_line_is_skipped (pkg := digits_only)
            "01 0 02 0 1 7" (MkGlobals ∅ 17 7) _).
  vm_compute. lia.
Defined.

(** The three ways a line can go, with the counters spelled out. *)
Lemma process_line_effect {pkg : bitstring_package} line g :
  (exists rank te,
      huffman_code_rank te = rank /\
      (process_huffman_table_file_line line g).2
      = MkGlobals (<[huffman_code_bits te := te]> (huffman_table g))
                  (Z.max (longest_huffman_code_in_bits g) rank)
                  (Z.min (shortest_huffman_code_in_bits g) rank)) \/
  (exists rank,
      (process_huffman_table_file_line line g).2
      = MkGlobals (huffman_table g)
                  (Z.max (longest_huffman_code_in_bits g) rank)
                  (Z.min (shortest_huffman_code_in_bits g) rank)) \/
  (process_huffman_table_file_line line g).2 = g.
Proof.
  destruct (TableLoader.process_line_cases line g)
    as [(d1 & d2 & dlen & rank & code & g1 & te & Hp & Hi & ->)
       |[(d1 & d2 & dlen & rank & code & g1 & e & Hp & _ & ->)
        |[_ ->]]]; cbn [snd].
  - left. exists rank, te.
    apply TableLoader.parse_table_line_counters in Hp as (-> & -> & _).
    apply TableLoader.HuffmanTableEntry_init_built in Hi as (_ & Hr & _).
    auto.
  - right; left. exists rank.
    apply TableLoader.parse_table_line_counters in Hp as (Hl & Hs & Ht).
    destruct g1 as [t1 l1 s1]. cbn in *. by subst.
  - right; right. reflexivity.
Qed.

Lemma process_line_ranks {pkg : bitstring_package} line g :
  ranks_within_counters g ->
  ranks_within_counters (process_huffman_table_file_line line g).2.
Proof.
  intros Hg.
  destruct (process_line_effect line g) as [(rank & te & Hr & ->)|[(rank & ->)| ->]].
  - intros k e. cbn. rewrite lookup_insert.
    destruct (decide (huffman_code_bits te = k)) as [<-|Hne].
    + intros [= <-]. lia.
    + intros He. specialize (Hg k e He). lia.
  - intros k e He. cbn in *. specialize (Hg k e He). lia.
  - exact Hg.
Qed.

Lemma process_line_grows {pkg : bitstring_package} line g :
  table_grows g (process_huffman_table_file_line line g).2.
Proof.
  unfold table_grows.
  destruct (process_line_effect line g) as [(rank & te & Hr & ->)|[(rank & ->)| ->]];
    cbn.
  - split; [lia|]. split; [lia|]. intros k Hk. rewrite lookup_insert.
    destruct (decide (huffman_code_bits te = k)); [eauto|exact Hk].
  - split; [lia|]. split; [lia|]. auto.
  - split; [lia|]. split; [lia|]. auto.
Qed.

Lemma table_grows_trans g1 g2 g3 :
  table_grows g1 g2 -> table_grows g2 g3 -> table_grows g1 g3.
Proof.
  intros (? & ? & H12) (? & ? & H23). split; [lia|]. split; [lia|]. auto.
Qed.

(** X9. However loading goes -- lines skipped, entries overwritten, even
    an exception part of the way -- the counters enclose the rank of
    every entry the table holds: shortest <= rank <= longest. *)
Theorem loaded_ranks_within_counters {pkg : bitstring_package}
    (lines : list string) :
  ranks_within_counters
    (read_ascii_huffman_table lines clear_huffman_table_data).2.
Proof.
  assert (H : forall g, ranks_within_counters g ->
                        ranks_within_counters (read_ascii_huffman_table lines g).2).
  { induction lines as [|line rest IH]; intros g Hg;
      cbn [read_ascii_huffman_table]; [exact Hg|].
    pose proof (process_line_ranks line g Hg) as H1.
    destruct (process_huffman_table_file_line line g) as [[[]|e|] g1];
      cbn [snd] in *; auto. }
  apply H. intros k e Hk. cbn in Hk. by rewrite lookup_empty in Hk.
Qed.

(** X10. Loading never loses anything: over any list of lines and from
    any state, the longest-code counter does not decrease, the
    shortest-code counter does not increase, and every key of the table
    is still a key afterwards. *)
Theorem loading_only_grows {pkg : bitstring_package}
    (lines : list string) (g : huffman_globals) :
  table_grows g (read_ascii_huffman_table lines g).2.
Proof.
  revert g. induction lines as [|line rest IH]; intros g;
    cbn [read_ascii_huffman_table].
  - cbn [snd]. split; [lia|]. split; [lia|]. auto.
  - pose proof (process_line_grows line g) as H1.
    destruct (process_huffman_table_file_line line g) as [[[]|e|] g1];
      cbn [snd] in *; [|exact H1|exact H1].
    exact (table_grows_trans _ _ _ H1 (IH g1)).
Qed.

(** X11. After a line has been accepted, looking up the bits of its code
    finds the entry built from that line -- rank, code string and the
    two dictionary values as the columns give them -- and every other
    key of the table answers as before: a later line with the same code
    replaces the earlier entry. *)
Theorem accepted_line_is_found {pkg : bitstring_package}
    (line : string) (g g' : huffman_globals)
    (dict1 dict2 dlen rank : Z) (code : string) (g1 : huffman_globals) :
  parse_table_line (py_split line) g = Ok (dict1, dict2, dlen, rank, code, g1) ->
  process_huffman_table_file_line line g = (Ok tt, g') ->
  exists e,
    ConstBitArray_bin code = Ok (huffman_code_bits e) /\
    huffman_table g' !! huffman_code_bits e = Some e /\
    huffman_code e = code /\ huffman_code_rank e = rank /\
    be_value (dict1_value e) = dict1 /\ be_value (dict2_value e) = dict2 /\
    forall k, k <> huffman_code_bits e ->
              huffman_table g' !! k = huffman_table g !! k.
Proof.
  intros Hp. unfold process_huffman_table_file_line. rewrite Hp.
  destruct (HuffmanTableEntry_init dict1 dict2 dlen rank code) as [te|e|] eqn:Hi;
    try discriminate.
  intros [= <-]. exists te. cbn [huffman_table].
  pose proof (HuffmanTableEntry_init_be_values _ _ _ _ _ _ Hi) as (Hv1 & Hv2).
  pose proof (TableLoader.HuffmanTableEntry_init_built _ _ _ _ _ _ Hi)
    as (_ & Hr & Hc & _).
  apply TableLoader.parse_table_line_table in Hp.
  assert (Hbits : ConstBitArray_bin code = Ok (huffman_code_bits te)).
  { unfold HuffmanTableEntry_init in Hi.
    destruct (int_to_bytes_big dict1 dlen); cbn [bind] in Hi; try discriminate.
    destruct (int_to_bytes_big dict2 dlen); cbn [bind] in Hi; try discriminate.
    destruct (ConstBitArray_bin code); cbn [bind] in Hi; try discriminate.
    injection Hi as <-. reflexivity. }
  repeat split; auto.
  - apply lookup_insert_eq.
  - intros k Hk. rewrite lookup_insert_ne by congruence. by rewrite Hp.
Qed.

Lemma accepted_line_is_found_witness :
  exists e,
    ConstBitArray_bin (pkg := digits_only) "0000000"
    = Ok (huffman_code_bits e) /\
    huffman_table one_byte_table !! huffman_code_bits e = Some e /\
    huffman_code e = "0000000" /\ huffman_code_rank e = 7 /\
    be_value (dict1_value e) = 1 /\ be_value (dict2_value e) = 2 /\
    forall k, k <> huffman_code_bits e ->
              huffman_table one_byte_table !! k
              = huffman_table clear_huffman_table_data !! k.
Proof.
  refine (accepted_line_is_found (pkg := digits_only) "01 0 02 0 1 7 0000000"
            clear_huffman_table_data one_byte_table 1 2 1 7 "0000000"
            (MkGlobals ∅ 7 7) _ _).
  - vm_compute. reflexivity.
  - vm_compute. reflexivity.
Defined.

End TableLoaderMore.

(** * More on the page decoder *)

Module PageDecoderMore.

#[local] Arguments file_read : simpl never.
#[local] Arguments match_code : simpl never.
#[local] Arguments bits_del_prefix : simpl never.
#[local] Arguments bits_of_bytes : simpl never.
#[local] Arguments out_write : simpl never.

(** ** What one round does to the streams *)

Lemma file_read_effect n f r f' :
  file_read n f = (r, f') ->
  f_data f' = f_data f /\
  match r with
  | Ok data =>
      f_pos f' = f_pos f + Z.of_nat (length data) /\
      (0 <= n -> Z.of_nat (length data) <= n)
  | _ => f' = f
  end.
Proof.
  unfold file_read, file_read_n.
  destruct (n <? -1); [intros [= <- <-]; auto|].
  destruct (n =? -1) eqn:Hn.
  - intros [= <- <-]. cbn. apply Z.eqb_eq in Hn. repeat split; lia.
  - intros [= <- <-]. cbn. repeat split. rewrite length_take. lia.
Qed.

Lemma main_body_step g sel endp st :
  let fl := main_body g sel endp st in
  ((outp (flow_state fl) = outp st /\
    write_position (flow_state fl) = write_position st) \/
   (exists k e,
       huffman_table g !! k = Some e /\
       outp (flow_state fl) = out_write (selected_value sel e) (outp st) /\
       write_position (flow_state fl)
       = write_position st + Z.of_nat (length (selected_value sel e)))) /\
  f_data (inp (flow_state fl)) = f_data (inp st) /\
  f_pos (inp (flow_state fl)) - read_position (flow_state fl)
  = f_pos (inp st) - read_position st /\
  read_position st <= read_position (flow_state fl) /\
  (0 <= longest_huffman_code_in_bits g -> read_position st < endp ->
   read_position (flow_state fl) <= endp) /\
  match fl with
  | Next st' => write_position st' < HUFFMAN_PAGE_DECODED_SIZE_MAX
  | Return v st' =>
      (v = -1 /\ write_position st' = write_position st) \/
      v = write_position st'
  | _ => True
  end.
Proof.
  unfold main_body, selected_value.
  destruct (if (0 <? length (in_data st))%nat then _ else _) as [bb in_data1].
  destruct (match_code _ _ _) as [n [found|]] eqn:Hm.
  2:{ cbn. repeat split; auto; lia. }
  apply PageDecoder.match_code_found in Hm as [_ Hfound].
  destruct (HUFFMAN_PAGE_DECODED_SIZE_MAX <=? _) eqn:Hcap.
  { cbn. repeat split; eauto 10; lia. }
  apply Z.leb_gt in Hcap.
  destruct (_ <? longest_huffman_code_in_bits g).
  2:{ cbn. repeat split; eauto 10; lia. }
  match goal with
  | |- context [file_read ?n ?f] =>
      pose proof (file_read_effect n f) as Hr;
      destruct (file_read n f) as [[data| |] inp1];
      specialize (Hr _ _ eq_refl); destruct Hr as [Hd Hr]
  end.
  - destruct Hr as [Hp Hlen]. cbn. repeat split; eauto 10; try lia.
    intros Hl Hrp.
    assert (0 <= Z.quot (bitbuffer_topoff_level g) 8)
      by (apply Z.quot_pos; unfold bitbuffer_topoff_level; lia).
    destruct (0 <? bitbuffer_topoff_level g mod 8); lia.
  - subst inp1. cbn. repeat split; eauto 10; lia.
  - subst inp1. cbn. repeat split; eauto 10; lia.
Qed.

Lemma tail_body_step g sel st :
  let fl := tail_body g sel st in
  ((outp (flow_state fl) = outp st /\
    write_position (flow_state fl) = write_position st) \/
   (exists k e,
       huffman_table g !! k = Some e /\
       outp (flow_state fl) = out_write (selected_value sel e) (outp st) /\
       write_position (flow_state fl)
       = write_position st + Z.of_nat (length (selected_value sel e)))) /\
  inp (flow_state fl) = inp st /\
  read_position (flow_state fl) = read_position st /\
  match fl with
  | Next st' => write_position st' < HUFFMAN_PAGE_DECODED_SIZE_MAX
                \/ write_position st' = write_position st
  | Return v st' => v = write_position st'
  | _ => False
  end.
Proof.
  unfold tail_body, selected_value.
  destruct (match_code _ _ _) as [n [found|]] eqn:Hm.
  2:{ cbn. repeat split; auto. }
  apply PageDecoder.match_code_found in Hm as [_ Hfound].
  destruct (HUFFMAN_PAGE_DECODED_SIZE_MAX <=? _) eqn:Hcap.
  - cbn. repeat split; eauto 10.
  - apply Z.leb_gt in Hcap. cbn. repeat split; eauto 10.
Qed.

(** ** The loops *)

Lemma extend_output g sel w0 st st' :
  page_output g sel w0 st ->
  (outp st' = outp st /\ write_position st' = write_position st) \/
  (exists k e,
      huffman_table g !! k = Some e /\
      outp st' = out_write (selected_value sel e) (outp st) /\
      write_position st'
      = write_position st + Z.of_nat (length (selected_value sel e))) ->
  page_output g sel w0 st'.
Proof.
  intros (vs & Hvs & Hw & Hp) [[Ho Hwp]|(k & e & He & Ho & Hwp)].
  - exists vs. rewrite Ho, Hwp. auto.
  - exists (vs ++ [selected_value sel e]). split; [|split].
    + apply Forall_app. split; [exact Hvs|].
      constructor; [|constructor]. exists k, e. auto.
    + rewrite Ho. unfold out_write. cbn [o_written].
      rewrite Hw, concat_app. cbn [concat]. rewrite app_nil_r, app_assoc.
      reflexivity.
    + rewrite Hwp, Hp, concat_app. cbn [concat].
      rewrite app_nil_r, length_app. lia.
Qed.

Lemma main_loop_output g sel endp w0 : forall fuel st,
  page_output g sel w0 st ->
  write_position st < HUFFMAN_PAGE_DECODED_SIZE_MAX ->
  let fl := main_loop fuel g sel endp st in
  page_output g sel w0 (flow_state fl) /\
  match fl with
  | Next st' => write_position st' < HUFFMAN_PAGE_DECODED_SIZE_MAX
  | Return v st' =>
      v = -1 \/
      (v = write_position st' /\
       (v < HUFFMAN_PAGE_DECODED_SIZE_MAX \/
        exists k e, huffman_table g !! k = Some e /\
                    v < HUFFMAN_PAGE_DECODED_SIZE_MAX
                        + Z.of_nat (length (selected_value sel e))))
  | _ => True
  end.
Proof.
  induction fuel as [|fuel IH]; intros st Hout Hwp; cbn [main_loop].
  - destruct (read_position st <? endp); cbn; auto.
  - destruct (read_position st <? endp); [|cbn; auto].
    pose proof (main_body_step g sel endp st) as (Ho & _ & _ & _ & _ & Hc).
    pose proof (extend_output g sel w0 st _ Hout Ho) as Hout'.
    destruct (main_body g sel endp st) as [st1|v st1|e1 st1|st1];
      cbn [flow_state] in *; auto.
    split; [exact Hout'|].
    destruct Hc as [[-> _] | ->]; [left; reflexivity|right].
    split; [reflexivity|].
    destruct Ho as [[_ Hw]|(k & e & He & _ & Hw)]; [left; lia|right].
    exists k, e. split; [exact He|lia].
Qed.

Lemma tail_loop_output g sel w0 : forall fuel st,
  page_output g sel w0 st ->
  write_position st < HUFFMAN_PAGE_DECODED_SIZE_MAX ->
  let fl := tail_loop fuel g sel st in
  page_output g sel w0 (flow_state fl) /\
  match fl with
  | Return v st' =>
      v = write_position st' /\
      (v < HUFFMAN_PAGE_DECODED_SIZE_MAX \/
       exists k e, huffman_table g !! k = Some e /\
                   v < HUFFMAN_PAGE_DECODED_SIZE_MAX
                       + Z.of_nat (length (selected_value sel e)))
  | Stuck _ => True
  | _ => False
  end.
Proof.
  induction fuel as [|fuel IH]; intros st Hout Hwp; cbn [tail_loop].
  - destruct (_ <=? _); cbn; auto.
  - destruct (_ <=? _); [|cbn; auto].
    pose proof (tail_body_step g sel st) as (Ho & _ & _ & Hc).
    pose proof (extend_output g sel w0 st _ Hout Ho) as Hout'.
    destruct (tail_body g sel st) as [st1|v st1|e1 st1|st1];
      cbn [flow_state] in *; try contradiction.
    + apply IH; [exact Hout'|lia].
    + split; [exact Hout'|]. split; [exact Hc|].
      destruct Ho as [[_ Hw]|(k & e & He & _ & Hw)]; [left; lia|right].
      exists k, e. split; [exact He|lia].
Qed.

Lemma decode_loops_output g sel endp w0 fuel st :
  page_output g sel w0 st ->
  write_position st < HUFFMAN_PAGE_DECODED_SIZE_MAX ->
  let fl := decode_loops fuel g sel endp st in
  page_output g sel w0 (flow_state fl) /\
  match fl with
  | Return v st' =>
      v = -1 \/
      (v = write_position st' /\
       (v < HUFFMAN_PAGE_DECODED_SIZE_MAX \/
        exists k e, huffman_table g !! k = Some e /\
                    v < HUFFMAN_PAGE_DECODED_SIZE_MAX
                        + Z.of_nat (length (selected_value sel e))))
  | Next _ => False
  | _ => True
  end.
Proof.
  intros Hout Hwp. unfold decode_loops.
  pose proof (main_loop_output g sel endp w0 fuel st Hout Hwp) as [Hm Hc].
  destruct (main_loop fuel g sel endp st) as [st1|v st1|e1 st1|st1];
    cbn [flow_state] in *; auto.
  pose proof (tail_loop_output g sel w0 fuel (prune_bitbuffer st1) Hm Hc)
    as [Ht Hc'].
  destruct (tail_loop fuel g sel (prune_bitbuffer st1)); cbn [flow_state] in *;
    auto.
Qed.

Lemma main_loop_input g sel endp d0 p0 :
  0 <= longest_huffman_code_in_bits g ->
  forall fuel st,
    page_input d0 p0 endp st ->
    page_input d0 p0 endp (flow_state (main_loop fuel g sel endp st)).
Proof.
  intros Hl. induction fuel as [|fuel IH]; intros st Hin; cbn [main_loop].
  - destruct (read_position st <? endp); exact Hin.
  - destruct (read_position st <? endp) eqn:Hrp; [|exact Hin].
    apply Z.ltb_lt in Hrp.
    pose proof (main_body_step g sel endp st) as (_ & Hd & Hp & Hge & Hle & _).
    specialize (Hle Hl Hrp). destruct Hin as (Hd0 & Hp0 & Hr0).
    assert (Hin' : page_input d0 p0 endp (flow_state (main_body g sel endp st)))
      by (unfold page_input; repeat split; [congruence|lia..]).
    destruct (main_body g sel endp st); auto.
Qed.

Lemma tail_loop_input g sel endp d0 p0 : forall fuel st,
  page_input d0 p0 endp st ->
  page_input d0 p0 endp (flow_state (tail_loop fuel g sel st)).
Proof.
  induction fuel as [|fuel IH]; intros st Hin; cbn [tail_loop].
  - destruct (_ <=? _); exact Hin.
  - destruct (_ <=? _); [|exact Hin].
    pose proof (tail_body_step g sel st) as (_ & Hi & Hr & _).
    assert (Hin' : page_input d0 p0 endp (flow_state (tail_body g sel st)))
      by (unfold page_input in *; rewrite Hi, Hr; exact Hin).
    destruct (tail_body g sel st); auto.
Qed.

Lemma decode_loops_input g sel endp d0 p0 fuel st :
  0 <= longest_huffman_code_in_bits g ->
  page_input d0 p0 endp st ->
  page_input d0 p0 endp (flow_state (decode_loops fuel g sel endp st)).
Proof.
  intros Hl Hin. unfold decode_loops.
  pose proof (main_loop_input g sel endp d0 p0 Hl fuel st Hin) as Hm.
  destruct (main_loop fuel g sel endp st) as [st1|v st1|e1 st1|st1]; auto.
  apply tail_loop_input. exact Hm.
Qed.

(** ** The whole call *)

(** A call that returns got past both seeks and the first read, and its
    value and final state are those of the two loops. *)
Lemma decode_ok_unfold fuel g inp0 l outp0 off rel h e v :
  h !! l = Some e ->
  run_result (decode_page_from_input_file_i fuel g inp0 l outp0 off rel h) = Ok v ->
  exists data inp2 fl,
    0 <= off /\ 0 <= page_start rel inp0 e /\
    file_read (Z.min (bytes_for_longest_code g) (lut_offset e + effective_size e))
      (File (f_data inp0) (page_start rel inp0 e)) = (Ok data, inp2) /\
    fl = decode_loops fuel g (lut_dictionary_selector e)
           (lut_offset e + effective_size e)
           (MkD inp2 (OutFile off (o_written outp0)) (Z.of_nat (length data)) 0
                data [] 0 []) /\
    run_state (decode_page_from_input_file_i fuel g inp0 l outp0 off rel h)
    = flow_state fl /\
    match fl with
    | Next st => v = write_position st
    | Return v' _ => v = v'
    | _ => False
    end.
Proof.
  intros Hl.
  unfold decode_page_from_input_file_i, page_start, effective_size,
    bytes_for_longest_code.
  rewrite Hl. unfold out_seek.
  destruct (off <? 0) eqn:Hoff; [discriminate|]. apply Z.ltb_ge in Hoff.
  rewrite Z.sub_0_r.
  destruct (lut_size e =? 0);
    cbn [set_lut_size lut_offset lut_size lut_dictionary_selector];
    destruct rel; unfold file_seek_cur, file_seek_set;
    match goal with |- context [?x <? 0] => destruct (x <? 0) eqn:Hs end;
    try discriminate; apply Z.ltb_ge in Hs;
    match goal with
    | |- context [file_read ?n ?f] =>
        destruct (file_read n f) as [[data| |] inp2] eqn:Hr
    end; try discriminate;
    intros Hv;
    match type of Hv with
    | context [decode_loops ?a ?b ?c ?d ?s] =>
        exists data, inp2, (decode_loops a b c d s);
        (split; [exact Hoff|]); (split; [exact Hs|]);
        (split; [reflexivity|]); (split; [reflexivity|]);
        destruct (decode_loops a b c d s)
    end; cbn in Hv |- *; (split; [reflexivity|]); congruence.
Qed.

(** With valid offsets the call runs the two loops on the bytes of the
    first read. *)
Lemma decode_run fuel g inp0 l outp0 off rel h e data inp2 :
  h !! l = Some e ->
  0 <= off -> 0 <= page_start rel inp0 e ->
  file_read (Z.min (bytes_for_longest_code g) (lut_offset e + effective_size e))
    (File (f_data inp0) (page_start rel inp0 e)) = (Ok data, inp2) ->
  decode_page_from_input_file_i fuel g inp0 l outp0 off rel h
  = run_of_flow
      (decode_loops fuel g (lut_dictionary_selector e)
         (lut_offset e + effective_size e)
         (MkD inp2 (OutFile off (o_written outp0)) (Z.of_nat (length data)) 0
              data [] 0 []))
      (if lut_size e =? 0
       then <[l := set_lut_size HUFFMAN_PAGE_DECODED_SIZE_MAX e]> h else h).
Proof.
  intros Hl Hoff Hs.
  unfold decode_page_from_input_file_i, page_start, effective_size,
    bytes_for_longest_code in *.
  rewrite Hl. unfold out_seek.
  replace (off <? 0) with false by (symmetry; apply Z.ltb_ge; lia).
  rewrite Z.sub_0_r.
  destruct (lut_size e =? 0);
    cbn [set_lut_size lut_offset lut_size lut_dictionary_selector];
    destruct rel; unfold file_seek_cur, file_seek_set;
    match goal with
    | |- context [?x <? 0] =>
        replace (x <? 0) with false by (symmetry; apply Z.ltb_ge; lia)
    end;
    intros Hr; rewrite Hr; reflexivity.
Qed.

Lemma match_code_cleared bb lcp :
  lcp <= 0 -> match_code clear_huffman_table_data bb lcp = (0, None).
Proof.
  intros Hlcp. unfold match_code. cbn [clear_huffman_table_data
    shortest_huffman_code_in_bits huffman_table].
  assert (Hm : sys_maxsize = 9223372036854775807) by reflexivity.
  replace (Z.to_nat (lcp - (sys_maxsize - 1))) with 0%nat by lia.
  reflexivity.
Qed.

(** *** Results *)

(** X12. Whatever a returning call has written is, after the bytes the
    output already held, a run of dictionary values of the table -- the
    second value of an entry when the selector of the page is 1, the
    first one for any other selector -- and a value returned other than
    -1 is the number of bytes in that run. *)
Theorem decoded_bytes_come_from_table (fuel : nat) (g : huffman_globals)
    (inp0 : file) (l : nat) (outp0 : out_file) (off : Z) (rel : bool)
    (h : gmap nat LUTentry) (e : LUTentry) (v : Z) :
  h !! l = Some e ->
  run_result (decode_page_from_input_file_i fuel g inp0 l outp0 off rel h) = Ok v ->
  exists vs,
    Forall (emitted_by g (lut_dictionary_selector e)) vs /\
    o_written
      (outp (run_state (decode_page_from_input_file_i fuel g inp0 l outp0 off rel h)))
    = o_written outp0 ++ concat vs /\
    (v = -1 \/ v = Z.of_nat (length (concat vs))).
Proof.
  intros Hl Hv.
  destruct (decode_ok_unfold _ _ _ _ _ _ _ _ _ _ Hl Hv)
    as (data & inp2 & fl & _ & _ & _ & Hfl & Hst & Hres).
  rewrite Hst.
  match type of Hfl with
  | _ = decode_loops ?f ?g' ?sel ?endp ?st0 =>
      assert (H0 : page_output g' sel (o_written outp0) st0)
        by (exists []; cbn; rewrite app_nil_r; auto);
      pose proof (decode_loops_output g' sel endp (o_written outp0) f st0 H0
                    ltac:(cbn; unfold HUFFMAN_PAGE_DECODED_SIZE_MAX; lia))
        as [Hout Hc]
  end.
  rewrite <- Hfl in Hout, Hc.
  destruct Hout as (vs & Hvs & Hw & Hp). exists vs.
  split; [exact Hvs|]. split; [exact Hw|].
  destruct fl as [st|v' st|ex st|st]; try contradiction.
  subst v'. cbn [flow_state] in Hp.
  destruct Hc as [->|[-> _]]; [left; reflexivity|right; exact Hp].
Qed.

Lemma decoded_bytes_come_from_table_witness :
  exists vs,
    Forall (emitted_by one_byte_table 1) vs /\
    o_written
      (outp (run_state
               (decode_page_from_input_file_i 8 one_byte_table
                  (File [x00; x01; xff; xff] 0) 0%nat (OutFile 0 [x07]) 0 true
                  {[ 0%nat := MkLUTentry 0 1 20 ]})))
    = [x07] ++ concat vs /\
    (-1 = -1 \/ -1 = Z.of_nat (length (concat vs))).
Proof.
  refine (decoded_bytes_come_from_table 8 one_byte_table
            (File [x00; x01; xff; xff] 0) 0%nat (OutFile 0 [x07]) 0 true
            ({[ 0%nat := MkLUTentry 0 1 20 ]} : gmap nat LUTentry)
            (MkLUTentry 0 1 20) (-1) _ _).
  - vm_compute. reflexivity.
  - vm_compute. reflexivity.
Defined.

(** X13. When no dictionary value of the table is longer than [L]
    bytes, a returning call returns at least -1 and at most [4095 + L]:
    the cap of 4096 is tested only after a value has been written in
    full, so the write position passes it by less than one value. *)
Theorem return_value_bound (fuel : nat) (g : huffman_globals)
    (inp0 : file) (l : nat) (outp0 : out_file) (off : Z) (rel : bool)
    (h : gmap nat LUTentry) (e : LUTentry) (v L : Z) :
  h !! l = Some e ->
  0 <= L ->
  values_within g L ->
  run_result (decode_page_from_input_file_i fuel g inp0 l outp0 off rel h) = Ok v ->
  -1 <= v <= 4095 + L.
Proof.
  intros Hl HL Hwithin Hv.
  destruct (decode_ok_unfold _ _ _ _ _ _ _ _ _ _ Hl Hv)
    as (data & inp2 & fl & _ & _ & _ & Hfl & Hst & Hres).
  match type of Hfl with
  | _ = decode_loops ?f ?g' ?sel ?endp ?st0 =>
      assert (H0 : page_output g' sel (o_written outp0) st0)
        by (exists []; cbn; rewrite app_nil_r; auto);
      pose proof (decode_loops_output g' sel endp (o_written outp0) f st0 H0
                    ltac:(cbn; unfold HUFFMAN_PAGE_DECODED_SIZE_MAX; lia))
        as [Hout Hc]
  end.
  rewrite <- Hfl in Hout, Hc.
  destruct Hout as (vs & _ & _ & Hp).
  destruct fl as [st|v' st|ex st|st]; try contradiction.
  subst v'. cbn [flow_state] in Hp.
  unfold HUFFMAN_PAGE_DECODED_SIZE_MAX in Hc.
  destruct Hc as [->|[Hvw [Hlt|(k & e' & He' & Hlt)]]]; [lia|lia|].
  destruct (Hwithin k e' He') as [H1 H2].
  unfold selected_value in Hlt.
  destruct (lut_dictionary_selector e =? 1); lia.
Qed.

Lemma return_value_bound_witness : -1 <= 4098 <= 4095 + 3.
Proof.
  refine (return_value_bound 1400 three_byte_table
            (File (repeat x00 1200) 0) 0%nat (OutFile 0 []) 0 true
            ({[ 0%nat := MkLUTentry 0 0 0 ]} : gmap nat LUTentry)
            (MkLUTentry 0 0 0) 4098 3 _ _ _ _).
  - vm_compute. reflexivity.
  - lia.
  - intros k e' He'.
    assert (Ht : huffman_table three_byte_table
                 = {[ repeat false 7
                      := MkHuffmanTableEntry [x01; x02; x03] [x04; x05; x06] 3 7
                           "0000000" (repeat false 7) ]})
      by (vm_compute; reflexivity).
    rewrite Ht in He'. apply lookup_singleton_Some in He' as [_ <-].
    cbn. lia.
  - vm_compute. reflexivity.
Defined.

(** X14. With a non-negative longest code length and a non-negative
    page end, a returning call has left the bytes of the input file as
    they were, the file position at the start of the page plus the read
    position, and the read position between 0 and the page end
    [offset + size] (with 4096 for the sentinel size 0): it never
    consumes more than [offset + size] bytes, counted from the start of
    the page. *)
Theorem reads_stay_within_page_end (fuel : nat) (g : huffman_globals)
    (inp0 : file) (l : nat) (outp0 : out_file) (off : Z) (rel : bool)
    (h : gmap nat LUTentry) (e : LUTentry) (v : Z) :
  h !! l = Some e ->
  0 <= longest_huffman_code_in_bits g ->
  0 <= lut_offset e + effective_size e ->
  run_result (decode_page_from_input_file_i fuel g inp0 l outp0 off rel h) = Ok v ->
  let st := run_state (decode_page_from_input_file_i fuel g inp0 l outp0 off rel h) in
  f_data (inp st) = f_data inp0 /\
  f_pos (inp st) = page_start rel inp0 e + read_position st /\
  0 <= read_position st <= lut_offset e + effective_size e.
Proof.
  intros Hl Hlong Hend Hv.
  destruct (decode_ok_unfold _ _ _ _ _ _ _ _ _ _ Hl Hv)
    as (data & inp2 & fl & _ & _ & Hr & Hfl & Hst & _).
  cbn zeta. rewrite Hst, Hfl.
  apply file_read_effect in Hr as [Hd [Hp Hn]]. cbn [f_data f_pos] in Hd, Hp.
  apply (decode_loops_input g _ _ (f_data inp0) (page_start rel inp0 e) fuel _ Hlong).
  unfold page_input. cbn [inp read_position]. split; [exact Hd|].
  split; [exact Hp|]. split; [lia|].
  assert (0 <= bytes_for_longest_code g).
  { unfold bytes_for_longest_code.
    pose proof (Z.quot_pos (longest_huffman_code_in_bits g) 8 Hlong).
    destruct (0 <? longest_huffman_code_in_bits g mod 8); lia. }
  lia.
Qed.

Lemma reads_stay_within_page_end_witness :
  let st := run_state
              (decode_page_from_input_file_i 4 one_byte_table
                 (File [x00; x00; x00; x00] 0) 0%nat (OutFile 0 []) 0 true
                 {[ 0%nat := MkLUTentry 1 0 1 ]}) in
  f_data (inp st) = [x00; x00; x00; x00] /\
  f_pos (inp st) = 1 + read_position st /\
  0 <= read_position st <= 2.
Proof.
  refine (reads_stay_within_page_end 4 one_byte_table
            (File [x00; x00; x00; x00] 0) 0%nat (OutFile 0 []) 0 true
            ({[ 0%nat := MkLUTentry 1 0 1 ]} : gmap nat LUTentry)
            (MkLUTentry 1 0 1) 1 _ _ _ _).
  - vm_compute. reflexivity.
  - vm_compute. discriminate.
  - vm_compute. discriminate.
  - vm_compute. reflexivity.
Defined.

(** X15. Before a table is loaded (or after the table data was
    cleared) a call on a page with a positive end returns -1 at once,
    whatever the input holds: it has read no byte -- the first read asks
    for 0 bytes, the longest code length being 0 -- and written none. *)
Theorem decode_without_table (fuel : nat) (inp0 : file) (l : nat)
    (outp0 : out_file) (off : Z) (rel : bool) (h : gmap nat LUTentry)
    (e : LUTentry) :
  h !! l = Some e ->
  0 <= off -> 0 <= page_start rel inp0 e ->
  0 < lut_offset e + effective_size e ->
  let r := decode_page_from_input_file_i (S fuel) clear_huffman_table_data
             inp0 l outp0 off rel h in
  run_result r = Ok (-1) /\
  o_written (outp (run_state r)) = o_written outp0 /\
  read_position (run_state r) = 0 /\
  f_pos (inp (run_state r)) = page_start rel inp0 e.
Proof.
  intros Hl Hoff Hs Hend. cbn zeta.
  rewrite (decode_run (S fuel) clear_huffman_table_data inp0 l outp0 off rel h e
             [] (File (f_data inp0) (page_start rel inp0 e + 0)) Hl Hoff Hs).
  2:{ change (bytes_for_longest_code clear_huffman_table_data) with 0.
      rewrite Z.min_l by lia. reflexivity. }
  unfold decode_loops. cbn [main_loop read_position length].
  change (Z.of_nat 0) with 0.
  replace (0 <? lut_offset e + effective_size e) with true
    by (symmetry; apply Z.ltb_lt; lia).
  unfold main_body.
  cbn [in_data length Nat.ltb Nat.leb bitbuffer valid_bits_in_bitbuffer].
  change (Z.of_nat 0) with 0.
  rewrite match_code_cleared by (cbn; lia).
  cbn. rewrite Z.add_0_r. auto.
Qed.

Lemma decode_without_table_witness :
  let r := decode_page_from_input_file_i 1 clear_huffman_table_data
             (File [x00; x01; xff; xff] 0) 0%nat (OutFile 0 []) 0 true
             {[ 0%nat := MkLUTentry 0 1 4 ]} in
  run_result r = Ok (-1) /\
  o_written (outp (run_state r)) = [] /\
  read_position (run_state r) = 0 /\
  f_pos (inp (run_state r)) = 0.
Proof.
  refine (decode_without_table 0 (File [x00; x01; xff; xff] 0) 0%nat
            (OutFile 0 []) 0 true
            ({[ 0%nat := MkLUTentry 0 1 4 ]} : gmap nat LUTentry)
            (MkLUTentry 0 1 4) _ _ _ _).
  - vm_compute. reflexivity.
  - lia.
  - vm_compute. discriminate.
  - vm_compute. reflexivity.
Defined.



End PageDecoderMore.

(** * The file table and the code partitions *)

Module FileTables.

#[local] Arguments file_read : simpl never.

(** ** Steps of a computation on the file *)

Lemma io_bind_done {A B : Type} (m : io A) (k : A -> io B) f b f' :
  io_bind m k f = (Done b, f') ->
  exists a f1, m f = (Done a, f1) /\ k a f1 = (Done b, f').
Proof.
  unfold io_bind. destruct (m f) as [[a|e|] f1]; try discriminate. eauto.
Qed.

Lemma io_bind_failed {A B : Type} (m : io A) (k : A -> io B) f e f' :
  io_bind m k f = (Failed e, f') ->
  m f = (Failed e, f') \/
  exists a f1, m f = (Done a, f1) /\ k a f1 = (Failed e, f').
Proof.
  unfold io_bind. destruct (m f) as [[a|e1|] f1]; try discriminate; eauto.
  intros [= -> ->]. auto.
Qed.

Lemma io_bind_exhausted {A B : Type} (m : io A) (k : A -> io B) f f' :
  io_bind m k f = (Exhausted, f') ->
  m f = (Exhausted, f') \/
  exists a f1, m f = (Done a, f1) /\ k a f1 = (Exhausted, f').
Proof.
  unfold io_bind. destruct (m f) as [[a|e1|] f1]; try discriminate; eauto.
  intros [= ->]. auto.
Qed.

Lemma io_pure_eq {A : Type} (o o' : outcome A) f f' :
  io_pure o f = (o', f') -> o = o' /\ f' = f.
Proof. unfold io_pure. intros [= -> ->]. auto. Qed.

(** A read of a non-negative count always succeeds. *)
Lemma read_nonneg n f :
  0 <= n ->
  io_file (file_read n) f
  = (Done (bytes_at (f_data f) (f_pos f) (Z.to_nat n)),
     File (f_data f)
          (f_pos f + Z.of_nat (length (bytes_at (f_data f) (f_pos f) (Z.to_nat n))))).
Proof.
  intros Hn. unfold io_file, file_read, file_read_n, bytes_at.
  replace (n <? -1) with false by (symmetry; apply Z.ltb_ge; lia).
  replace (n =? -1) with false by (symmetry; apply Z.eqb_neq; lia).
  reflexivity.
Qed.

Lemma seek_nonneg off f :
  0 <= off -> io_file (file_seek_set off) f = (Done tt, File (f_data f) off).
Proof.
  intros Hoff. unfold io_file, file_seek_set.
  replace (off <? 0) with false by (symmetry; apply Z.ltb_ge; lia).
  reflexivity.
Qed.

Lemma seek_done off f u f1 :
  io_file (file_seek_set off) f = (Done u, f1) ->
  0 <= off /\ f1 = File (f_data f) off.
Proof.
  unfold io_file, file_seek_set. destruct (off <? 0) eqn:Hoff; [discriminate|].
  apply Z.ltb_ge in Hoff. intros [= _ <-]. auto.
Qed.

Lemma bytes_at_length data pos n :
  (length (bytes_at data pos n) <= n)%nat /\
  ((Z.to_nat pos + n <= length data)%nat -> length (bytes_at data pos n) = n) /\
  (length (bytes_at data pos n) = n -> (0 < n)%nat ->
   (Z.to_nat pos + n <= length data)%nat).
Proof. unfold bytes_at. rewrite length_take, length_drop. lia. Qed.

(** ** [struct.unpack_from] *)

Lemma le_value_range bs : 0 <= le_value bs < 256 ^ Z.of_nat (length bs).
Proof.
  induction bs as [|b bs IH]; cbn [le_value fold_right length].
  - cbn. lia.
  - fold (le_value bs). pose proof (byte_val_range b).
    rewrite Nat2Z.inj_succ, Z.pow_succ_r by lia. nia.
Qed.

Lemma unpack_from_bytes_done size buffer offset bs :
  unpack_from_bytes size buffer offset = Done bs ->
  bs = take size (drop offset buffer) /\ length bs = size /\
  (offset + size <= length buffer)%nat.
Proof.
  unfold unpack_from_bytes. destruct (_ <=? _)%nat eqn:Hle; [|discriminate].
  apply Nat.leb_le in Hle. intros [= <-].
  rewrite length_take, length_drop. repeat split; lia.
Qed.

Lemma unpack_from_bytes_fits size buffer offset :
  (offset + size <= length buffer)%nat ->
  unpack_from_bytes size buffer offset = Done (take size (drop offset buffer)).
Proof.
  intros Hle. unfold unpack_from_bytes.
  replace (_ <=? _)%nat with true by (symmetry; apply Nat.leb_le; lia).
  reflexivity.
Qed.

Lemma unpack_from_bytes_short size buffer offset :
  (length buffer < offset + size)%nat ->
  unpack_from_bytes size buffer offset = Failed StructError.
Proof.
  intros Hlt. unfold unpack_from_bytes.
  replace (_ <=? _)%nat with false by (symmetry; apply Nat.leb_gt; lia).
  reflexivity.
Qed.

Lemma unpack_u32le_done buffer offset v :
  unpack_u32le buffer offset = Done v ->
  0 <= v < 2 ^ 32 /\ (offset + 4 <= length buffer)%nat.
Proof.
  unfold unpack_u32le.
  destruct (unpack_from_bytes 4 buffer offset) as [bs| |] eqn:Hu; try discriminate.
  apply unpack_from_bytes_done in Hu as (_ & Hlen & Hfit). intros [= <-].
  pose proof (le_value_range bs) as Hr. rewrite Hlen in Hr.
  change (256 ^ Z.of_nat 4) with (2 ^ 32) in Hr. auto.
Qed.

Lemma unpack_u32le_failed buffer offset :
  (forall e, unpack_u32le buffer offset = Failed e -> e = StructError) /\
  unpack_u32le buffer offset <> Exhausted.
Proof.
  unfold unpack_u32le, unpack_from_bytes.
  destruct (_ <=? _)%nat; split; try discriminate; congruence.
Qed.

Lemma string_from_buffer_failed buffer n offset :
  (forall e, string_from_buffer buffer n offset = Failed e ->
             e = StructError \/ e = UnicodeDecodeError) /\
  string_from_buffer buffer n offset <> Exhausted.
Proof.
  unfold string_from_buffer, unpack_from_s, unpack_from_bytes.
  destruct (_ <=? _)%nat; [destruct (utf8_decode _)|];
    split; try discriminate; intros e [= <-]; auto.
Qed.

(** ** The loop over the entries of the file table *)

Lemma get_all_cdt_loop_done : forall n acc f l f',
  0 <= f_pos f ->
  get_all_cdt_loop n acc f = (Done l, f') ->
  f_data f' = f_data f /\
  f_pos f' = f_pos f + 32 * Z.of_nat n /\
  ((0 < n)%nat -> f_pos f' <= Z.of_nat (length (f_data f))) /\
  exists new, l = acc ++ new /\ (length new <= n)%nat /\
              Forall cdt_in_range new.
Proof.
  induction n as [|n IH]; intros acc f l f' Hpos H.
  - cbn in H. injection H as <- <-. repeat split; [lia|lia|].
    exists []. rewrite app_nil_r. repeat split; auto.
  - cbn [get_all_cdt_loop] in H.
    apply io_bind_done in H as (buf & f1 & Hr & H).
    rewrite read_nonneg in Hr by lia. injection Hr as <- <-.
    apply io_bind_done in H as (raw & f2 & Hraw & H).
    apply io_pure_eq in Hraw as [Hraw ->].
    pose proof (unpack_u32le_done _ _ _ Hraw) as [_ Hlen].
    pose proof (bytes_at_length (f_data f) (f_pos f) (Z.to_nat 32))
      as (Hle & _ & Hiff).
    change (Z.to_nat 32) with 32%nat in *.
    assert (Hfull : length (bytes_at (f_data f) (f_pos f) 32) = 32%nat) by lia.
    pose proof (Hiff Hfull ltac:(lia)) as Hfit. rewrite Hfull in H.
    set (f1 := File (f_data f) (f_pos f + Z.of_nat 32)) in *.
    assert (Hstep : forall acc',
               get_all_cdt_loop n acc' f1 = (Done l, f') ->
               (exists new, l = acc' ++ new /\ (length new <= n)%nat /\
                            Forall cdt_in_range new) /\
               f_data f' = f_data f /\
               f_pos f' = f_pos f + 32 * Z.of_nat (S n) /\
               ((0 < S n)%nat -> f_pos f' <= Z.of_nat (length (f_data f)))).
    { intros acc' H'.
      apply IH in H' as (Hd & Hp & Hin & Hnew); [|cbn; lia].
      cbn [f1 f_data f_pos] in Hd, Hp, Hin.
      split; [exact Hnew|]. split; [exact Hd|]. split; [lia|].
      intros _. destruct n; [|apply Hin; lia]. lia. }
    destruct (negb (_ =? 0)).
    { apply Hstep in H as ((new & -> & Hn & Hf) & Hd & Hp & Hin).
      repeat split; auto. exists new. repeat split; auto. }
    destruct (_ =? 255).
    { apply Hstep in H as ((new & -> & Hn & Hf) & Hd & Hp & Hin).
      repeat split; auto. exists new. repeat split; auto. }
    apply io_bind_done in H as (o & f3 & Ho & H).
    apply io_pure_eq in Ho as [Ho ->].
    apply io_bind_done in H as (s & f3 & Hs & H).
    apply io_pure_eq in Hs as [Hs ->].
    apply io_bind_done in H as (nm & f3 & Hnm & H).
    apply io_pure_eq in Hnm as [Hnm ->].
    apply unpack_u32le_done in Ho as [Ho _].
    apply unpack_u32le_done in Hs as [Hs _].
    apply Hstep in H as ((new & -> & Hn & Hf) & Hd & Hp & Hin).
    repeat split; auto.
    eexists (_ :: new). rewrite <- app_assoc. split; [reflexivity|].
    split; [cbn [length]; lia|]. constructor; [|exact Hf].
    split; cbn; assumption.
Qed.

Ltac failed_step H :=
  unfold io_bind at 1, io_pure at 1 in H;
  match type of H with
  | context [unpack_u32le ?b ?o] =>
      let Hx := fresh "Hx" in
      destruct (unpack_u32le_failed b o) as [Hf Hne];
      destruct (unpack_u32le b o) as [?| |] eqn:Hx;
      [clear Hf Hne
      |injection H as <- <-; left; f_equal; apply Hf; reflexivity
      |exfalso; apply Hne; reflexivity]
  end.

Lemma get_all_cdt_loop_not_done : forall n acc f o f',
  get_all_cdt_loop n acc f = (o, f') ->
  (forall l, o <> Done l) ->
  o = Failed StructError \/ o = Failed UnicodeDecodeError.
Proof.
  induction n as [|n IH]; intros acc f o f' H Hnd.
  - cbn in H. injection H as <- <-. exfalso. eapply Hnd. reflexivity.
  - cbn [get_all_cdt_loop] in H. unfold io_bind at 1 in H.
    rewrite read_nonneg in H by lia.
    failed_step H.
    destruct (negb (_ =? 0)); [eapply IH; eauto|].
    destruct (_ =? 255); [eapply IH; eauto|].
    failed_step H. failed_step H.
    unfold io_bind at 1, io_pure at 1 in H.
    destruct (string_from_buffer_failed
                (bytes_at (f_data f) (f_pos f) (Z.to_nat 32)) 4 0) as [Hf Hne].
    destruct (string_from_buffer _ 4 0) as [s|e|] eqn:Hs.
    + eapply IH; eauto.
    + injection H as <- <-. destruct (Hf e eq_refl) as [->| ->]; auto.
    + exfalso. apply Hne. reflexivity.
Qed.

(** ** Decoded strings *)

Lemma lor_ge_128 a b : 0 <= a -> 0 <= b -> 128 <= a -> 128 <= Z.lor a b.
Proof.
  intros Ha Hb H.
  assert (H7 : 7 <= Z.log2 a) by (apply Z.log2_le_pow2; [lia|exact H]).
  pose proof (Z.log2_lor a b Ha Hb) as Hl.
  pose proof (proj2 (Z.lor_nonneg a b) (conj Ha Hb)) as Hn.
  assert (Hpos : 0 < Z.lor a b).
  { destruct (Z.eq_dec (Z.lor a b) 0) as [E|E]; [|lia].
    rewrite E in Hl. cbn in Hl. lia. }
  change 128 with (2 ^ 7). apply Z.log2_le_pow2; [exact Hpos|lia].
Qed.

Lemma continuation_bits_range b : 0 <= continuation_bits b < 64.
Proof.
  unfold continuation_bits. change 63 with (Z.ones 6).
  rewrite Z.land_ones by lia. apply Z.mod_pos_bound. lia.
Qed.

Lemma lead_bits v n k :
  0 <= n -> 0 <= k ->
  Z.shiftl (Z.land v (Z.ones n)) k = (v mod 2 ^ n) * 2 ^ k.
Proof.
  intros Hn Hk. rewrite Z.land_ones by exact Hn. apply Z.shiftl_mul_pow2. exact Hk.
Qed.

Lemma byte_val_inj a b : byte_val a = byte_val b -> a = b.
Proof.
  unfold byte_val. intros H. apply N2Z.inj in H.
  pose proof (Byte.of_to_N a) as Ha. rewrite H, Byte.of_to_N in Ha. congruence.
Qed.

(** The decoder accepts no overlong form: a character below 128 comes
    from one byte; and the bytes kept with the characters are the bytes
    decoded. *)
Lemma utf8_decode_chunks : forall n bs s,
  (length bs <= n)%nat ->
  utf8_decode bs = Some s ->
  concat (map utf8_bytes s) = bs /\ Forall one_byte_if_ascii s.
Proof.
  induction n as [|n IH]; intros bs s Hlen H;
    destruct bs as [|b0 r0]; cbn [utf8_decode] in H;
    try (injection H as <-; split; [reflexivity|constructor]).
  { cbn in Hlen. lia. }
  cbn [length] in Hlen. pose proof (byte_val_range b0) as Hb0.
  destruct (byte_val b0 <? 128) eqn:E0.
  { destruct (utf8_decode r0) as [s0|] eqn:Hr; [|discriminate].
    injection H as <-. apply IH in Hr as [Hc Hf]; [|lia].
    split; [cbn; f_equal; exact Hc|].
    constructor; [|exact Hf]. intros _. exists b0. auto. }
  destruct ((194 <=? byte_val b0) && (byte_val b0 <=? 223)) eqn:E1.
  { destruct r0 as [|b1 r1]; [discriminate|].
    destruct (is_continuation b1); [|discriminate].
    destruct (utf8_decode r1) as [s0|] eqn:Hr; [|discriminate].
    injection H as <-. cbn [length] in Hlen.
    apply IH in Hr as [Hc Hf]; [|lia].
    split; [cbn; do 2 f_equal; exact Hc|].
    constructor; [|exact Hf]. intros Hlt. exfalso. cbn [code_point] in Hlt.
    apply andb_prop in E1 as [L1 L2]. apply Z.leb_le in L1, L2.
    pose proof (continuation_bits_range b1).
    change 31 with (Z.ones 5) in Hlt. rewrite lead_bits in Hlt by lia.
    assert (128 <= byte_val b0 mod 2 ^ 5 * 2 ^ 6)
      by (change (2 ^ 5) with 32; change (2 ^ 6) with 64;
          Z.div_mod_to_equations; lia).
    pose proof (lor_ge_128 (byte_val b0 mod 2 ^ 5 * 2 ^ 6) (continuation_bits b1)).
    lia. }
  destruct ((224 <=? byte_val b0) && (byte_val b0 <=? 239)) eqn:E2.
  { destruct r0 as [|b1 [|b2 r2]]; try discriminate.
    destruct (is_continuation b1 && is_continuation b2 && _ && _) eqn:C;
      [|discriminate].
    destruct (utf8_decode r2) as [s0|] eqn:Hr; [|discriminate].
    injection H as <-. cbn [length] in Hlen.
    apply IH in Hr as [Hc Hf]; [|lia].
    split; [cbn; do 3 f_equal; exact Hc|].
    constructor; [|exact Hf]. intros Hlt. exfalso. cbn [code_point] in Hlt.
    apply andb_prop in E2 as [L1 L2]. apply Z.leb_le in L1, L2.
    apply andb_prop in C as [C C4]. apply andb_prop in C as [C C3].
    apply andb_prop in C as [C1 C2].
    unfold is_continuation in C1. apply andb_prop in C1 as [C1a C1b].
    apply Z.leb_le in C1a, C1b.
    pose proof (continuation_bits_range b1) as R1.
    pose proof (continuation_bits_range b2) as R2.
    change 15 with (Z.ones 4) in Hlt. rewrite lead_bits in Hlt by lia.
    rewrite (Z.shiftl_mul_pow2 (continuation_bits b1)) in Hlt by lia.
    set (P := byte_val b0 mod 2 ^ 4 * 2 ^ 12) in *.
    set (Q := continuation_bits b1 * 2 ^ 6) in *.
    assert (HP : 0 <= P) by (unfold P; Z.div_mod_to_equations; nia).
    assert (HQ : 0 <= Q) by (unfold Q; lia).
    assert (HPQ : 128 <= Z.lor P Q).
    { destruct (byte_val b0 =? 224) eqn:E224; cbn [negb orb] in C3.
      - apply Z.leb_le in C3. rewrite Z.lor_comm.
        apply lor_ge_128; [exact HQ|exact HP|].
        unfold Q, continuation_bits. change 63 with (Z.ones 6).
        rewrite Z.land_ones by lia. change (2 ^ 6) with 64.
        Z.div_mod_to_equations. lia.
      - apply Z.eqb_neq in E224. apply lor_ge_128; [exact HP|exact HQ|].
        unfold P. change (2 ^ 4) with 16. change (2 ^ 12) with 4096.
        Z.div_mod_to_equations. lia. }
    assert (HPQ0 : 0 <= Z.lor P Q) by (apply Z.lor_nonneg; split; assumption).
    pose proof (lor_ge_128 (Z.lor P Q) (continuation_bits b2) HPQ0
                  ltac:(lia) HPQ).
    lia. }
  destruct ((240 <=? byte_val b0) && (byte_val b0 <=? 244)) eqn:E3;
    [|discriminate].
  destruct r0 as [|b1 [|b2 [|b3 r3]]]; try discriminate.
  destruct (is_continuation b1 && is_continuation b2 && is_continuation b3
            && _ && _) eqn:C; [|discriminate].
  destruct (utf8_decode r3) as [s0|] eqn:Hr; [|discriminate].
  injection H as <-. cbn [length] in Hlen.
  apply IH in Hr as [Hc Hf]; [|lia].
  split; [cbn; do 4 f_equal; exact Hc|].
  constructor; [|exact Hf]. intros Hlt. exfalso. cbn [code_point] in Hlt.
  apply andb_prop in E3 as [L1 L2]. apply Z.leb_le in L1, L2.
  apply andb_prop in C as [C C5]. apply andb_prop in C as [C C4].
  apply andb_prop in C as [C C3]. apply andb_prop in C as [C1 C2].
  unfold is_continuation in C1. apply andb_prop in C1 as [C1a C1b].
  apply Z.leb_le in C1a, C1b.
  pose proof (continuation_bits_range b1) as R1.
  pose proof (continuation_bits_range b2) as R2.
  pose proof (continuation_bits_range b3) as R3.
  change 7 with (Z.ones 3) in Hlt. rewrite lead_bits in Hlt by lia.
  rewrite (Z.shiftl_mul_pow2 (continuation_bits b1)) in Hlt by lia.
  rewrite (Z.shiftl_mul_pow2 (continuation_bits b2)) in Hlt by lia.
  set (P := byte_val b0 mod 2 ^ 3 * 2 ^ 18) in *.
  set (Q := continuation_bits b1 * 2 ^ 12) in *.
  assert (HP : 0 <= P) by (unfold P; Z.div_mod_to_equations; nia).
  assert (HQ : 0 <= Q) by (unfold Q; lia).
  assert (HPQ : 128 <= Z.lor P Q).
  { destruct (byte_val b0 =? 240) eqn:E240; cbn [negb orb] in C4.
    - apply Z.leb_le in C4. rewrite Z.lor_comm.
      apply lor_ge_128; [exact HQ|exact HP|].
      unfold Q, continuation_bits. change 63 with (Z.ones 6).
      rewrite Z.land_ones by lia. change (2 ^ 6) with 64.
      change (2 ^ 12) with 4096. Z.div_mod_to_equations. lia.
    - apply Z.eqb_neq in E240. apply lor_ge_128; [exact HP|exact HQ|].
      unfold P. change (2 ^ 3) with 8. change (2 ^ 18) with 262144.
      Z.div_mod_to_equations. lia. }
  assert (HR : 0 <= continuation_bits b2 * 2 ^ 6) by lia.
  assert (HPQ0 : 0 <= Z.lor P Q) by (apply Z.lor_nonneg; split; assumption).
  pose proof (lor_ge_128 (Z.lor P Q) (continuation_bits b2 * 2 ^ 6)
                HPQ0 HR HPQ) as H3.
  assert (HPQR0 : 0 <= Z.lor (Z.lor P Q) (continuation_bits b2 * 2 ^ 6))
    by (apply Z.lor_nonneg; split; assumption).
  pose proof (lor_ge_128 _ (continuation_bits b3) HPQR0 ltac:(lia) H3).
  lia.
Qed.

(** Only the bytes [24 46 50 54] decode to ['$FPT']. *)
Lemma marker_bytes bs s :
  utf8_decode bs = Some s ->
  code_points_eqb (code_points s) FPT_marker = true ->
  bs = FPT_marker_bytes.
Proof.
  intros Hd He.
  apply (utf8_decode_chunks (length bs)) in Hd as [Hc Hf]; [|lia].
  destruct s as [|c0 [|c1 [|c2 [|c3 [|c4 s]]]]]; cbn in He;
    rewrite ?andb_false_r in He; try discriminate.
  rewrite andb_true_r in He.
  apply andb_prop in He as [E0 He]. apply andb_prop in He as [E1 He].
  apply andb_prop in He as [E2 E3]. apply Z.eqb_eq in E0, E1, E2, E3.
  inversion Hf as [|? ? H0 Hf1]; subst.
  inversion Hf1 as [|? ? H1 Hf2]; subst.
  inversion Hf2 as [|? ? H2 Hf3]; subst.
  inversion Hf3 as [|? ? H3 _]; subst.
  destruct (H0 ltac:(lia)) as (b0 & B0 & V0).
  destruct (H1 ltac:(lia)) as (b1 & B1 & V1).
  destruct (H2 ltac:(lia)) as (b2 & B2 & V2).
  destruct (H3 ltac:(lia)) as (b3 & B3 & V3).
  cbn. rewrite B0, B1, B2, B3. cbn. unfold FPT_marker_bytes.
  rewrite (byte_val_inj b0 x24) by (rewrite V0, E0; reflexivity).
  rewrite (byte_val_inj b1 x46) by (rewrite V1, E1; reflexivity).
  rewrite (byte_val_inj b2 x50) by (rewrite V2, E2; reflexivity).
  rewrite (byte_val_inj b3 x54) by (rewrite V3, E3; reflexivity).
  reflexivity.
Qed.

(** The check of the header marker, by the bytes at the offset. *)
Lemma header_check data off :
  string_from_buffer (bytes_at data off (Z.to_nat 32)) 4 0
  = if (length (bytes_at data off 4) <? 4)%nat then Failed StructError
    else match utf8_decode (bytes_at data off 4) with
         | Some s => Done (Some s)
         | None => Failed UnicodeDecodeError
         end.
Proof.
  unfold string_from_buffer, unpack_from_s, unpack_from_bytes, bytes_at.
  change (Z.to_nat 32) with 32%nat. cbn [Nat.add]. rewrite drop_0.
  rewrite take_take. change (4 `min` 32)%nat with 4%nat.
  rewrite !length_take.
  destruct (length (drop (Z.to_nat off) data)) as [|[|[|[|m]]]] eqn:Hl;
    reflexivity.
Qed.

(** ** [get_all_cdt] *)

(** X17. When the four bytes at the offset are not [$FPT], the call
    returns no partition, in one of three ways: [struct.error] when
    fewer than four bytes are left in the file, [UnicodeDecodeError]
    when the four bytes are not valid UTF-8 (an erased region of [FF]
    bytes, say), and [None] otherwise.  The file is left after the
    header bytes read. *)
Theorem get_all_cdt_rejects_other_markers (offset_of_fpt : Z)
    (data : list byte) (pos : Z) :
  0 <= offset_of_fpt ->
  bytes_at data offset_of_fpt 4 <> FPT_marker_bytes ->
  get_all_cdt offset_of_fpt (File data pos)
  = (if (length (bytes_at data offset_of_fpt 4) <? 4)%nat
     then Failed StructError
     else match utf8_decode (bytes_at data offset_of_fpt 4) with
          | Some _ => Done None
          | None => Failed UnicodeDecodeError
          end,
     File data
          (offset_of_fpt + Z.of_nat (length (bytes_at data offset_of_fpt 32)))).
Proof.
  intros Hoff Hne. unfold get_all_cdt.
  unfold io_bind at 1. rewrite seek_nonneg by exact Hoff.
  unfold io_bind at 1. rewrite read_nonneg by lia. cbn [f_data f_pos].
  unfold io_bind at 1, io_pure at 1. rewrite header_check.
  change (Z.to_nat 32) with 32%nat.
  destruct (_ <? 4)%nat; [reflexivity|].
  destruct (utf8_decode _) as [s|] eqn:Hd; [|reflexivity].
  cbn [is_FPT_marker].
  destruct (code_points_eqb _ _) eqn:He; [|reflexivity].
  exfalso. apply Hne. eapply marker_bytes; eauto.
Qed.

Lemma get_all_cdt_rejects_other_markers_witness :
  get_all_cdt 1 (File [x24; xff; xff; xff; xff; x00] 0)
  = (Failed UnicodeDecodeError, File [x24; xff; xff; xff; xff; x00] 6).
Proof.
  refine (get_all_cdt_rejects_other_markers 1 [x24; xff; xff; xff; xff; x00] 0 _ _).
  - lia.
  - vm_compute. discriminate.
Defined.

(** X18. A list returned by [get_all_cdt] is never empty and has at
    most as many descriptors as the header declares entries; offsets and
    sizes are unsigned 32-bit numbers; the marker at the offset was
    [$FPT]; and the header and all declared entries, 32 bytes each, lie
    within the file, which is left right after the last entry. *)
Theorem get_all_cdt_result_shape (offset_of_fpt : Z) (f f' : file)
    (code_partitions : list CodePartitionDescriptor) :
  get_all_cdt offset_of_fpt f = (Done (Some code_partitions), f') ->
  code_partitions <> [] /\
  Forall cdt_in_range code_partitions /\
  bytes_at (f_data f) offset_of_fpt 4 = FPT_marker_bytes /\
  exists num_of_entries,
    unpack_u32le (bytes_at (f_data f) offset_of_fpt 32) 4 = Done num_of_entries /\
    Z.of_nat (length code_partitions) <= num_of_entries /\
    f' = File (f_data f) (offset_of_fpt + 32 + 32 * num_of_entries) /\
    offset_of_fpt + 32 + 32 * num_of_entries <= Z.of_nat (length (f_data f)).
Proof.
  intros H. unfold get_all_cdt in H.
  apply io_bind_done in H as (u & f1 & Hseek & H).
  apply seek_done in Hseek as [Hoff ->].
  apply io_bind_done in H as (buf & f2 & Hr & H).
  rewrite read_nonneg in Hr by lia. cbn [f_data f_pos] in Hr.
  injection Hr as <- <-.
  apply io_bind_done in H as (hc & f3 & Hhc & H).
  apply io_pure_eq in Hhc as [Hhc ->].
  destruct (is_FPT_marker hc) eqn:Hm; cbn [negb] in H; [|discriminate].
  apply io_bind_done in H as (num & f3 & Hnum & H).
  apply io_pure_eq in Hnum as [Hnum ->].
  apply io_bind_done in H as (l & f3 & Hloop & H).
  pose proof (unpack_u32le_done _ _ _ Hnum) as [Hrange _].
  change (Z.to_nat 32) with 32%nat in *.
  set (buf := bytes_at (f_data f) offset_of_fpt 32) in *.
  apply get_all_cdt_loop_done in Hloop
    as (Hd & Hp & Hin & new & Hl & Hlen & Hf); [|cbn; lia].
  cbn [f_data f_pos app] in Hd, Hp, Hin, Hl. subst l.
  unfold io_ret in H. destruct new as [|c new]; [discriminate|].
  cbn [length Nat.eqb] in H. injection H as <- <-.
  rewrite Z2Nat.id in Hp by lia.
  assert (Hn0 : (0 < Z.to_nat num)%nat) by (cbn [length] in Hlen; lia).
  specialize (Hin Hn0).
  pose proof (bytes_at_length (f_data f) offset_of_fpt 32) as (Hle & Hfit & _).
  fold buf in Hle, Hfit.
  assert (Hbuf : length buf = 32%nat) by (apply Hfit; lia).
  rewrite Hbuf in Hp.
  split; [discriminate|]. split; [exact Hf|]. split.
  - fold buf in Hhc. unfold buf in Hhc.
    change 32%nat with (Z.to_nat 32) in Hhc. rewrite header_check in Hhc.
    destruct (_ <? 4)%nat; [discriminate|].
    destruct (utf8_decode _) as [s|] eqn:Hdec; [|discriminate].
    injection Hhc as <-. eapply marker_bytes; eauto.
  - exists num. split; [exact Hnum|]. split; [lia|]. split; [|lia].
    match goal with |- ?x = File _ _ => destruct x as [d' p'] end.
    cbn [f_data f_pos] in Hd, Hp. subst d'. f_equal. lia.
Qed.

Lemma get_all_cdt_result_shape_witness :
  [MkCodePartitionDescriptor 4096 8192 "FTPR"] <> [] /\
  Forall cdt_in_range [MkCodePartitionDescriptor 4096 8192 "FTPR"] /\
  bytes_at fpt_image_example 2 4 = FPT_marker_bytes /\
  exists num_of_entries,
    unpack_u32le (bytes_at fpt_image_example 2 32) 4 = Done num_of_entries /\
    Z.of_nat (length [MkCodePartitionDescriptor 4096 8192 "FTPR"])
    <= num_of_entries /\
    File fpt_image_example 98
    = File fpt_image_example (2 + 32 + 32 * num_of_entries) /\
    2 + 32 + 32 * num_of_entries <= Z.of_nat (length fpt_image_example).
Proof.
  refine (get_all_cdt_result_shape 2 (File fpt_image_example 0)
            (File fpt_image_example 98)
            [MkCodePartitionDescriptor 4096 8192 "FTPR"] _).
  vm_compute. reflexivity.
Defined.

(** X19. A file table cut short by the end of the file gives no
    result: with the marker [$FPT] at the offset and a positive number
    of declared entries of which the file does not hold all 32 bytes
    each, the call raises [struct.error] (or, on the name of an earlier
    entry, [UnicodeDecodeError]); it does not return the partitions read
    so far. *)
Theorem get_all_cdt_truncated_table (offset_of_fpt : Z) (data : list byte)
    (pos num_of_entries : Z) :
  0 <= offset_of_fpt ->
  bytes_at data offset_of_fpt 4 = FPT_marker_bytes ->
  unpack_u32le (bytes_at data offset_of_fpt 32) 4 = Done num_of_entries ->
  0 < num_of_entries ->
  Z.of_nat (length data) < offset_of_fpt + 32 + 32 * num_of_entries ->
  exists e f',
    get_all_cdt offset_of_fpt (File data pos) = (Failed e, f') /\
    (e = StructError \/ e = UnicodeDecodeError).
Proof.
  intros Hoff Hmark Hnum Hpos Hshort. unfold get_all_cdt.
  unfold io_bind at 1. rewrite seek_nonneg by exact Hoff.
  unfold io_bind at 1. rewrite read_nonneg by lia. cbn [f_data f_pos].
  unfold io_bind at 1, io_pure at 1. rewrite header_check, Hmark.
  change (Z.to_nat 32) with 32%nat.
  cbn -[get_all_cdt_loop unpack_u32le bytes_at Z.of_nat].
  rewrite Hnum. unfold io_bind.
  destruct (get_all_cdt_loop _ _ _) as [[l|e|] f'] eqn:Hloop.
  - exfalso.
    apply get_all_cdt_loop_done in Hloop as (_ & Hp & Hin & _); [|cbn; lia].
    cbn [f_data f_pos] in Hp, Hin. rewrite Z2Nat.id in Hp by lia.
    specialize (Hin ltac:(lia)).
    pose proof (bytes_at_length data offset_of_fpt 32) as (_ & Hfit & _).
    assert (length (bytes_at data offset_of_fpt 32) = 32%nat)
      by (apply Hfit; lia).
    lia.
  - exists e, f'. split; [reflexivity|].
    destruct (get_all_cdt_loop_not_done _ _ _ _ _ Hloop ltac:(discriminate))
      as [[= ->]|[= ->]]; auto.
  - destruct (get_all_cdt_loop_not_done _ _ _ _ _ Hloop ltac:(discriminate))
      as [?|?]; discriminate.
Qed.

Lemma get_all_cdt_truncated_table_witness :
  exists e f',
    get_all_cdt 2 (File (take 90 fpt_image_example) 0) = (Failed e, f') /\
    (e = StructError \/ e = UnicodeDecodeError).
Proof.
  refine (get_all_cdt_truncated_table 2 (take 90 fpt_image_example) 0 2 _ _ _ _ _).
  - lia.
  - vm_compute. reflexivity.
  - vm_compute. reflexivity.
  - lia.
  - vm_compute. reflexivity.
Defined.

(** ** Reading back a table that was laid out *)

Lemma le_value_le_bytes : forall len n,
  (n < 256 ^ N.of_nat len)%N -> le_value (le_bytes len n) = Z.of_N n.
Proof.
  induction len as [|len IH]; intros n Hn.
  - cbn in *. lia.
  - cbn [le_bytes le_value fold_right]. fold (le_value (le_bytes len (n / 256))).
    rewrite Nat2N.inj_succ, N.pow_succ_r' in Hn.
    rewrite TableLoaderMore.byte_val_byte_of_N
      by (apply N.mod_upper_bound; discriminate).
    rewrite IH by (apply N.Div0.div_lt_upper_bound; exact Hn).
    pose proof (N.div_mod n 256 ltac:(discriminate)). lia.
Qed.

Lemma pack_u32le_value n : is_u32 n -> le_value (pack_u32le n) = n.
Proof.
  intros [H0 H1]. unfold pack_u32le. rewrite le_value_le_bytes.
  - lia.
  - change (256 ^ N.of_nat 4)%N with (Z.to_N (2 ^ 32)). lia.
Qed.

Lemma pack_u32le_length n : length (pack_u32le n) = 4%nat.
Proof. reflexivity. Qed.

Lemma unpack_u32le_at A B C offset :
  length A = offset -> length B = 4%nat ->
  unpack_u32le (A ++ B ++ C) offset = Done (le_value B).
Proof.
  intros HA HB. unfold unpack_u32le.
  rewrite unpack_from_bytes_fits by (rewrite !length_app; lia).
  rewrite drop_app_length' by (symmetry; exact HA).
  rewrite take_app_length' by (symmetry; exact HB). reflexivity.
Qed.

Lemma fpt_entry_bytes_length e :
  fpt_entry_wf e -> length (fpt_entry_bytes e) = 32%nat.
Proof.
  intros (Hn & Ho & Hr & _). unfold fpt_entry_bytes.
  rewrite !length_app, !pack_u32le_length. lia.
Qed.

Lemma fpt_entry_fields e :
  fpt_entry_wf e ->
  unpack_u32le (fpt_entry_bytes e) 28 = Done (fe_flags e) /\
  unpack_u32le (fpt_entry_bytes e) 8 = Done (fe_offset e) /\
  unpack_u32le (fpt_entry_bytes e) 12 = Done (fe_length e) /\
  string_from_buffer (fpt_entry_bytes e) 4 0
  = match utf8_decode (fe_name e) with
    | Some s => Done (Some s)
    | None => Failed UnicodeDecodeError
    end.
Proof.
  intros (Hn & Ho & Hr & Hoff & Hlen & Hfl). unfold fpt_entry_bytes.
  repeat split.
  - replace (fe_name e ++ fe_owner e ++ pack_u32le (fe_offset e)
             ++ pack_u32le (fe_length e) ++ fe_reserved e
             ++ pack_u32le (fe_flags e))
      with ((fe_name e ++ fe_owner e ++ pack_u32le (fe_offset e)
             ++ pack_u32le (fe_length e) ++ fe_reserved e)
            ++ pack_u32le (fe_flags e) ++ [])
      by (rewrite app_nil_r, <- !app_assoc; reflexivity).
    rewrite unpack_u32le_at, pack_u32le_value; auto.
    rewrite !length_app, !pack_u32le_length. lia.
  - replace (fe_name e ++ fe_owner e ++ pack_u32le (fe_offset e)
             ++ pack_u32le (fe_length e) ++ fe_reserved e
             ++ pack_u32le (fe_flags e))
      with ((fe_name e ++ fe_owner e) ++ pack_u32le (fe_offset e)
            ++ (pack_u32le (fe_length e) ++ fe_reserved e
                ++ pack_u32le (fe_flags e)))
      by (rewrite <- !app_assoc; reflexivity).
    rewrite unpack_u32le_at, pack_u32le_value; auto.
    rewrite !length_app. lia.
  - replace (fe_name e ++ fe_owner e ++ pack_u32le (fe_offset e)
             ++ pack_u32le (fe_length e) ++ fe_reserved e
             ++ pack_u32le (fe_flags e))
      with ((fe_name e ++ fe_owner e ++ pack_u32le (fe_offset e))
            ++ pack_u32le (fe_length e)
            ++ (fe_reserved e ++ pack_u32le (fe_flags e)))
      by (rewrite <- !app_assoc; reflexivity).
    rewrite unpack_u32le_at, pack_u32le_value; auto.
    rewrite !length_app, !pack_u32le_length. lia.
  - unfold string_from_buffer, unpack_from_s.
    rewrite unpack_from_bytes_fits
      by (rewrite !length_app, !pack_u32le_length; lia).
    rewrite drop_0, take_app_length' by (symmetry; exact Hn). reflexivity.
Qed.

Lemma bytes_at_app A B C :
  bytes_at (A ++ B ++ C) (Z.of_nat (length A)) (length B) = B.
Proof.
  unfold bytes_at. rewrite Nat2Z.id, drop_app_length, take_app_length.
  reflexivity.
Qed.

(** One round of the loop on an entry laid out in the image. *)
Lemma get_all_cdt_loop_step e n A R acc :
  fpt_entry_wf e ->
  let f' := File ((A ++ fpt_entry_bytes e) ++ R)
                 (Z.of_nat (length (A ++ fpt_entry_bytes e))) in
  get_all_cdt_loop (S n) acc
    (File (A ++ fpt_entry_bytes e ++ R) (Z.of_nat (length A)))
  = if is_code_partition_entry e then
      match utf8_decode (fe_name e) with
      | Some _ => get_all_cdt_loop n (acc ++ [descriptor_of e]) f'
      | None => (Failed UnicodeDecodeError, f')
      end
    else get_all_cdt_loop n acc f'.
Proof.
  intros He f'. subst f'.
  pose proof (fpt_entry_bytes_length e He) as Hlen.
  destruct (fpt_entry_fields e He) as (Hflags & Hoff & Hsz & Hname).
  cbn [get_all_cdt_loop].
  unfold io_bind at 1. rewrite read_nonneg by lia. cbn [f_data f_pos].
  change (Z.to_nat 32) with 32%nat.
  assert (Hbuf : bytes_at (A ++ fpt_entry_bytes e ++ R) (Z.of_nat (length A)) 32
                 = fpt_entry_bytes e)
    by (rewrite <- Hlen; apply bytes_at_app).
  rewrite Hbuf, Hlen.
  assert (Hdata : A ++ fpt_entry_bytes e ++ R = (A ++ fpt_entry_bytes e) ++ R)
    by (rewrite <- !app_assoc; reflexivity).
  assert (Hposn : Z.of_nat (length A) + Z.of_nat 32
                  = Z.of_nat (length (A ++ fpt_entry_bytes e)))
    by (rewrite length_app, Hlen; lia).
  rewrite Hdata, Hposn.
  unfold io_bind at 1, io_pure at 1. rewrite Hflags.
  unfold is_code_partition_entry.
  destruct (Z.land (fe_flags e) 127 =? 0) eqn:Ht; cbn [negb andb];
    [|reflexivity].
  destruct (Z.land (Z.shiftr (fe_flags e) 24) 255 =? 255) eqn:Hv;
    cbn [negb]; [reflexivity|].
  unfold io_bind at 1, io_pure at 1. rewrite Hoff.
  unfold io_bind at 1, io_pure at 1. rewrite Hsz.
  unfold io_bind at 1, io_pure at 1. rewrite Hname.
  unfold descriptor_of.
  destruct (utf8_decode (fe_name e)) as [s|]; reflexivity.
Qed.

Lemma get_all_cdt_loop_reads : forall entries A post acc,
  Forall fpt_entry_wf entries ->
  Forall (fun e => is_code_partition_entry e = true ->
                   utf8_decode (fe_name e) <> None) entries ->
  get_all_cdt_loop (length entries) acc
    (File (A ++ concat (map fpt_entry_bytes entries) ++ post)
          (Z.of_nat (length A)))
  = (Done (acc ++ map descriptor_of (List.filter is_code_partition_entry entries)),
     File (A ++ concat (map fpt_entry_bytes entries) ++ post)
          (Z.of_nat (length A) + 32 * Z.of_nat (length entries))).
Proof.
  induction entries as [|e entries IH]; intros A post acc Hwf Hnames.
  - cbn. rewrite app_nil_r, Z.add_0_r. reflexivity.
  - inversion Hwf as [|? ? He Hrest]; subst.
    inversion Hnames as [|? ? Hname Hnrest]; subst.
    pose proof (fpt_entry_bytes_length e He) as Hlen.
    cbn [length map concat List.filter].
    rewrite <- (app_assoc (fpt_entry_bytes e)).
    rewrite (get_all_cdt_loop_step e _ A _ acc He). cbv zeta.
    assert (Hdata : A ++ fpt_entry_bytes e
                      ++ concat (map fpt_entry_bytes entries) ++ post
                    = (A ++ fpt_entry_bytes e)
                      ++ concat (map fpt_entry_bytes entries) ++ post)
      by (rewrite <- !app_assoc; reflexivity).
    destruct (is_code_partition_entry e) eqn:Hk.
    + destruct (utf8_decode (fe_name e)) as [s|] eqn:Hdec;
        [|by destruct (Hname eq_refl)].
      rewrite IH by assumption. cbn [map]. rewrite <- app_assoc, Hdata.
      cbn [app]. do 2 f_equal. rewrite length_app, Hlen. lia.
    + rewrite IH by assumption. rewrite Hdata.
      do 2 f_equal. rewrite length_app, Hlen. lia.
Qed.

Lemma get_all_cdt_loop_fails : forall good bad rest A post acc,
  Forall fpt_entry_wf (good ++ bad :: rest) ->
  Forall (fun e => is_code_partition_entry e = true ->
                   utf8_decode (fe_name e) <> None) good ->
  is_code_partition_entry bad = true ->
  utf8_decode (fe_name bad) = None ->
  get_all_cdt_loop (length (good ++ bad :: rest)) acc
    (File (A ++ concat (map fpt_entry_bytes (good ++ bad :: rest)) ++ post)
          (Z.of_nat (length A)))
  = (Failed UnicodeDecodeError,
     File (A ++ concat (map fpt_entry_bytes (good ++ bad :: rest)) ++ post)
          (Z.of_nat (length A) + 32 * (Z.of_nat (length good) + 1))).
Proof.
  induction good as [|e good IH]; intros bad rest A post acc Hwf Hnames Hk Hbad.
  - cbn [app length map concat] in *.
    inversion Hwf as [|? ? He Hrest]; subst.
    pose proof (fpt_entry_bytes_length bad He) as Hlen.
    rewrite <- (app_assoc (fpt_entry_bytes bad)).
    rewrite (get_all_cdt_loop_step bad _ A _ acc He). cbv zeta.
    rewrite Hk, Hbad. rewrite <- !app_assoc. do 2 f_equal.
    rewrite length_app, Hlen. lia.
  - cbn [app length map concat] in *.
    inversion Hwf as [|? ? He Hrest]; subst.
    inversion Hnames as [|? ? Hname Hnrest]; subst.
    pose proof (fpt_entry_bytes_length e He) as Hlen.
    rewrite <- (app_assoc (fpt_entry_bytes e)).
    rewrite (get_all_cdt_loop_step e _ A _ acc He). cbv zeta.
    assert (Hdata : A ++ fpt_entry_bytes e
                      ++ concat (map fpt_entry_bytes (good ++ bad :: rest)) ++ post
                    = (A ++ fpt_entry_bytes e)
                      ++ concat (map fpt_entry_bytes (good ++ bad :: rest)) ++ post)
      by (rewrite <- !app_assoc; reflexivity).
    destruct (is_code_partition_entry e) eqn:Hke.
    + destruct (utf8_decode (fe_name e)) as [s|] eqn:Hdec;
        [|by destruct (Hname eq_refl)].
      rewrite IH by assumption. rewrite Hdata.
      do 2 f_equal. rewrite length_app, Hlen. lia.
    + rewrite IH by assumption. rewrite Hdata.
      do 2 f_equal. rewrite length_app, Hlen. lia.
Qed.

(** The header of a table laid out in the image takes the call to the
    loop over the entries. *)
Lemma get_all_cdt_at_table (pre post header_rest : list byte)
    (entries : list fpt_entry) (pos : Z) :
  length header_rest = 24%nat ->
  Z.of_nat (length entries) < 2 ^ 32 ->
  let hdr := FPT_marker_bytes ++ pack_u32le (Z.of_nat (length entries))
             ++ header_rest in
  get_all_cdt (Z.of_nat (length pre))
    (File (pre ++ fpt_bytes (Z.of_nat (length entries)) header_rest entries
               ++ post) pos)
  = (exec code_partitions <- get_all_cdt_loop (length entries) [];
     io_ret (if (length code_partitions =? 0)%nat then None
             else Some code_partitions))
      (File ((pre ++ hdr) ++ concat (map fpt_entry_bytes entries) ++ post)
            (Z.of_nat (length (pre ++ hdr)))).
Proof.
  intros Hrest Hnum hdr. unfold get_all_cdt, fpt_bytes.
  assert (Hhdr : length hdr = 32%nat)
    by (unfold hdr; rewrite !length_app, pack_u32le_length, Hrest; reflexivity).
  set (body := concat (map fpt_entry_bytes entries)).
  replace (pre ++ (FPT_marker_bytes ++ pack_u32le (Z.of_nat (length entries))
                   ++ header_rest ++ body) ++ post)
    with (pre ++ hdr ++ (body ++ post))
    by (unfold hdr; rewrite <- !app_assoc; reflexivity).
  unfold io_bind at 1. rewrite seek_nonneg by lia.
  unfold io_bind at 1. rewrite read_nonneg by lia. cbn [f_data f_pos].
  change (Z.to_nat 32) with 32%nat.
  assert (Hbuf : bytes_at (pre ++ hdr ++ body ++ post)
                   (Z.of_nat (length pre)) 32 = hdr)
    by (rewrite <- Hhdr; apply bytes_at_app).
  rewrite !Hbuf, Hhdr.
  unfold io_bind at 1, io_pure at 1.
  assert (Hcheck : string_from_buffer hdr 4 0
                   = Done (Some [UChar 36 [x24]; UChar 70 [x46];
                                 UChar 80 [x50]; UChar 84 [x54]])).
  { unfold string_from_buffer, unpack_from_s.
    rewrite unpack_from_bytes_fits by lia. reflexivity. }
  rewrite Hcheck. cbn [is_FPT_marker negb].
  change (code_points_eqb _ FPT_marker) with true. cbn [negb].
  unfold io_bind at 1, io_pure at 1.
  assert (Hcount : unpack_u32le hdr 4 = Done (Z.of_nat (length entries))).
  { unfold hdr. rewrite unpack_u32le_at by reflexivity.
    rewrite pack_u32le_value by (unfold is_u32; lia). reflexivity. }
  rewrite Hcount, Nat2Z.id.
  replace (pre ++ hdr ++ body ++ post) with ((pre ++ hdr) ++ body ++ post)
    by (rewrite <- !app_assoc; reflexivity).
  replace (Z.of_nat (length pre) + Z.of_nat 32)
    with (Z.of_nat (length (pre ++ hdr))) by (rewrite length_app, Hhdr; lia).
  reflexivity.
Qed.

(** X20. Reading back a file partition table laid out in the image:
    with the marker [$FPT], the number of entries, 24 more header bytes
    and the entries of 32 bytes each at the given offset -- whatever
    comes before and after in the file, and wherever the file position
    was.  The call keeps the entries of type 0 whose top flag byte is not
    [FF].

    - If the name of every entry kept is valid UTF-8, the call returns,
      in table order, one descriptor for each entry kept, with the offset
      and length of the entry and its cleaned name, or [None] when no
      entry is kept; and it leaves the file right after the table.
    - Otherwise the call raises [UnicodeDecodeError] at the first entry
      kept whose name is not valid UTF-8, right after reading that entry,
      and returns nothing. *)
Theorem get_all_cdt_reads_table (pre post header_rest : list byte)
    (entries : list fpt_entry) (pos : Z) :
  length header_rest = 24%nat ->
  Forall fpt_entry_wf entries ->
  Z.of_nat (length entries) < 2 ^ 32 ->
  let image := pre ++ fpt_bytes (Z.of_nat (length entries)) header_rest entries
                   ++ post in
  (Forall (fun e => is_code_partition_entry e = true ->
                    utf8_decode (fe_name e) <> None) entries ->
   get_all_cdt (Z.of_nat (length pre)) (File image pos)
   = (Done (match map descriptor_of
                    (List.filter is_code_partition_entry entries) with
            | [] => None
            | code_partitions => Some code_partitions
            end),
      File image
           (Z.of_nat (length pre) + 32 + 32 * Z.of_nat (length entries)))) /\
  (forall good bad rest,
      entries = good ++ bad :: rest ->
      Forall (fun e => is_code_partition_entry e = true ->
                       utf8_decode (fe_name e) <> None) good ->
      is_code_partition_entry bad = true ->
      utf8_decode (fe_name bad) = None ->
      get_all_cdt (Z.of_nat (length pre)) (File image pos)
      = (Failed UnicodeDecodeError,
         File image
              (Z.of_nat (length pre) + 32
               + 32 * (Z.of_nat (length good) + 1)))).
Proof.
  intros Hrest Hwf Hnum image.
  set (hdr := FPT_marker_bytes ++ pack_u32le (Z.of_nat (length entries))
              ++ header_rest).
  assert (Hhdr : length hdr = 32%nat)
    by (unfold hdr; rewrite !length_app, pack_u32le_length, Hrest; reflexivity).
  assert (Himage : image
                   = (pre ++ hdr) ++ concat (map fpt_entry_bytes entries) ++ post).
  { unfold image, fpt_bytes, hdr. rewrite <- !app_assoc. reflexivity. }
  pose proof (get_all_cdt_at_table pre post header_rest entries pos Hrest Hnum)
    as Hcall.
  cbv zeta in Hcall. fold hdr in Hcall. fold image in Hcall.
  rewrite Hcall. unfold io_bind. split.
  - intros Hnames. rewrite get_all_cdt_loop_reads by assumption.
    cbn [app]. unfold io_ret. rewrite Himage. f_equal.
    + destruct (map descriptor_of _); reflexivity.
    + f_equal. rewrite length_app, Hhdr. lia.
  - intros good bad rest Hsplit Hnames Hk Hbad.
    rewrite Himage. rewrite Hsplit in *.
    rewrite get_all_cdt_loop_fails by assumption.
    do 2 f_equal. rewrite length_app, Hhdr. lia.
Qed.

Lemma get_all_cdt_reads_table_witness :
  get_all_cdt 2 (File fpt_image_example 7)
  = (Done (Some [MkCodePartitionDescriptor 4096 8192 "FTPR"]),
     File fpt_image_example 98) /\
  get_all_cdt 2 (File fpt_image_bad_name 0)
  = (Failed UnicodeDecodeError, File fpt_image_bad_name 66).
Proof.
  split.
  - refine (proj1 (get_all_cdt_reads_table [x00; x00] [] (repeat x00 24)
                     fpt_entries_example 7 _ _ _) _).
    + reflexivity.
    + repeat constructor; vm_compute; discriminate.
    + vm_compute. reflexivity.
    + repeat constructor; vm_compute; discriminate.
  - refine (proj2 (get_all_cdt_reads_table [x00; x00] [] (repeat x00 24)
                     fpt_entries_bad_name 0 _ _ _)
              [] (MkFptEntry [x46; xff; x50; x52] (repeat x00 4) 4096 8192
                    (repeat x00 12) 0)
              [MkFptEntry [x20; x41; x00; x00] (repeat x00 4) 1 2
                 (repeat x00 12) 1] _ _ _ _).
    + reflexivity.
    + repeat constructor; vm_compute; discriminate.
    + vm_compute. reflexivity.
    + reflexivity.
    + constructor.
    + reflexivity.
    + reflexivity.
Defined.

(** ** [get_code_objects_in_code_partition] *)

Lemma bytes_at_len data pos n :
  length (bytes_at data pos n) = (n `min` (length data - Z.to_nat pos))%nat.
Proof. unfold bytes_at. rewrite length_take, length_drop. reflexivity. Qed.

Lemma string_from_buffer_done buffer n offset s :
  string_from_buffer buffer n offset = Done s ->
  (offset + n <= length buffer)%nat.
Proof.
  unfold string_from_buffer, unpack_from_s, unpack_from_bytes.
  destruct (_ <=? _)%nat eqn:Hle; [|discriminate].
  apply Nat.leb_le in Hle. auto.
Qed.

Lemma land_ones_range a n : 0 <= n -> 0 <= Z.land a (Z.ones n) < 2 ^ n.
Proof.
  intros Hn. rewrite Z.land_ones by exact Hn. apply Z.mod_pos_bound.
  apply Z.pow_pos_nonneg; lia.
Qed.

Lemma get_code_objects_loop_done : forall n desc acc f l f',
  0 <= f_pos f ->
  get_code_objects_loop n desc acc f = (Done l, f') ->
  f_data f' = f_data f /\
  ((0 < n)%nat ->
   f_pos f' = Z.min (f_pos f + 24 * Z.of_nat n) (Z.of_nat (length (f_data f))) /\
   f_pos f + 24 * Z.of_nat n - 4 <= Z.of_nat (length (f_data f))) /\
  (n = 0%nat -> f' = f) /\
  exists new, l = acc ++ new /\ length new = n /\
              Forall (code_object_in_range desc) new.
Proof.
  induction n as [|n IH]; intros desc acc f l f' Hpos H.
  - cbn in H. injection H as <- <-. repeat split; [lia..|].
    exists []. rewrite app_nil_r. repeat split; auto.
  - cbn [get_code_objects_loop] in H.
    apply io_bind_done in H as (buf & f1 & Hr & H).
    rewrite read_nonneg in Hr by lia. injection Hr as <- <-.
    change (Z.to_nat 24) with 24%nat in H.
    apply io_bind_done in H as (nm & f2 & Hnm & H).
    apply io_pure_eq in Hnm as [Hnm ->].
    apply io_bind_done in H as (raw & f2 & Hraw & H).
    apply io_pure_eq in Hraw as [Hraw ->].
    apply io_bind_done in H as (sz & f2 & Hsz & H).
    apply io_pure_eq in Hsz as [Hsz ->].
    apply unpack_u32le_done in Hsz as [Hsz Hlen].
    pose proof (bytes_at_len (f_data f) (f_pos f) 24) as Hbl.
    apply IH in H as (Hd & Hp & H0 & new & -> & Hn & Hf); [|cbn; lia].
    cbn [f_data f_pos] in Hd, Hp, H0.
    split; [exact Hd|]. split; [|split; [discriminate|]].
    + intros _. destruct n as [|n].
      * rewrite (H0 eq_refl). cbn [f_pos]. lia.
      * destruct (Hp ltac:(lia)) as [Hp1 Hp2]. lia.
    + eexists (_ :: new). rewrite <- app_assoc. split; [reflexivity|].
      split; [cbn [length]; lia|]. constructor; [|exact Hf].
      split; [reflexivity|]. split; [|exact Hsz].
      cbn [rel_offset_of_data_in_partition].
      change 33554431 with (Z.ones 25). apply land_ones_range. lia.
Qed.

Lemma unpack_u32le_prefix A B offset :
  (offset + 4 <= length A)%nat ->
  unpack_u32le (A ++ B) offset = unpack_u32le A offset.
Proof.
  intros Hle. unfold unpack_u32le.
  rewrite !unpack_from_bytes_fits by (rewrite ?length_app; lia).
  rewrite drop_app_le by lia. rewrite take_app_le by (rewrite length_drop; lia).
  reflexivity.
Qed.

Lemma unpack_u8_done buffer offset v :
  unpack_u8 buffer offset = Done v ->
  0 <= v < 256 /\ (offset + 1 <= length buffer)%nat.
Proof.
  unfold unpack_u8.
  destruct (unpack_from_bytes 1 buffer offset) as [bs| |] eqn:Hu; try discriminate.
  apply unpack_from_bytes_done in Hu as (_ & Hlen & Hfit). intros [= <-].
  pose proof (le_value_range bs) as Hr. rewrite Hlen in Hr.
  change (256 ^ Z.of_nat 1) with 256 in Hr. split; [exact Hr|lia].
Qed.

(** X21. A list returned by [get_code_objects_in_code_partition] is
    never empty and has exactly as many entries as the directory header
    declares; each entry refers to the partition passed in, its offset
    is below [2^25] and its size is an unsigned 32-bit number.  The
    header length found in byte 10 was at least 11, the header lies
    within the file, and so do the entries -- except that the last one
    may lack up to four of its 24 bytes, which are not looked at.  The
    file is left after the last entry, or at its end. *)
Theorem get_code_objects_result_shape (code_partition_desc : CodePartitionDescriptor)
    (f f' : file) (code_objects : list CodeObjectEntry) :
  get_code_objects_in_code_partition code_partition_desc f
  = (Done (Some code_objects), f') ->
  let offset := offset_of_cdt_header code_partition_desc in
  code_objects <> [] /\
  Forall (code_object_in_range code_partition_desc) code_objects /\
  exists header_length num_code_objects,
    unpack_u8 (bytes_at (f_data f) offset 11) 10 = Done header_length /\
    unpack_u32le (bytes_at (f_data f) offset 11) 4 = Done num_code_objects /\
    11 <= header_length /\
    Z.of_nat (length code_objects) = num_code_objects /\
    offset + header_length + 24 * num_code_objects - 4
    <= Z.of_nat (length (f_data f)) /\
    f' = File (f_data f)
              (Z.min (offset + header_length + 24 * num_code_objects)
                     (Z.of_nat (length (f_data f)))).
Proof.
  intros H. cbn zeta. unfold get_code_objects_in_code_partition in H.
  set (off := offset_of_cdt_header code_partition_desc) in *.
  apply io_bind_done in H as (u & f1 & Hseek & H).
  apply seek_done in Hseek as [Hoff ->].
  apply io_bind_done in H as (hdr & f2 & Hr & H).
  rewrite read_nonneg in Hr by lia. cbn [f_data f_pos] in Hr.
  change (Z.to_nat 11) with 11%nat in Hr. injection Hr as <- <-.
  set (hdr := bytes_at (f_data f) off 11) in *.
  apply io_bind_done in H as (hl & f3 & Hhl & H).
  apply io_pure_eq in Hhl as [Hhl ->].
  pose proof (unpack_u8_done _ _ _ Hhl) as [Hhlr Hhdr].
  pose proof (bytes_at_len (f_data f) off 11) as Hlen. fold hdr in Hlen.
  assert (Hhdr11 : length hdr = 11%nat) by lia.
  apply io_bind_done in H as (rest & f3 & Hrest & H).
  assert (Hge : -1 <= hl - 11).
  { destruct (Z.ltb_spec (hl - 11) (-1)) as [Hlt|]; [|lia].
    unfold io_file, file_read in Hrest.
    replace (hl - 11 <? -1) with true in Hrest
      by (symmetry; apply Z.ltb_lt; lia).
    discriminate. }
  apply io_bind_done in H as (num & f4 & Hnum & H).
  apply io_pure_eq in Hnum as [Hnum ->].
  rewrite unpack_u32le_prefix in Hnum by lia.
  pose proof (unpack_u32le_done _ _ _ Hnum) as [Hnumr _].
  apply io_bind_done in H as (l & f4 & Hloop & H).
  unfold io_ret in H.
  destruct l as [|c l]; [discriminate|]. cbn [length Nat.eqb] in H.
  injection H as <- <-.
  assert (Hrest' : f_data f3 = f_data f /\ 0 <= f_pos f3 /\
                   (hl = 10 -> f_pos f3 = Z.of_nat (length (f_data f))) /\
                   (11 <= hl ->
                    f_pos f3 = Z.min (off + hl) (Z.of_nat (length (f_data f))))).
  { unfold io_file, file_read, file_read_n in Hrest. cbn [f_data f_pos] in Hrest.
    rewrite Hhdr11 in Hrest.
    replace (hl - 11 <? -1) with false in Hrest
      by (symmetry; apply Z.ltb_ge; lia).
    destruct (hl - 11 =? -1) eqn:E; injection Hrest as <- <-;
      cbn [f_data f_pos]; rewrite length_take, length_drop;
      [apply Z.eqb_eq in E|apply Z.eqb_neq in E]; repeat split; lia. }
  destruct Hrest' as (Hd3 & Hp3 & Hten & Hfull).
  apply get_code_objects_loop_done in Hloop
    as (Hd & Hp & _ & new & Hl & Hn & Hf); [|exact Hp3].
  cbn [app] in Hl. subst new. rewrite Hd3 in Hd, Hp.
  assert (Hn0 : (0 < Z.to_nat num)%nat) by (rewrite <- Hn; cbn [length]; lia).
  destruct (Hp Hn0) as [Hp1 Hp2]. rewrite Z2Nat.id in Hp1, Hp2 by lia.
  assert (Hhl11 : 11 <= hl) by lia.
  specialize (Hfull Hhl11).
  split; [discriminate|]. split; [exact Hf|].
  exists hl, num. split; [exact Hhl|]. split; [exact Hnum|].
  split; [exact Hhl11|]. split; [lia|]. split; [lia|].
  match goal with |- ?x = File _ _ => destruct x as [d' p'] end.
  cbn [f_data f_pos] in Hd, Hp1. subst d'. f_equal. lia.
Qed.

Lemma get_code_objects_result_shape_witness :
  let offset := offset_of_cdt_header partition_example in
  [MkCodeObjectEntry partition_example 256 8192 "kernel" true;
   MkCodeObjectEntry partition_example 512 100 "rbe" false] <> [] /\
  Forall (code_object_in_range partition_example)
    [MkCodeObjectEntry partition_example 256 8192 "kernel" true;
     MkCodeObjectEntry partition_example 512 100 "rbe" false] /\
  exists header_length num_code_objects,
    unpack_u8 (bytes_at cpd_image_example offset 11) 10 = Done header_length /\
    unpack_u32le (bytes_at cpd_image_example offset 11) 4
    = Done num_code_objects /\
    11 <= header_length /\
    Z.of_nat (length [MkCodeObjectEntry partition_example 256 8192 "kernel" true;
                      MkCodeObjectEntry partition_example 512 100 "rbe" false])
    = num_code_objects /\
    offset + header_length + 24 * num_code_objects - 4
    <= Z.of_nat (length cpd_image_example) /\
    File cpd_image_example 65
    = File cpd_image_example
        (Z.min (offset + header_length + 24 * num_code_objects)
               (Z.of_nat (length cpd_image_example))).
Proof.
  refine (get_code_objects_result_shape partition_example
            (File cpd_image_example 0) (File cpd_image_example 65)
            [MkCodeObjectEntry partition_example 256 8192 "kernel" true;
             MkCodeObjectEntry partition_example 512 100 "rbe" false] _).
  vm_compute. reflexivity.
Defined.

(** X22. A header length below 11 in byte 10 of the directory header
    makes the second read of the header ask for a negative count.  Below
    10 the read raises [ValueError], after the first eleven bytes.  At
    10 the count is -1, which reads the file to its end: the call then
    returns [None] when the header declares no entry and raises
    [struct.error] on the first entry otherwise. *)
Theorem get_code_objects_short_header_length
    (code_partition_desc : CodePartitionDescriptor) (data : list byte)
    (pos header_length num_code_objects : Z) :
  let offset := offset_of_cdt_header code_partition_desc in
  0 <= offset ->
  unpack_u8 (bytes_at data offset 11) 10 = Done header_length ->
  unpack_u32le (bytes_at data offset 11) 4 = Done num_code_objects ->
  header_length < 11 ->
  get_code_objects_in_code_partition code_partition_desc (File data pos)
  = if header_length <? 10
    then (Failed (StreamError ValueError), File data (offset + 11))
    else (if num_code_objects =? 0 then Done None else Failed StructError,
          File data (Z.of_nat (length data))).
Proof.
  cbn zeta. set (off := offset_of_cdt_header code_partition_desc).
  intros Hoff Hhl Hnum Hlt. unfold get_code_objects_in_code_partition.
  fold off. unfold io_bind at 1. rewrite seek_nonneg by exact Hoff.
  unfold io_bind at 1. rewrite read_nonneg by lia. cbn [f_data f_pos].
  change (Z.to_nat 11) with 11%nat.
  set (hdr := bytes_at data off 11) in *.
  pose proof (unpack_u8_done _ _ _ Hhl) as [Hhlr Hhdr].
  pose proof (bytes_at_len data off 11) as Hlen. fold hdr in Hlen.
  assert (Hhdr11 : length hdr = 11%nat) by lia. rewrite Hhdr11.
  unfold io_bind at 1, io_pure at 1. rewrite Hhl.
  unfold io_bind at 1, io_file at 1, file_read, file_read_n.
  cbn [f_data f_pos].
  destruct (header_length <? 10) eqn:E10.
  - apply Z.ltb_lt in E10.
    replace (header_length - 11 <? -1) with true
      by (symmetry; apply Z.ltb_lt; lia).
    reflexivity.
  - apply Z.ltb_ge in E10. assert (header_length = 10) by lia. subst.
    change (10 - 11 <? -1) with false. change (10 - 11 =? -1) with true.
    cbv beta iota zeta.
    unfold io_bind at 1, io_pure at 1.
    rewrite unpack_u32le_prefix by lia. rewrite Hnum.
    assert (Hend : off + Z.of_nat 11
                   + Z.of_nat (length (take (length data)
                                         (drop (Z.to_nat (off + Z.of_nat 11)) data)))
                   = Z.of_nat (length data))
      by (rewrite length_take, length_drop; lia).
    rewrite Hend.
    pose proof (unpack_u32le_done _ _ _ Hnum) as [Hnumr _].
    destruct (num_code_objects =? 0) eqn:E0.
    + apply Z.eqb_eq in E0. subst. reflexivity.
    + apply Z.eqb_neq in E0.
      destruct (Z.to_nat num_code_objects) as [|n] eqn:En; [lia|].
      unfold io_bind at 1. cbn [get_code_objects_loop].
      unfold io_bind at 1. rewrite read_nonneg by lia. cbn [f_data f_pos].
      assert (Hnone : bytes_at data (Z.of_nat (length data)) (Z.to_nat 24) = [])
        by (unfold bytes_at; rewrite Nat2Z.id, drop_all; reflexivity).
      rewrite Hnone. cbn [length]. rewrite Z.add_0_r. reflexivity.
Qed.

Lemma get_code_objects_short_header_length_witness :
  get_code_objects_in_code_partition (MkCodePartitionDescriptor 0 64 "FTPR")
    (File ([x24; x43; x50; x44; x01; x00; x00; x00; x01; x01; x0a]
           ++ repeat x00 30) 0)
  = (Failed StructError,
     File ([x24; x43; x50; x44; x01; x00; x00; x00; x01; x01; x0a]
           ++ repeat x00 30) 41).
Proof.
  refine (get_code_objects_short_header_length
            (MkCodePartitionDescriptor 0 64 "FTPR")
            ([x24; x43; x50; x44; x01; x00; x00; x00; x01; x01; x0a]
             ++ repeat x00 30) 0 10 1 _ _ _ _).
  - reflexivity.
  - vm_compute. reflexivity.
  - vm_compute. reflexivity.
  - lia.
Defined.

(** ** Reading back a directory that was laid out *)

Lemma land_pow2 a n :
  0 <= n -> Z.land a (2 ^ n) = if Z.testbit a n then 2 ^ n else 0.
Proof.
  intros Hn. apply Z.bits_inj'. intros m Hm.
  rewrite Z.land_spec, Z.pow2_bits_eqb by exact Hn.
  destruct (Z.eqb_spec n m) as [->|Hne].
  - destruct (Z.testbit a m); [|rewrite Z.bits_0; reflexivity].
    rewrite Z.pow2_bits_true by exact Hm. reflexivity.
  - rewrite andb_false_r.
    destruct (Z.testbit a n); [|rewrite Z.bits_0; reflexivity].
    rewrite Z.pow2_bits_false by exact Hne. reflexivity.
Qed.

Lemma cpd_entry_word_fields e :
  cpd_entry_wf e ->
  is_u32 (cpd_entry_word e) /\
  Z.land (cpd_entry_word e) 33554431 = ce_offset e /\
  negb (Z.land (cpd_entry_word e) 33554432 =? 0) = ce_huffman e.
Proof.
  intros (_ & _ & Ho & Hr & _). unfold cpd_entry_word, is_u32.
  set (b := if ce_huffman e then 1 else 0).
  assert (Hb : 0 <= b <= 1) by (unfold b; destruct (ce_huffman e); lia).
  change (2 ^ 25) with 33554432 in *. change (2 ^ 26) with 67108864.
  change (2 ^ 32) with 4294967296. change (2 ^ 6) with 64 in Hr.
  split; [lia|]. split.
  - change 33554431 with (Z.ones 25). rewrite Z.land_ones by lia.
    change (2 ^ 25) with 33554432.
    symmetry. apply (Z.mod_unique_pos _ _ (b + 2 * ce_reserved e)); lia.
  - change 33554432 with (2 ^ 25) at 2. rewrite land_pow2 by lia.
    assert (Hdiv : (ce_offset e + 33554432 * b + 67108864 * ce_reserved e)
                   / 2 ^ 25 = b + 2 * ce_reserved e).
    { symmetry. apply (Z.div_unique_pos _ _ _ (ce_offset e));
        change (2 ^ 25) with 33554432; lia. }
    assert (Hmod : (b + 2 * ce_reserved e) mod 2 = b).
    { symmetry. apply (Z.mod_unique_pos _ _ (ce_reserved e)); lia. }
    destruct (Z.testbit _ 25) eqn:Ht.
    + apply Z.testbit_true in Ht; [|lia]. rewrite Hdiv, Hmod in Ht.
      unfold b in Ht. destruct (ce_huffman e); [reflexivity|discriminate].
    + apply Z.testbit_false in Ht; [|lia]. rewrite Hdiv, Hmod in Ht.
      unfold b in Ht. destruct (ce_huffman e); [discriminate|reflexivity].
Qed.

Lemma cpd_entry_bytes_length e :
  cpd_entry_wf e -> length (cpd_entry_bytes e) = 24%nat.
Proof.
  intros (Hn & Ht & _). unfold cpd_entry_bytes.
  rewrite !length_app, !pack_u32le_length. lia.
Qed.

Lemma cpd_entry_fields e :
  cpd_entry_wf e ->
  unpack_u32le (cpd_entry_bytes e) 12 = Done (cpd_entry_word e) /\
  unpack_u32le (cpd_entry_bytes e) 16 = Done (ce_size e) /\
  string_from_buffer (cpd_entry_bytes e) 12 0
  = match utf8_decode (ce_name e) with
    | Some s => Done (Some s)
    | None => Failed UnicodeDecodeError
    end.
Proof.
  intros He. pose proof (cpd_entry_word_fields e He) as [Hw _].
  destruct He as (Hn & Ht & _ & _ & Hs). unfold cpd_entry_bytes.
  repeat split.
  - rewrite unpack_u32le_at, pack_u32le_value; auto.
  - replace (ce_name e ++ pack_u32le (cpd_entry_word e)
             ++ pack_u32le (ce_size e) ++ ce_tail e)
      with ((ce_name e ++ pack_u32le (cpd_entry_word e))
            ++ pack_u32le (ce_size e) ++ ce_tail e)
      by (rewrite <- !app_assoc; reflexivity).
    rewrite unpack_u32le_at, pack_u32le_value; auto.
    rewrite length_app, pack_u32le_length. lia.
  - unfold string_from_buffer, unpack_from_s.
    rewrite unpack_from_bytes_fits
      by (rewrite !length_app, !pack_u32le_length; lia).
    rewrite drop_0, take_app_length' by (symmetry; exact Hn). reflexivity.
Qed.

(** One round of the loop on an entry laid out in the image. *)
Lemma get_code_objects_loop_step desc e n A R acc :
  cpd_entry_wf e ->
  let f' := File ((A ++ cpd_entry_bytes e) ++ R)
                 (Z.of_nat (length (A ++ cpd_entry_bytes e))) in
  get_code_objects_loop (S n) desc acc
    (File (A ++ cpd_entry_bytes e ++ R) (Z.of_nat (length A)))
  = match utf8_decode (ce_name e) with
    | Some _ => get_code_objects_loop n desc (acc ++ [code_object_of desc e]) f'
    | None => (Failed UnicodeDecodeError, f')
    end.
Proof.
  intros He f'. subst f'.
  pose proof (cpd_entry_bytes_length e He) as Hlen.
  destruct (cpd_entry_fields e He) as (Hword & Hsz & Hname).
  destruct (cpd_entry_word_fields e He) as (_ & Hoff & Hhuff).
  cbn [get_code_objects_loop].
  unfold io_bind at 1. rewrite read_nonneg by lia. cbn [f_data f_pos].
  change (Z.to_nat 24) with 24%nat.
  assert (Hbuf : bytes_at (A ++ cpd_entry_bytes e ++ R) (Z.of_nat (length A)) 24
                 = cpd_entry_bytes e)
    by (rewrite <- Hlen; apply bytes_at_app).
  rewrite Hbuf, Hlen.
  assert (Hdata : A ++ cpd_entry_bytes e ++ R = (A ++ cpd_entry_bytes e) ++ R)
    by (rewrite <- !app_assoc; reflexivity).
  assert (Hposn : Z.of_nat (length A) + Z.of_nat 24
                  = Z.of_nat (length (A ++ cpd_entry_bytes e)))
    by (rewrite length_app, Hlen; lia).
  rewrite Hdata, Hposn.
  unfold io_bind at 1, io_pure at 1. rewrite Hname.
  unfold code_object_of.
  destruct (utf8_decode (ce_name e)) as [s|]; [|reflexivity].
  unfold io_bind at 1, io_pure at 1. rewrite Hword.
  unfold io_bind at 1, io_pure at 1. rewrite Hsz.
  rewrite Hoff, Hhuff. reflexivity.
Qed.

Lemma get_code_objects_loop_reads desc : forall entries A post acc,
  Forall cpd_entry_wf entries ->
  Forall (fun e => utf8_decode (ce_name e) <> None) entries ->
  get_code_objects_loop (length entries) desc acc
    (File (A ++ concat (map cpd_entry_bytes entries) ++ post)
          (Z.of_nat (length A)))
  = (Done (acc ++ map (code_object_of desc) entries),
     File (A ++ concat (map cpd_entry_bytes entries) ++ post)
          (Z.of_nat (length A) + 24 * Z.of_nat (length entries))).
Proof.
  induction entries as [|e entries IH]; intros A post acc Hwf Hnames.
  - cbn. rewrite app_nil_r, Z.add_0_r. reflexivity.
  - inversion Hwf as [|? ? He Hrest]; subst.
    inversion Hnames as [|? ? Hname Hnrest]; subst.
    pose proof (cpd_entry_bytes_length e He) as Hlen.
    cbn [length map concat].
    rewrite <- (app_assoc (cpd_entry_bytes e)).
    rewrite (get_code_objects_loop_step desc e _ A _ acc He). cbv zeta.
    destruct (utf8_decode (ce_name e)) as [s|] eqn:Hdec; [|congruence].
    rewrite IH by assumption. rewrite <- !app_assoc.
    cbn [app]. do 2 f_equal. rewrite length_app, Hlen. lia.
Qed.

Lemma get_code_objects_loop_fails desc : forall good bad rest A post acc,
  Forall cpd_entry_wf (good ++ bad :: rest) ->
  Forall (fun e => utf8_decode (ce_name e) <> None) good ->
  utf8_decode (ce_name bad) = None ->
  get_code_objects_loop (length (good ++ bad :: rest)) desc acc
    (File (A ++ concat (map cpd_entry_bytes (good ++ bad :: rest)) ++ post)
          (Z.of_nat (length A)))
  = (Failed UnicodeDecodeError,
     File (A ++ concat (map cpd_entry_bytes (good ++ bad :: rest)) ++ post)
          (Z.of_nat (length A) + 24 * (Z.of_nat (length good) + 1))).
Proof.
  induction good as [|e good IH]; intros bad rest A post acc Hwf Hnames Hbad.
  - cbn [app length map concat] in *.
    inversion Hwf as [|? ? He Hrest]; subst.
    pose proof (cpd_entry_bytes_length bad He) as Hlen.
    rewrite <- (app_assoc (cpd_entry_bytes bad)).
    rewrite (get_code_objects_loop_step desc bad _ A _ acc He). cbv zeta.
    rewrite Hbad. rewrite <- !app_assoc. do 2 f_equal.
    rewrite length_app, Hlen. lia.
  - cbn [app length map concat] in *.
    inversion Hwf as [|? ? He Hrest]; subst.
    inversion Hnames as [|? ? Hname Hnrest]; subst.
    pose proof (cpd_entry_bytes_length e He) as Hlen.
    rewrite <- (app_assoc (cpd_entry_bytes e)).
    rewrite (get_code_objects_loop_step desc e _ A _ acc He). cbv zeta.
    destruct (utf8_decode (ce_name e)) as [s|] eqn:Hdec; [|congruence].
    rewrite IH by assumption. rewrite <- !app_assoc.
    do 2 f_equal. rewrite length_app, Hlen. lia.
Qed.

Lemma unpack_u8_at A b C offset :
  length A = offset -> unpack_u8 (A ++ [b] ++ C) offset = Done (byte_val b).
Proof.
  intros HA. unfold unpack_u8.
  rewrite unpack_from_bytes_fits by (rewrite !length_app; cbn; lia).
  rewrite drop_app_length' by (symmetry; exact HA).
  change (take 1 ([b] ++ C)) with [b]. unfold le_value. cbn [fold_right].
  rewrite Z.mul_0_r, Z.add_0_r. reflexivity.
Qed.

(** The header of a directory laid out in the image takes the call to
    the loop over the entries. *)
Lemma get_code_objects_at_directory
    (code_partition_desc : CodePartitionDescriptor)
    (pre post marker versions header_rest : list byte)
    (header_length : Z) (entries : list cpd_entry) (pos : Z) :
  offset_of_cdt_header code_partition_desc = Z.of_nat (length pre) ->
  length marker = 4%nat -> length versions = 2%nat ->
  11 <= header_length <= 255 ->
  length header_rest = Z.to_nat (header_length - 11) ->
  Z.of_nat (length entries) < 2 ^ 32 ->
  let hdr := marker ++ pack_u32le (Z.of_nat (length entries)) ++ versions
             ++ [byte_of_N (Z.to_N header_length)] in
  get_code_objects_in_code_partition code_partition_desc
    (File (pre ++ cpd_bytes marker (Z.of_nat (length entries)) versions
                    header_length header_rest entries ++ post) pos)
  = (exec code_objects <-
       get_code_objects_loop (length entries) code_partition_desc [];
     io_ret (if (length code_objects =? 0)%nat then None else Some code_objects))
      (File (((pre ++ hdr) ++ header_rest)
             ++ concat (map cpd_entry_bytes entries) ++ post)
            (Z.of_nat (length ((pre ++ hdr) ++ header_rest)))).
Proof.
  intros Hoff Hmark Hver Hhl Hrest Hnum.
  unfold get_code_objects_in_code_partition, cpd_bytes. rewrite Hoff.
  set (hlb := byte_of_N (Z.to_N header_length)).
  assert (Hhlb : byte_val hlb = header_length).
  { unfold hlb. rewrite TableLoaderMore.byte_val_byte_of_N by lia. lia. }
  cbv zeta.
  set (hdr := marker ++ pack_u32le (Z.of_nat (length entries)) ++ versions
              ++ [hlb]).
  assert (Hhdr : length hdr = 11%nat)
    by (unfold hdr; rewrite !length_app, pack_u32le_length, Hmark, Hver;
        reflexivity).
  set (body := concat (map cpd_entry_bytes entries)).
  replace (pre ++ (marker ++ pack_u32le (Z.of_nat (length entries)) ++ versions
                   ++ [hlb] ++ header_rest ++ body) ++ post)
    with (pre ++ hdr ++ (header_rest ++ body ++ post))
    by (unfold hdr; rewrite <- !app_assoc; reflexivity).
  unfold io_bind at 1. rewrite seek_nonneg by lia.
  unfold io_bind at 1. rewrite read_nonneg by lia. cbn [f_data f_pos].
  change (Z.to_nat 11) with 11%nat.
  assert (Hbuf : bytes_at (pre ++ hdr ++ header_rest ++ body ++ post)
                   (Z.of_nat (length pre)) 11 = hdr)
    by (rewrite <- Hhdr; apply bytes_at_app).
  rewrite !Hbuf, Hhdr.
  unfold io_bind at 1, io_pure at 1.
  assert (Hbyte : unpack_u8 hdr 10 = Done header_length).
  { unfold hdr.
    replace (marker ++ pack_u32le (Z.of_nat (length entries)) ++ versions
             ++ [hlb])
      with ((marker ++ pack_u32le (Z.of_nat (length entries)) ++ versions)
            ++ [hlb] ++ [])
      by (rewrite <- !app_assoc; reflexivity).
    rewrite unpack_u8_at, Hhlb; [reflexivity|].
    rewrite !length_app, pack_u32le_length, Hmark, Hver. reflexivity. }
  rewrite Hbyte.
  unfold io_bind at 1. rewrite read_nonneg by lia. cbn [f_data f_pos].
  replace (pre ++ hdr ++ header_rest ++ body ++ post)
    with ((pre ++ hdr) ++ header_rest ++ (body ++ post))
    by (rewrite <- !app_assoc; reflexivity).
  replace (Z.of_nat (length pre) + Z.of_nat 11)
    with (Z.of_nat (length (pre ++ hdr))) by (rewrite length_app, Hhdr; lia).
  rewrite <- Hrest, bytes_at_app.
  unfold io_bind at 1, io_pure at 1.
  assert (Hcount : unpack_u32le (hdr ++ header_rest) 4
                   = Done (Z.of_nat (length entries))).
  { rewrite unpack_u32le_prefix by lia. unfold hdr.
    rewrite unpack_u32le_at by (auto using pack_u32le_length).
    rewrite pack_u32le_value by (unfold is_u32; lia). reflexivity. }
  rewrite Hcount, Nat2Z.id.
  replace ((pre ++ hdr) ++ header_rest ++ body ++ post)
    with (((pre ++ hdr) ++ header_rest) ++ body ++ post)
    by (rewrite <- !app_assoc; reflexivity).
  replace (Z.of_nat (length (pre ++ hdr)) + Z.of_nat (length header_rest))
    with (Z.of_nat (length ((pre ++ hdr) ++ header_rest)))
    by (rewrite !length_app; lia).
  reflexivity.
Qed.

(** X23. Reading back a code partition directory laid out in the
    image: at the offset of the descriptor, four marker bytes, the
    number of entries, two version bytes, a header length of 11 to 255
    in byte 10, the rest of the header, and the entries of 24 bytes
    each, the first 12 of them the name.

    - If the name of every entry is valid UTF-8, the call returns, in
      directory order, one code object for every entry -- none is
      skipped -- with the low 25 bits of the packed word as offset, bit
      25 as the Huffman flag (the six reserved bits are ignored), the
      size word, the cleaned name, and the descriptor passed in as
      partition; or [None] when the directory is empty.  The file is
      left right after the last entry.
    - Otherwise the call raises [UnicodeDecodeError] at the first entry
      whose name is not valid UTF-8, right after reading that entry, and
      returns nothing. *)
Theorem get_code_objects_reads_directory
    (code_partition_desc : CodePartitionDescriptor)
    (pre post marker versions header_rest : list byte)
    (header_length : Z) (entries : list cpd_entry) (pos : Z) :
  offset_of_cdt_header code_partition_desc = Z.of_nat (length pre) ->
  length marker = 4%nat -> length versions = 2%nat ->
  11 <= header_length <= 255 ->
  length header_rest = Z.to_nat (header_length - 11) ->
  Forall cpd_entry_wf entries ->
  Z.of_nat (length entries) < 2 ^ 32 ->
  let image := pre ++ cpd_bytes marker (Z.of_nat (length entries)) versions
                        header_length header_rest entries ++ post in
  (Forall (fun e => utf8_decode (ce_name e) <> None) entries ->
   get_code_objects_in_code_partition code_partition_desc (File image pos)
   = (Done (match map (code_object_of code_partition_desc) entries with
            | [] => None
            | code_objects => Some code_objects
            end),
      File image
           (Z.of_nat (length pre) + header_length
            + 24 * Z.of_nat (length entries)))) /\
  (forall good bad rest,
      entries = good ++ bad :: rest ->
      Forall (fun e => utf8_decode (ce_name e) <> None) good ->
      utf8_decode (ce_name bad) = None ->
      get_code_objects_in_code_partition code_partition_desc (File image pos)
      = (Failed UnicodeDecodeError,
         File image
              (Z.of_nat (length pre) + header_length
               + 24 * (Z.of_nat (length good) + 1)))).
Proof.
  intros Hoff Hmark Hver Hhl Hrest Hwf Hnum image.
  set (hdr := marker ++ pack_u32le (Z.of_nat (length entries)) ++ versions
              ++ [byte_of_N (Z.to_N header_length)]).
  assert (Hhdr : length hdr = 11%nat)
    by (unfold hdr; rewrite !length_app, pack_u32le_length, Hmark, Hver;
        reflexivity).
  assert (Himage : image
                   = ((pre ++ hdr) ++ header_rest)
                     ++ concat (map cpd_entry_bytes entries) ++ post).
  { unfold image, cpd_bytes, hdr. rewrite <- !app_assoc. reflexivity. }
  pose proof (get_code_objects_at_directory code_partition_desc pre post marker
                versions header_rest header_length entries pos
                Hoff Hmark Hver Hhl Hrest Hnum) as Hcall.
  cbv zeta in Hcall. fold hdr in Hcall. fold image in Hcall.
  rewrite Hcall. unfold io_bind. split.
  - intros Hnames. rewrite get_code_objects_loop_reads by assumption.
    cbn [app]. unfold io_ret. rewrite Himage. f_equal.
    + destruct (map (code_object_of code_partition_desc) entries); reflexivity.
    + f_equal. rewrite !length_app, Hhdr, Hrest. lia.
  - intros good bad rest Hsplit Hnames Hbad.
    rewrite Himage. rewrite Hsplit in *.
    rewrite get_code_objects_loop_fails by assumption.
    do 2 f_equal. rewrite !length_app, Hhdr, Hrest. lia.
Qed.

Lemma get_code_objects_reads_directory_witness :
  get_code_objects_in_code_partition partition_example
    (File cpd_image_example 3)
  = (Done (Some [MkCodeObjectEntry partition_example 256 8192 "kernel" true;
                 MkCodeObjectEntry partition_example 512 100 "rbe" false]),
     File cpd_image_example 65) /\
  get_code_objects_in_code_partition partition_example
    (File cpd_image_bad_name 3)
  = (Failed UnicodeDecodeError, File cpd_image_bad_name 65).
Proof.
  split.
  - refine (proj1 (get_code_objects_reads_directory partition_example
                     [x00] [] [x24; x43; x50; x44] [x01; x01] (repeat x00 5) 16
                     cpd_entries_example 3 _ _ _ _ _ _ _) _).
    + reflexivity.
    + reflexivity.
    + reflexivity.
    + lia.
    + reflexivity.
    + repeat constructor; vm_compute; discriminate.
    + vm_compute. reflexivity.
    + repeat constructor; vm_compute; discriminate.
  - refine (proj2 (get_code_objects_reads_directory partition_example
                     [x00] [] [x24; x43; x50; x44] [x01; x01] (repeat x00 5) 16
                     cpd_entries_bad_name 3 _ _ _ _ _ _ _)
              [MkCpdEntry ([x6b; x65; x72; x6e; x65; x6c] ++ repeat x00 6)
                 256 true 0 8192 (repeat x00 4)]
              (MkCpdEntry ([x72; xc3; x28] ++ repeat x00 9) 512 false 0 100
                 (repeat x00 4))
              [] _ _ _).
    + reflexivity.
    + reflexivity.
    + reflexivity.
    + lia.
    + reflexivity.
    + repeat constructor; vm_compute; discriminate.
    + vm_compute. reflexivity.
    + reflexivity.
    + repeat constructor; vm_compute; discriminate.
    + reflexivity.
Defined.

(** ** The Huffman filter *)

Lemma huffman_filter_loop_filters : forall fuel code_objects index,
  (length code_objects - index <= fuel)%nat ->
  (index <= length code_objects)%nat ->
  huffman_filter_loop fuel code_objects index
  = Done (take index code_objects
          ++ List.filter is_huffman_compressed (drop index code_objects)).
Proof.
  assert (Hend : forall (l : list CodeObjectEntry) i,
             (i <? length l)%nat = false -> (i <= length l)%nat ->
             Done l = Done (take i l ++ List.filter is_huffman_compressed (drop i l))).
  { intros l i Hge Hle. apply Nat.ltb_ge in Hge.
    rewrite take_ge, drop_ge by lia. cbn. rewrite app_nil_r. reflexivity. }
  induction fuel as [|fuel IH]; intros l i Hfuel Hle; cbn [huffman_filter_loop].
  - destruct (i <? length l)%nat eqn:Hlt; [|apply Hend; auto].
    apply Nat.ltb_lt in Hlt. lia.
  - destruct (i <? length l)%nat eqn:Hlt; [|apply Hend; auto].
    apply Nat.ltb_lt in Hlt.
    destruct (lookup_lt_is_Some_2 l i Hlt) as [c Hc]. rewrite Hc.
    rewrite (drop_S l c i Hc). cbn [List.filter].
    destruct (is_huffman_compressed c) eqn:Hh; cbn [negb].
    + rewrite IH by lia. rewrite (take_S_r l i c Hc), <- app_assoc.
      reflexivity.
    + pose proof (length_delete l i (mk_is_Some _ _ Hc)) as Hdl.
      rewrite IH by lia.
      rewrite delete_take_drop.
      rewrite take_app_length' by (rewrite length_take; lia).
      rewrite drop_app_length' by (rewrite length_take; lia).
      reflexivity.
Qed.

(** X24. [get_huffman_compressed_code_objects_in_code_partition] is
    [get_code_objects_in_code_partition] followed by a filter: when the
    latter returns a list, the former returns the entries flagged as
    Huffman compressed, in the same order -- an empty list, not [None],
    when no entry is flagged -- and the loop that deletes the others
    needs no more rounds than the list has entries; [None] and
    exceptions are passed on unchanged.  The file is left where the
    first call left it. *)
Theorem huffman_objects_are_filtered (fuel : nat)
    (code_partition_desc : CodePartitionDescriptor) (f f' : file)
    (r : outcome (option (list CodeObjectEntry))) :
  get_code_objects_in_code_partition code_partition_desc f = (r, f') ->
  match r with
  | Done (Some code_objects) =>
      (length code_objects <= fuel)%nat ->
      get_huffman_compressed_code_objects_in_code_partition fuel
        code_partition_desc f
      = (Done (Some (List.filter is_huffman_compressed code_objects)), f')
  | _ =>
      get_huffman_compressed_code_objects_in_code_partition fuel
        code_partition_desc f
      = (r, f')
  end.
Proof.
  intros H. unfold get_huffman_compressed_code_objects_in_code_partition.
  destruct r as [[l|]| |]; [intros Hfuel|..];
    unfold io_bind at 1; rewrite H; try reflexivity.
  unfold io_bind, io_pure, io_ret.
  rewrite huffman_filter_loop_filters by lia. rewrite drop_0. reflexivity.
Qed.

Lemma huffman_objects_are_filtered_witness :
  get_huffman_compressed_code_objects_in_code_partition 2 partition_example
    (File cpd_image_example 3)
  = (Done (Some (List.filter is_huffman_compressed
                   [MkCodeObjectEntry partition_example 256 8192 "kernel" true;
                    MkCodeObjectEntry partition_example 512 100 "rbe" false])),
     File cpd_image_example 65).
Proof.
  refine (huffman_objects_are_filtered 2 partition_example
            (File cpd_image_example 3) (File cpd_image_example 65)
            (Done (Some [MkCodeObjectEntry partition_example 256 8192 "kernel" true;
                         MkCodeObjectEntry partition_example 512 100 "rbe" false]))
            _ _).
  - vm_compute. reflexivity.
  - cbn. lia.
Defined.

(** ** Names *)

Lemma utf8_decode_ascii bs :
  Forall (fun b => byte_val b < 128) bs ->
  utf8_decode bs = Some (map ascii_char bs).
Proof.
  induction 1 as [|b bs Hb _ IH]; [reflexivity|].
  cbn [utf8_decode map].
  replace (byte_val b <? 128) with true by (symmetry; apply Z.ltb_lt; exact Hb).
  rewrite IH. reflexivity.
Qed.

Lemma str_encode_ascii bs : str_encode (map ascii_char bs) = string_of_list_byte bs.
Proof.
  unfold str_encode. f_equal. induction bs as [|b bs IH]; [reflexivity|].
  cbn. f_equal. exact IH.
Qed.

Lemma lstrip_chars_drop p l1 l2 :
  Forall (fun c => p (code_point c) = true) l1 ->
  lstrip_chars p (l1 ++ l2) = lstrip_chars p l2.
Proof.
  induction 1 as [|c l1 Hc _ IH]; [reflexivity|].
  cbn [app lstrip_chars]. rewrite Hc. exact IH.
Qed.

Lemma lstrip_chars_keep p l l2 :
  Forall (fun c => p (code_point c) = false) l ->
  l <> [] ->
  lstrip_chars p (l ++ l2) = l ++ l2.
Proof.
  intros Hl Hne. destruct l as [|c l]; [contradiction|].
  inversion Hl as [|? ? Hc _]; subst. cbn [app lstrip_chars]. rewrite Hc.
  reflexivity.
Qed.

(** Stripping removes a run of strippable characters on either side of
    a string that holds none. *)
Lemma strip_chars_middle p A M B :
  Forall (fun c => p (code_point c) = true) A ->
  Forall (fun c => p (code_point c) = true) B ->
  Forall (fun c => p (code_point c) = false) M ->
  strip_chars p (A ++ M ++ B) = M.
Proof.
  intros HA HB HM. unfold strip_chars, rstrip_chars.
  rewrite lstrip_chars_drop by exact HA.
  destruct M as [|c M].
  - cbn [app]. rewrite <- (app_nil_r B), lstrip_chars_drop by exact HB.
    reflexivity.
  - rewrite lstrip_chars_keep by (auto; discriminate).
    rewrite rev_app_distr.
    rewrite lstrip_chars_drop by (apply Forall_rev; exact HB).
    rewrite <- (app_nil_r (rev (c :: M))).
    rewrite lstrip_chars_keep.
    + rewrite app_nil_r. apply rev_involutive.
    + apply Forall_rev. exact HM.
    + cbn [rev]. intros E. apply app_eq_nil in E as [_ E]. discriminate.
Qed.

Lemma printable_not_space b :
  0x21 <= byte_val b <= 0x7E -> unicode_isspace (byte_val b) = false.
Proof.
  intros Hb. apply Bool.not_true_is_false. intros H. unfold unicode_isspace in H.
  rewrite !Bool.orb_true_iff, !Bool.andb_true_iff, !Z.leb_le, !Z.eqb_eq in H.
  lia.
Qed.

(** X25. The name of an entry: for a name field holding printable
    ASCII characters followed by NUL padding and then, possibly,
    blanks, [string_from_buffer] decodes the field and the two [strip]
    calls leave exactly the printable characters. *)
Theorem padded_name_is_cleaned (s rest : list byte) (nuls blanks : nat) :
  printable s ->
  let field := s ++ repeat x00 nuls ++ repeat x20 blanks in
  exists name,
    string_from_buffer (field ++ rest) (length field) 0 = Done (Some name) /\
    cleaned_name (Some name) = string_of_list_byte s.
Proof.
  intros Hs. cbn zeta.
  set (field := s ++ repeat x00 nuls ++ repeat x20 blanks).
  exists (map ascii_char field). split.
  - unfold string_from_buffer, unpack_from_s.
    rewrite unpack_from_bytes_fits by (rewrite length_app; lia).
    rewrite drop_0, take_app_length. rewrite utf8_decode_ascii; [reflexivity|].
    unfold field. rewrite !Forall_app. repeat split.
    + eapply Forall_impl; [exact Hs|]. cbn. intros b Hb. lia.
    + apply Forall_forall. intros b Hb. apply list_elem_of_In, repeat_spec in Hb.
      subst b. reflexivity.
    + apply Forall_forall. intros b Hb. apply list_elem_of_In, repeat_spec in Hb.
      subst b. reflexivity.
  - unfold cleaned_name, str_strip, str_strip_nul, field.
    rewrite !map_app.
    set (Sc := map ascii_char s). set (Zs := map ascii_char (repeat x00 nuls)).
    set (Ws := map ascii_char (repeat x20 blanks)).
    replace (Sc ++ Zs ++ Ws) with ([] ++ (Sc ++ Zs) ++ Ws)
      by (cbn [app]; rewrite <- app_assoc; reflexivity).
    rewrite strip_chars_middle; unfold Sc, Zs, Ws.
    + replace (map ascii_char s ++ map ascii_char (repeat x00 nuls))
        with ([] ++ map ascii_char s ++ map ascii_char (repeat x00 nuls))
        by reflexivity.
      rewrite strip_chars_middle; [apply str_encode_ascii|constructor|..].
      * apply Forall_forall. intros c Hc. apply list_elem_of_fmap in Hc as (b & -> & Hb).
        apply list_elem_of_In, repeat_spec in Hb. subst b. reflexivity.
      * apply Forall_forall. intros c Hc. apply list_elem_of_fmap in Hc as (b & -> & Hb).
        unfold printable in Hs. rewrite Forall_forall in Hs. apply Hs in Hb.
        cbn [code_point ascii_char]. apply Z.eqb_neq. lia.
    + constructor.
    + apply Forall_forall. intros c Hc. apply list_elem_of_fmap in Hc as (b & -> & Hb).
      apply list_elem_of_In, repeat_spec in Hb. subst b. reflexivity.
    + apply Forall_app. split.
      * apply Forall_forall. intros c Hc.
        apply list_elem_of_fmap in Hc as (b & -> & Hb).
        unfold printable in Hs. rewrite Forall_forall in Hs. apply Hs in Hb.
        apply printable_not_space. exact Hb.
      * apply Forall_forall. intros c Hc.
        apply list_elem_of_fmap in Hc as (b & -> & Hb).
        apply list_elem_of_In, repeat_spec in Hb. subst b. reflexivity.
Qed.

Lemma padded_name_is_cleaned_witness :
  exists name,
    string_from_buffer
      (([x72; x62; x65] ++ repeat x00 7 ++ repeat x20 2) ++ [x00; x02; x00; x00])
      (length ([x72; x62; x65] ++ repeat x00 7 ++ repeat x20 2)) 0
    = Done (Some name) /\
    cleaned_name (Some name) = string_of_list_byte [x72; x62; x65].
Proof.
  refine (padded_name_is_cleaned [x72; x62; x65] [x00; x02; x00; x00] 7 2 _).
  repeat constructor; vm_compute; discriminate.
Defined.

End FileTables.

(** * The pages of one code object *)

Module CodeObjectPages.

Lemma page_written fuel g inp0 l outp0 off rel h v :
  run_result (decode_page_from_input_file_i fuel g inp0 l outp0 off rel h) = Ok v ->
  let st := run_state (decode_page_from_input_file_i fuel g inp0 l outp0 off rel h) in
  (0 <= v -> written st = Z.of_nat (length (o_written outp0)) + v) /\
  (v < 0 -> v = -1 /\ Z.of_nat (length (o_written outp0)) <= written st).
Proof.
  intros Hv. cbn zeta.
  destruct (h !! l) as [e|] eqn:Hl.
  2:{ unfold decode_page_from_input_file_i in Hv. rewrite Hl in Hv. discriminate. }
  destruct (PageDecoderMore.decode_ok_unfold _ _ _ _ _ _ _ _ _ _ Hl Hv)
    as (data & inp2 & fl & _ & _ & _ & Hfl & Hst & Hres).
  rewrite Hst. unfold written.
  match type of Hfl with
  | _ = decode_loops ?f ?g' ?sel ?endp ?st0 =>
      assert (H0 : page_output g' sel (o_written outp0) st0)
        by (exists []; cbn; rewrite app_nil_r; auto);
      pose proof (PageDecoderMore.decode_loops_output g' sel endp
                    (o_written outp0) f st0 H0
                    ltac:(cbn; unfold HUFFMAN_PAGE_DECODED_SIZE_MAX; lia))
        as [Hout Hc]
  end.
  rewrite <- Hfl in Hout, Hc.
  destruct Hout as (vs & _ & Hw & Hp).
  destruct fl as [st|v' st|ex st|st]; try contradiction.
  subst v'. cbn [flow_state] in *. rewrite Hw, length_app.
  destruct Hc as [->|[-> _]]; split; intros; try lia.
Qed.

(** X26. Pages are laid out back to back.  When the loop over the
    pages of a code object ends without an exception, and the last page
    decoded did not fail, the output write position has advanced by
    exactly the number of bytes handed to the output stream: every page
    was told to seek to the end of what the pages before it had written.
    When a page fails, its result is -1, the loop stops there, and the
    write position stays behind by whatever that page had written before
    it failed. *)
Theorem pages_are_back_to_back (fuel : nat) (g : huffman_globals)
    (code_object_position_start : Z) :
  forall (code_object_lut : list nat) (s s' : pages_state),
    decode_pages fuel g code_object_lut code_object_position_start s = (Ok tt, s') ->
    (code_object_lut = [] \/ 0 <= decode_result s' ->
     output_write_position s' - output_write_position s
     = pages_written s' - pages_written s) /\
    (code_object_lut <> [] -> decode_result s' < 0 ->
     decode_result s' = -1 /\
     output_write_position s' - output_write_position s
     <= pages_written s' - pages_written s).
Proof.
  induction code_object_lut as [|l rest IH]; intros s s' H.
  - cbn in H. injection H as <-. split; [intros _; lia|intros []; reflexivity].
  - cbn [decode_pages] in H.
    destruct (file_seek_set _ _) as [[[]| |] inp1]; try discriminate.
    pose proof (page_written fuel g inp1 l (pages_outp s) (output_write_position s)
                  true (pages_heap s)) as Hpage.
    destruct (run_result _) as [v| |] eqn:Hv; try discriminate.
    specialize (Hpage v eq_refl). cbn zeta in Hpage. unfold written in Hpage.
    destruct Hpage as [Hok Hfail].
    destruct (v <? 0) eqn:Hneg.
    + apply Z.ltb_lt in Hneg. injection H as <-.
      unfold pages_written. cbn [decode_result output_write_position pages_outp].
      destruct (Hfail Hneg) as [-> Hw].
      split; [intros [?|?]; [discriminate|lia]|intros _ _; split; lia].
    + apply Z.ltb_ge in Hneg. specialize (Hok Hneg).
      destruct rest as [|l2 rest].
      * cbn in H. injection H as <-.
        unfold pages_written.
        cbn [decode_result output_write_position pages_outp].
        split; [intros _; lia|intros _ ?; lia].
      * apply IH in H as [H1 H2].
        unfold pages_written in *.
        cbn [decode_result output_write_position pages_outp] in H1, H2.
        split.
        -- intros [?|Hd]; [discriminate|].
           specialize (H1 (or_intror Hd)). lia.
        -- intros _ Hd.
           destruct (H2 ltac:(discriminate) Hd) as [E Hle]. split; [exact E|lia].
Qed.

Lemma pages_are_back_to_back_witness :
  output_write_position
    (decode_pages 40 one_byte_table [0; 1; 0]%nat 0 pages_example).2
  - output_write_position pages_example
  = pages_written (decode_pages 40 one_byte_table [0; 1; 0]%nat 0 pages_example).2
    - pages_written pages_example.
Proof.
  refine (proj1 (pages_are_back_to_back 40 one_byte_table 0 [0; 1; 0]%nat
                   pages_example
                   (decode_pages 40 one_byte_table [0; 1; 0]%nat 0 pages_example).2
                   _) _).
  - vm_compute. reflexivity.
  - right. vm_compute. discriminate.
Defined.

End CodeObjectPages.
